(** * The app runtime of the T-Embed CC1101 firmware: permissions, sandboxes,
      script engine and app registry

    A shallow embedding of the C sources under [components/app_manager],
    [components/mjs_engine] and [components/js_api], with the frequency
    registers of [components/cc1101], and the properties of the design
    specification that were checked against them.

    Conventions.
    - [uint32_t] values are [Z] with the wrap-around written out ([wrap32]).
    - A C string is a [string]: the bytes before the terminating NUL.  A
      nullable pointer argument is an [option].
    - [esp_err_t] is [Z], with the ESP-IDF codes as constants.
    - File-scope [static] state of every compilation unit, the heap and the
      external collaborators (NVS flash, file system, radio, tick counter,
      random source, log output) are fields of one [world] record; C
      functions that touch them are functions in the state monad [M]. *)

From Stdlib Require Import ZArith Ascii String List Lia Bool.
From stdpp Require Import base tactics option list gmap strings pretty.

Local Open Scope string_scope.
Local Open Scope Z_scope.

(** ** Machine integers *)

Definition wrap32 (z : Z) : Z := z mod 2 ^ 32.

(** [~x] on a [uint32_t]. *)
Definition not32 (x : Z) : Z := Z.lxor x (Z.ones 32).

(** ** ESP-IDF error codes ([esp_err.h], [nvs.h]) *)

Definition esp_err_t := Z.
Definition ESP_OK : esp_err_t := 0.
Definition ESP_FAIL : esp_err_t := -1.
Definition ESP_ERR_NO_MEM : esp_err_t := 0x101.
Definition ESP_ERR_INVALID_ARG : esp_err_t := 0x102.
Definition ESP_ERR_INVALID_STATE : esp_err_t := 0x103.
Definition ESP_ERR_INVALID_SIZE : esp_err_t := 0x104.
Definition ESP_ERR_NOT_FOUND : esp_err_t := 0x105.
Definition ESP_ERR_NVS_BASE : esp_err_t := 0x1100.
Definition ESP_ERR_NVS_NOT_FOUND : esp_err_t := ESP_ERR_NVS_BASE + 0x02.

(** ** Permission flags ([app_manager.h]) *)

Definition APP_PERM_RF_RECEIVE : Z := Z.shiftl 1 0.
Definition APP_PERM_RF_TRANSMIT : Z := Z.shiftl 1 1.
Definition APP_PERM_GPIO_READ : Z := Z.shiftl 1 2.
Definition APP_PERM_GPIO_WRITE : Z := Z.shiftl 1 3.
Definition APP_PERM_STORAGE_READ : Z := Z.shiftl 1 4.
Definition APP_PERM_STORAGE_WRITE : Z := Z.shiftl 1 5.
Definition APP_PERM_UI_CREATE : Z := Z.shiftl 1 6.
Definition APP_PERM_NETWORK : Z := Z.shiftl 1 7.
Definition APP_PERM_SYSTEM : Z := Z.shiftl 1 8.

Definition MAX_INSTALLED_APPS : nat := 16.
Definition MAX_SANDBOXES : nat := 8.

(** ** C string helpers *)

Definition chr (n : nat) : ascii := ascii_of_nat n.
Definition SPACE : ascii := chr 32.
Definition TAB : ascii := chr 9.
Definition LF : ascii := chr 10.
Definition VT : ascii := chr 11.
Definition FF : ascii := chr 12.
Definition CR : ascii := chr 13.
Definition COMMA : ascii := chr 44.

Definition ascii_eqb (a b : ascii) : bool := Ascii.eqb a b.

(** [strcmp(a, b) == 0]. *)
Definition streq (a b : string) : bool := String.eqb a b.

(** A [char] buffer obtained from a C string, and back. *)
Definition chars (s : string) : list ascii := list_ascii_of_string s.
Definition cstr (l : list ascii) : string := string_of_list_ascii l.

(** [snprintf(buf, size, ...)]: the formatted text cut to [size - 1]
    characters. *)
Definition snprintf (size : nat) (text : string) : string := substring 0 (size - 1) text.

Fixpoint join (sep : string) (l : list string) : string :=
  match l with
  | [] => ""
  | [x] => x
  | x :: rest => x ++ sep ++ join sep rest
  end.

(** [strstr(haystack, needle) != NULL]. *)
Fixpoint starts_with (needle s : list ascii) : bool :=
  match needle, s with
  | [], _ => true
  | n :: needle', c :: s' => ascii_eqb n c && starts_with needle' s'
  | _ :: _, [] => false
  end.

Fixpoint strstr_in (s needle : list ascii) : bool :=
  starts_with needle s
  || match s with
     | [] => false
     | _ :: s' => strstr_in s' needle
     end.

Definition strstr (haystack needle : string) : bool := strstr_in (chars haystack) (chars needle).

(** The C string held by a buffer: the characters before the first NUL. *)
Fixpoint until_nul (l : list ascii) : list ascii :=
  match l with
  | [] => []
  | c :: l' => if ascii_eqb c (chr 0) then [] else c :: until_nul l'
  end.

(** ** app_permissions.c: the name table, parse and to_string *)

Module AppPermissions.

(** [permission_map[]]. *)
Definition permission_map : list (string * Z) :=
  [ ("rf.receive", APP_PERM_RF_RECEIVE);
    ("rf.transmit", APP_PERM_RF_TRANSMIT);
    ("gpio.read", APP_PERM_GPIO_READ);
    ("gpio.write", APP_PERM_GPIO_WRITE);
    ("storage.read", APP_PERM_STORAGE_READ);
    ("storage.write", APP_PERM_STORAGE_WRITE);
    ("ui.create", APP_PERM_UI_CREATE);
    ("network", APP_PERM_NETWORK);
    ("system", APP_PERM_SYSTEM) ].

(** [strtok]'s scanning: [strspn] over the delimiter, then the token up to
    the next delimiter.  The second component of [scan_token] is the save
    pointer: the text after the delimiter that ended the token. *)
Fixpoint skip_delims (d : ascii) (s : list ascii) : list ascii :=
  match s with
  | c :: s' => if ascii_eqb c d then skip_delims d s' else s
  | [] => []
  end.

Fixpoint scan_token (d : ascii) (s : list ascii) : list ascii * list ascii :=
  match s with
  | [] => ([], [])
  | c :: s' =>
      if ascii_eqb c d then ([], s')
      else let '(tok, rest) := scan_token d s' in (c :: tok, rest)
  end.

(** One call of [strtok] on the save pointer [save]: [None] is the NULL
    result. *)
Definition strtok (d : ascii) (save : list ascii) : option (list ascii * list ascii) :=
  match skip_delims d save with
  | [] => None
  | s => Some (scan_token d s)
  end.

(** The leading trim: [token] advances over spaces and tabs. *)
Definition is_lead (c : ascii) : bool := ascii_eqb c SPACE || ascii_eqb c TAB.

Fixpoint skip_leading (token : list ascii) : list ascii :=
  match token with
  | c :: t => if is_lead c then skip_leading t else token
  | [] => []
  end.

(** The trailing trim: [end] starts on the last character and, while
    [end > token] and it points at a space, tab, LF or CR, that character
    is overwritten with NUL.  Written on the reversed token; the guard
    [end > token] means the first character is never cut. *)
Definition is_trail (c : ascii) : bool :=
  ascii_eqb c SPACE || ascii_eqb c TAB || ascii_eqb c LF || ascii_eqb c CR.

Fixpoint cut_trailing (rev_token : list ascii) : list ascii :=
  match rev_token with
  | c :: ((_ :: _) as r) => if is_trail c then cut_trailing r else rev_token
  | _ => rev_token
  end.

Definition trim_token (token : list ascii) : list ascii :=
  rev (cut_trailing (rev (skip_leading token))).

(** The [for] loop over [permission_map] with its [break]: the flag of the
    first entry whose name equals the token is or-ed in. *)
Fixpoint match_permission (map : list (string * Z)) (token : string) (permissions : Z) : Z :=
  match map with
  | [] => permissions
  | (name, flag) :: map' =>
      if streq token name then Z.lor permissions flag
      else match_permission map' token permissions
  end.

(** The [while (token)] loop.  Every round consumes at least one character
    of the buffer, so [fuel] above its length is never exhausted. *)
Fixpoint parse_loop (fuel : nat) (save : list ascii) (permissions : Z) : Z :=
  match fuel with
  | O => permissions
  | S fuel' =>
      match strtok COMMA save with
      | None => permissions
      | Some (token, save') =>
          parse_loop fuel' save'
            (match_permission permission_map (cstr (trim_token token)) permissions)
      end
  end.

(** [app_permissions_parse_string].  [strdup_ok] is whether [strdup]
    returned a buffer. *)
Definition app_permissions_parse_string (strdup_ok : bool) (permissions_str : option string) : Z :=
  match permissions_str with
  | None => 0
  | Some s =>
      if strdup_ok then
        let str_copy := chars s in
        parse_loop (S (List.length str_copy)) str_copy 0
      else 0
  end.

(** [app_permissions_to_string]: the loop that [strcat]s into [perm_str]. *)
Fixpoint to_string_loop (map : list (string * Z)) (permissions : Z)
    (first : bool) (perm_str : string) : string :=
  match map with
  | [] => perm_str
  | (name, flag) :: map' =>
      if negb (Z.land permissions flag =? 0) then
        to_string_loop map' permissions false
          ((if first then perm_str else perm_str ++ ",") ++ name)
      else to_string_loop map' permissions first perm_str
  end.

Definition app_permissions_to_string (permissions : Z) : string :=
  to_string_loop permission_map permissions true "".

End AppPermissions.

(** ** The collaborators *)

(** *** Log output ([esp_log.h]): level, tag and format string of every
    [ESP_LOGE], [ESP_LOGW] and [ESP_LOGI] call.  [ESP_LOGD] lines are below
    the default log level and produce no output. *)

Inductive log_level := LOG_ERROR | LOG_WARN | LOG_INFO.

Record log_entry := Log { log_level_of : log_level; log_tag : string; log_format : string }.

(** *** NVS flash, namespace [app_perms]

    The ESP-IDF key-value store behind the Permission Store.  [nvs_entries]
    is [None] until the namespace has been created by a read-write open.
    The fault fields are the error code the corresponding call reports
    ([ESP_OK]: the call works). *)

Inductive nvs_open_mode_t := NVS_READONLY | NVS_READWRITE.

Record nvs_t := Nvs {
  nvs_entries : option (gmap string Z);
  nvs_open_fault : esp_err_t;
  nvs_get_fault : esp_err_t;
  nvs_set_fault : esp_err_t;
  nvs_commit_fault : esp_err_t
}.

Definition nvs_with_entries (n : nvs_t) (e : option (gmap string Z)) : nvs_t :=
  Nvs e (nvs_open_fault n) (nvs_get_fault n) (nvs_set_fault n) (nvs_commit_fault n).

(** *** File system ([stdio.h], [sys/stat.h]) *)

Record fs_t := Fs {
  fs_dirs : gset string;
  fs_files : gmap string string;
  fs_read_only : bool
}.

(** *** The radio driver as a recording test double: every call of
    [cc1101_transmit] is recorded with its payload, and answers
    [radio_tx_result]. *)

Record radio_t := Radio {
  radio_tx_calls : list (list Z);
  radio_tx_result : esp_err_t
}.

(** ** mjs.h, mjs.c: the engine instance *)

Definition mjs_val_t := Z.
Definition MJS_NULL : mjs_val_t := 0x7ff8000000000001.
Definition MJS_UNDEFINED : mjs_val_t := 0x7ff8000000000002.
Definition MJS_TRUE : mjs_val_t := 0x7ff8000000000003.
Definition MJS_FALSE : mjs_val_t := 0x7ff8000000000004.

(** [struct mjs].  [globals] holds the first [global_count] slots of the
    32-slot table, in slot order; the name of a slot is NULL ([None]) when
    the [strdup] that filled it failed.  The only handler ever installed is
    [mjs_error_handler] of [mjs_engine.c], with the owning context as its
    user data, so [error_handler] records whether it is set. *)
Record mjs_t := Mjs {
  error_msg : option string;
  error_handler : bool;
  global_object : mjs_val_t;
  globals : list (option string * mjs_val_t)
}.

(** What one run of [mjs_exec] does: the value it returns, the engine
    instance it leaves, and the messages it raised through [set_error] (in
    order), each of which reaches the installed error handler. *)
Record exec_outcome := ExecOutcome {
  exec_value : mjs_val_t;
  exec_mjs : mjs_t;
  exec_raised : list string
}.

(** ** mjs_engine.h: contexts *)

Inductive js_exec_result_t :=
  | JS_EXEC_OK
  | JS_EXEC_ERROR
  | JS_EXEC_TIMEOUT
  | JS_EXEC_OUT_OF_MEMORY
  | JS_EXEC_PERMISSION_DENIED.

Record js_context_t := JsContext {
  mjs : option mjs_t;
  filename : option string;
  code : option string;
  is_running : bool;
  memory_limit : Z;
  execution_time_limit_ms : Z
}.

(** A [js_context_t *]: [None] is NULL, [Some a] the address of a heap cell. *)
Definition ctx_ptr := option nat.

Record js_app_manifest_t := Manifest {
  m_name : string;
  m_version : string;
  m_author : string;
  m_description : string;
  m_entry_point : string;
  m_permissions : string;
  m_memory_limit : Z;
  m_has_icon : bool
}.

(** ** app_manager.h, app_sandbox.c: records *)

Inductive app_state_t := APP_STATE_STOPPED | APP_STATE_RUNNING | APP_STATE_PAUSED | APP_STATE_ERROR.

Record app_info_t := AppInfo {
  app_id_of : string;
  app_name : string;
  app_version : string;
  app_author : string;
  app_entry_point : string;
  app_install_path : string;
  app_state : app_state_t;
  app_js_context : ctx_ptr;
  app_memory_usage : Z;
  app_cpu_time : Z;
  app_is_system_app : bool;
  app_permissions : Z
}.

Record sandbox_t := Sandbox {
  sb_app_id : string;
  sb_js_context : ctx_ptr;
  sb_memory_limit : Z;
  sb_time_limit : Z;
  sb_start_time : Z;
  sb_active : bool
}.

(** [memset(sandbox, 0, sizeof(sandbox_t))]. *)
Definition sandbox_zero : sandbox_t := Sandbox "" None 0 0 0 false.

(** ** The platform: what is fixed when the firmware is built and run

    - [portTICK_PERIOD_MS] comes from the FreeRTOS configuration;
    - [tick_source n] is the value of the [n]-th call of
      [xTaskGetTickCount], [random_source n] of the [n]-th [esp_random];
    - [heap_ok] is whether [malloc], [calloc] and [strdup] find memory;
    - [func_addr] and [literal_addr] are the link-time addresses of the
      native functions and of string literals;
    - [run_mjs_exec] is the evaluator [mjs_exec].  Its body, a placeholder
      pattern matcher over the script text built on [strtod] and raw buffer
      addresses, is not unfolded: every result below holds whatever value
      and engine state it produces. *)
Record platform := Platform {
  portTICK_PERIOD_MS : Z;
  tick_source : nat → Z;
  random_source : nat → Z;
  heap_ok : bool;
  func_addr : string → Z;
  literal_addr : string → Z;
  run_mjs_exec : mjs_t → string → exec_outcome
}.

(** ** The world

    [w_aborted] is set once an [ESP_ERROR_CHECK] has failed (the firmware
    calls [abort]).  [w_overrun] is set once a [strcpy] has written past the
    end of its array: C leaves what follows undefined, and the model, which
    goes on as if the array had held the text, no longer describes the
    firmware.  [w_heap] holds the live [js_context_t] cells.
    [s_installed_apps] is the used prefix of the 16-slot registry array, so
    that [s_num_installed_apps] is its length; [s_sandboxes] and
    [s_contexts] are the slots of the two 8-slot arrays.
    [s_error_callback] records whether an error callback is registered and
    [error_callback_calls] the messages it was called with. *)

Record world := World {
  w_platform : platform;
  w_aborted : bool;
  w_overrun : bool;
  (* collaborators and heap *)
  w_log : list log_entry;
  w_nvs : nvs_t;
  w_fs : fs_t;
  w_radio : radio_t;
  w_tick_reads : nat;
  w_random_reads : nat;
  w_heap : gmap nat js_context_t;
  (* mjs_engine.c *)
  engine_initialized : bool;
  s_contexts : list ctx_ptr;
  s_context_count : Z;
  s_error_callback : bool;
  error_callback_calls : list string;
  (* js_api.c *)
  js_api_initialized : bool;
  (* app_sandbox.c *)
  s_sandboxes : list sandbox_t;
  s_sandbox_count : Z;
  (* app_manager.c *)
  s_installed_apps : list app_info_t;
  s_current_app_id : string
}.

Definition s_num_installed_apps (w : world) : nat := List.length (s_installed_apps w).

(** Field updates. *)

Definition set_w_aborted (x : bool) (w : world) : world :=
  World (w_platform w) x (w_overrun w) (w_log w) (w_nvs w) (w_fs w) (w_radio w) (w_tick_reads w)
    (w_random_reads w) (w_heap w) (engine_initialized w) (s_contexts w) (s_context_count w)
    (s_error_callback w) (error_callback_calls w) (js_api_initialized w) (s_sandboxes w)
    (s_sandbox_count w) (s_installed_apps w) (s_current_app_id w).

Definition set_w_overrun (x : bool) (w : world) : world :=
  World (w_platform w) (w_aborted w) x (w_log w) (w_nvs w) (w_fs w) (w_radio w)
    (w_tick_reads w) (w_random_reads w) (w_heap w) (engine_initialized w) (s_contexts w)
    (s_context_count w) (s_error_callback w) (error_callback_calls w) (js_api_initialized w)
    (s_sandboxes w) (s_sandbox_count w) (s_installed_apps w) (s_current_app_id w).

Definition set_w_log (x : list log_entry) (w : world) : world :=
  World (w_platform w) (w_aborted w) (w_overrun w) x (w_nvs w) (w_fs w) (w_radio w) (w_tick_reads w)
    (w_random_reads w) (w_heap w) (engine_initialized w) (s_contexts w) (s_context_count w)
    (s_error_callback w) (error_callback_calls w) (js_api_initialized w) (s_sandboxes w)
    (s_sandbox_count w) (s_installed_apps w) (s_current_app_id w).

Definition set_w_nvs (x : nvs_t) (w : world) : world :=
  World (w_platform w) (w_aborted w) (w_overrun w) (w_log w) x (w_fs w) (w_radio w) (w_tick_reads w)
    (w_random_reads w) (w_heap w) (engine_initialized w) (s_contexts w) (s_context_count w)
    (s_error_callback w) (error_callback_calls w) (js_api_initialized w) (s_sandboxes w)
    (s_sandbox_count w) (s_installed_apps w) (s_current_app_id w).

Definition set_w_fs (x : fs_t) (w : world) : world :=
  World (w_platform w) (w_aborted w) (w_overrun w) (w_log w) (w_nvs w) x (w_radio w)
    (w_tick_reads w)
    (w_random_reads w) (w_heap w) (engine_initialized w) (s_contexts w) (s_context_count w)
    (s_error_callback w) (error_callback_calls w) (js_api_initialized w) (s_sandboxes w)
    (s_sandbox_count w) (s_installed_apps w) (s_current_app_id w).

Definition set_w_radio (x : radio_t) (w : world) : world :=
  World (w_platform w) (w_aborted w) (w_overrun w) (w_log w) (w_nvs w) (w_fs w) x (w_tick_reads w)
    (w_random_reads w) (w_heap w) (engine_initialized w) (s_contexts w) (s_context_count w)
    (s_error_callback w) (error_callback_calls w) (js_api_initialized w) (s_sandboxes w)
    (s_sandbox_count w) (s_installed_apps w) (s_current_app_id w).

Definition set_w_tick_reads (x : nat) (w : world) : world :=
  World (w_platform w) (w_aborted w) (w_overrun w) (w_log w) (w_nvs w) (w_fs w) (w_radio w) x
    (w_random_reads w) (w_heap w) (engine_initialized w) (s_contexts w) (s_context_count w)
    (s_error_callback w) (error_callback_calls w) (js_api_initialized w) (s_sandboxes w)
    (s_sandbox_count w) (s_installed_apps w) (s_current_app_id w).

Definition set_w_random_reads (x : nat) (w : world) : world :=
  World (w_platform w) (w_aborted w) (w_overrun w) (w_log w) (w_nvs w) (w_fs w) (w_radio w)
    (w_tick_reads w) x (w_heap w) (engine_initialized w) (s_contexts w) (s_context_count w)
    (s_error_callback w) (error_callback_calls w) (js_api_initialized w) (s_sandboxes w)
    (s_sandbox_count w) (s_installed_apps w) (s_current_app_id w).

Definition set_w_heap (x : gmap nat js_context_t) (w : world) : world :=
  World (w_platform w) (w_aborted w) (w_overrun w) (w_log w) (w_nvs w) (w_fs w) (w_radio w)
    (w_tick_reads w) (w_random_reads w) x (engine_initialized w) (s_contexts w)
    (s_context_count w) (s_error_callback w) (error_callback_calls w)
    (js_api_initialized w) (s_sandboxes w) (s_sandbox_count w) (s_installed_apps w)
    (s_current_app_id w).

Definition set_s_contexts (x : list ctx_ptr) (w : world) : world :=
  World (w_platform w) (w_aborted w) (w_overrun w) (w_log w) (w_nvs w) (w_fs w) (w_radio w)
    (w_tick_reads w) (w_random_reads w) (w_heap w) (engine_initialized w) x
    (s_context_count w) (s_error_callback w) (error_callback_calls w)
    (js_api_initialized w) (s_sandboxes w) (s_sandbox_count w) (s_installed_apps w)
    (s_current_app_id w).

Definition set_s_context_count (x : Z) (w : world) : world :=
  World (w_platform w) (w_aborted w) (w_overrun w) (w_log w) (w_nvs w) (w_fs w) (w_radio w)
    (w_tick_reads w) (w_random_reads w) (w_heap w) (engine_initialized w) (s_contexts w) x
    (s_error_callback w) (error_callback_calls w) (js_api_initialized w) (s_sandboxes w)
    (s_sandbox_count w) (s_installed_apps w) (s_current_app_id w).

Definition set_error_callback_calls (x : list string) (w : world) : world :=
  World (w_platform w) (w_aborted w) (w_overrun w) (w_log w) (w_nvs w) (w_fs w) (w_radio w)
    (w_tick_reads w) (w_random_reads w) (w_heap w) (engine_initialized w) (s_contexts w)
    (s_context_count w) (s_error_callback w) x (js_api_initialized w) (s_sandboxes w)
    (s_sandbox_count w) (s_installed_apps w) (s_current_app_id w).

Definition set_s_sandboxes (x : list sandbox_t) (w : world) : world :=
  World (w_platform w) (w_aborted w) (w_overrun w) (w_log w) (w_nvs w) (w_fs w) (w_radio w)
    (w_tick_reads w) (w_random_reads w) (w_heap w) (engine_initialized w) (s_contexts w)
    (s_context_count w) (s_error_callback w) (error_callback_calls w)
    (js_api_initialized w) x (s_sandbox_count w) (s_installed_apps w) (s_current_app_id w).

Definition set_s_sandbox_count (x : Z) (w : world) : world :=
  World (w_platform w) (w_aborted w) (w_overrun w) (w_log w) (w_nvs w) (w_fs w) (w_radio w)
    (w_tick_reads w) (w_random_reads w) (w_heap w) (engine_initialized w) (s_contexts w)
    (s_context_count w) (s_error_callback w) (error_callback_calls w)
    (js_api_initialized w) (s_sandboxes w) x (s_installed_apps w) (s_current_app_id w).

Definition set_s_installed_apps (x : list app_info_t) (w : world) : world :=
  World (w_platform w) (w_aborted w) (w_overrun w) (w_log w) (w_nvs w) (w_fs w) (w_radio w)
    (w_tick_reads w) (w_random_reads w) (w_heap w) (engine_initialized w) (s_contexts w)
    (s_context_count w) (s_error_callback w) (error_callback_calls w)
    (js_api_initialized w) (s_sandboxes w) (s_sandbox_count w) x (s_current_app_id w).

Definition set_s_current_app_id (x : string) (w : world) : world :=
  World (w_platform w) (w_aborted w) (w_overrun w) (w_log w) (w_nvs w) (w_fs w) (w_radio w)
    (w_tick_reads w) (w_random_reads w) (w_heap w) (engine_initialized w) (s_contexts w)
    (s_context_count w) (s_error_callback w) (error_callback_calls w)
    (js_api_initialized w) (s_sandboxes w) (s_sandbox_count w) (s_installed_apps w) x.

Definition set_s_error_callback (x : bool) (w : world) : world :=
  World (w_platform w) (w_aborted w) (w_overrun w) (w_log w) (w_nvs w) (w_fs w) (w_radio w)
    (w_tick_reads w)
    (w_random_reads w) (w_heap w) (engine_initialized w) (s_contexts w) (s_context_count w)
    x (error_callback_calls w) (js_api_initialized w) (s_sandboxes w) (s_sandbox_count w)
    (s_installed_apps w) (s_current_app_id w).

(** ** The state monad of the firmware *)

Definition M (A : Type) : Type := world → A * world.

#[global] Instance M_ret : MRet M := λ A (a : A) (w : world), (a, w).
#[global] Instance M_bind : MBind M :=
  λ A B (k : A → M B) (m : M A) (w : world), let '(a, w') := m w in k a w'.

Definition get_world : M world := λ w, (w, w).
Definition modify (f : world → world) : M unit := λ w, (tt, f w).

(** [ESP_LOGE], [ESP_LOGW], [ESP_LOGI]. *)
Definition esp_log (lvl : log_level) (tag fmt : string) : M unit :=
  modify (λ w, set_w_log (w_log w ++ [Log lvl tag fmt]) w).

(** [ESP_ERROR_CHECK(x)]. *)
Definition ESP_ERROR_CHECK (x : esp_err_t) : M unit :=
  if x =? ESP_OK then mret tt else modify (set_w_aborted true).

(** [strcpy(dst, src)] into an array of [size] bytes: the text stored.  A
    text that does not fit with its NUL runs past the array. *)
Definition strcpy (size : nat) (src : string) : M string :=
  λ w, (src, if (String.length src <? size)%nat then w else set_w_overrun true w).

(** [xTaskGetTickCount() * portTICK_PERIOD_MS] as a [uint32_t]. *)
Definition tick_ms : M Z :=
  λ w, let p := w_platform w in
       (wrap32 (wrap32 (tick_source p (w_tick_reads w)) * portTICK_PERIOD_MS p),
        set_w_tick_reads (S (w_tick_reads w)) w).

Definition esp_random : M Z :=
  λ w, (wrap32 (random_source (w_platform w) (w_random_reads w)),
        set_w_random_reads (S (w_random_reads w)) w).

(** *** NVS calls *)

Definition nvs_open (mode : nvs_open_mode_t) : M esp_err_t :=
  λ w, let n := w_nvs w in
       if negb (nvs_open_fault n =? ESP_OK) then (nvs_open_fault n, w)
       else match nvs_entries n, mode with
            | Some _, _ => (ESP_OK, w)
            | None, NVS_READONLY => (ESP_ERR_NVS_NOT_FOUND, w)
            | None, NVS_READWRITE => (ESP_OK, set_w_nvs (nvs_with_entries n (Some ∅)) w)
            end.

(** [nvs_get_u32]: the output cell is written only on success. *)
Definition nvs_get_u32 (key : string) : M (esp_err_t * option Z) :=
  λ w, let n := w_nvs w in
       if negb (nvs_get_fault n =? ESP_OK) then ((nvs_get_fault n, None), w)
       else match nvs_entries n ≫= (λ e, e !! key) with
            | Some v => ((ESP_OK, Some v), w)
            | None => ((ESP_ERR_NVS_NOT_FOUND, None), w)
            end.

Definition nvs_set_u32 (key : string) (v : Z) : M esp_err_t :=
  λ w, let n := w_nvs w in
       if negb (nvs_set_fault n =? ESP_OK) then (nvs_set_fault n, w)
       else (ESP_OK,
             set_w_nvs (nvs_with_entries n (Some (<[key := v]> (default ∅ (nvs_entries n))))) w).

Definition nvs_commit : M esp_err_t := λ w, (nvs_commit_fault (w_nvs w), w).

(** *** File system calls.  Parent directories are not tracked: [mkdir]
    fails on a read-only medium and on a path that exists already. *)

Definition path_exists (fs : fs_t) (p : string) : bool :=
  bool_decide (p ∈ fs_dirs fs) || bool_decide (is_Some (fs_files fs !! p)).

(** [mkdir(path, 0755) == 0]. *)
Definition mkdir (p : string) : M bool :=
  λ w, let fs := w_fs w in
       if fs_read_only fs || path_exists fs p then (false, w)
       else (true, set_w_fs (Fs ({[p]} ∪ fs_dirs fs) (fs_files fs) (fs_read_only fs)) w).

(** [fopen(path, "r")] and reading the whole stream: the content, or
    [None] for the NULL stream (no such file, or a directory). *)
Definition fopen_r (p : string) : M (option string) :=
  λ w, (if bool_decide (p ∈ fs_dirs (w_fs w)) then None else fs_files (w_fs w) !! p, w).

(** [fopen(path, "w")]: creates or truncates; [false] for the NULL stream. *)
Definition fopen_w (p : string) : M bool :=
  λ w, let fs := w_fs w in
       if fs_read_only fs || bool_decide (p ∈ fs_dirs fs) then (false, w)
       else (true, set_w_fs (Fs (fs_dirs fs) (<[p := ""]> (fs_files fs)) (fs_read_only fs)) w).

(** Appending to a stream opened for writing ([fwrite], [fprintf]). *)
Definition fappend (p : string) (data : string) : M unit :=
  modify (λ w, let fs := w_fs w in
               set_w_fs (Fs (fs_dirs fs)
                            (<[p := default "" (fs_files fs !! p) ++ data]> (fs_files fs))
                            (fs_read_only fs)) w).

(** *** The radio test double ([cc1101_transmit] of the driver) *)

Definition cc1101_transmit (data : list Z) : M esp_err_t :=
  λ w, let r := w_radio w in
       (radio_tx_result r, set_w_radio (Radio (radio_tx_calls r ++ [data]) (radio_tx_result r)) w).

(** ** app_permissions.c: the Permission Store *)

Module PermissionStore.

Definition TAG : string := "APP_PERMS".

(** [app_permissions_load(app_id, permissions)].  The second argument is
    the cell [permissions] points to ([None]: a NULL pointer); the second
    result is the content of that cell when the call returns. *)
Definition app_permissions_load (app_id : option string) (permissions : option Z)
    : M (esp_err_t * option Z) :=
  match app_id, permissions with
  | Some id, Some cell =>
      ret ← nvs_open NVS_READONLY;
      if negb (ret =? ESP_OK) then
        mret (ESP_OK, Some 0)
      else
        '(ret, got) ← nvs_get_u32 id;
        let cell := default cell got in
        if ret =? ESP_ERR_NVS_NOT_FOUND then
          mret (ESP_OK, Some 0)
        else if negb (ret =? ESP_OK) then
          esp_log LOG_ERROR TAG "Failed to load permissions for app %s: %s";;
          mret (ret, Some cell)
        else
          esp_log LOG_INFO TAG "Loaded permissions for app %s: 0x%08x";;
          mret (ESP_OK, Some cell)
  | _, _ => mret (ESP_ERR_INVALID_ARG, permissions)
  end.

Definition app_permissions_save (app_id : option string) (permissions : Z) : M esp_err_t :=
  match app_id with
  | None => mret ESP_ERR_INVALID_ARG
  | Some id =>
      ret ← nvs_open NVS_READWRITE;
      if negb (ret =? ESP_OK) then
        esp_log LOG_ERROR TAG "Failed to open NVS namespace: %s";;
        mret ret
      else
        ret ← nvs_set_u32 id permissions;
        if negb (ret =? ESP_OK) then
          esp_log LOG_ERROR TAG "Failed to save permissions for app %s: %s";;
          mret ret
        else
          ret ← nvs_commit;
          if negb (ret =? ESP_OK) then
            esp_log LOG_ERROR TAG "Failed to commit permissions for app %s: %s";;
            mret ret
          else
            esp_log LOG_INFO TAG "Saved permissions for app %s: 0x%08x";;
            mret ESP_OK
  end.

Definition app_permissions_check (app_id : option string) (required_permission : Z) : M bool :=
  match app_id with
  | None => mret false
  | Some id =>
      '(ret, cell) ← app_permissions_load app_id (Some 0);
      let app_permissions := default 0 cell in
      if negb (ret =? ESP_OK) then
        esp_log LOG_WARN TAG "Failed to load permissions for app: %s";;
        mret false
      else
        let has_permission := negb (Z.land app_permissions required_permission =? 0) in
        (if negb has_permission
         then esp_log LOG_WARN TAG "App %s denied permission 0x%08x (has: 0x%08x)"
         else mret tt);;
        mret has_permission
  end.

Definition app_permissions_grant (app_id : option string) (permission : Z) : M esp_err_t :=
  match app_id with
  | None => mret ESP_ERR_INVALID_ARG
  | Some id =>
      '(ret, cell) ← app_permissions_load app_id (Some 0);
      current_permissions ←
        (if negb (ret =? ESP_OK) then
           esp_log LOG_WARN TAG "Failed to load current permissions, starting with none";;
           mret 0
         else mret (default 0 cell));
      let current_permissions := Z.lor current_permissions permission in
      ret ← app_permissions_save app_id current_permissions;
      if negb (ret =? ESP_OK) then
        esp_log LOG_ERROR TAG "Failed to save updated permissions";;
        mret ret
      else
        esp_log LOG_INFO TAG "Granted permission 0x%08x to app %s";;
        mret ESP_OK
  end.

Definition app_permissions_revoke (app_id : option string) (permission : Z) : M esp_err_t :=
  match app_id with
  | None => mret ESP_ERR_INVALID_ARG
  | Some id =>
      '(ret, cell) ← app_permissions_load app_id (Some 0);
      if negb (ret =? ESP_OK) then
        esp_log LOG_WARN TAG "Failed to load current permissions";;
        mret ret
      else
        let current_permissions := Z.land (default 0 cell) (not32 permission) in
        ret ← app_permissions_save app_id current_permissions;
        if negb (ret =? ESP_OK) then
          esp_log LOG_ERROR TAG "Failed to save updated permissions";;
          mret ret
        else
          esp_log LOG_INFO TAG "Revoked permission 0x%08x from app %s";;
          mret ESP_OK
  end.

End PermissionStore.

(** ** mjs.c: the engine instance *)

Module Mjs.

(** [mjs_create], once [calloc] has succeeded. *)
Definition mjs_create : mjs_t := Mjs None false MJS_NULL [].

(** [return val == MJS_NULL && false;] *)
Definition mjs_is_error (val : mjs_val_t) : bool := (val =? MJS_NULL) && false.

Definition mjs_get_error_message (m : option mjs_t) : string :=
  match m with
  | Some m => match error_msg m with Some msg => msg | None => "No error" end
  | None => "Invalid mJS instance"
  end.

Definition mjs_set_error_handler (m : mjs_t) : mjs_t :=
  Mjs (error_msg m) true (global_object m) (globals m).

Definition mjs_mk_string (str_addr : Z) : mjs_val_t :=
  Z.lor 0x1000000000000000 (Z.land str_addr 0xFFFFFFFF).

Definition mjs_mk_boolean (val : bool) : mjs_val_t := if val then MJS_TRUE else MJS_FALSE.

(** [globals[i].name && strcmp(globals[i].name, name) == 0]. *)
Definition slot_named (slot_name : option string) (name : string) : bool :=
  match slot_name with
  | Some n => streq n name
  | None => false
  end.

(** The first loop of [mjs_set_global]: overwrite the first slot that
    carries [name]; [None] when no slot does. *)
Fixpoint overwrite_global (gs : list (option string * mjs_val_t)) (name : string)
    (val : mjs_val_t) : option (list (option string * mjs_val_t)) :=
  match gs with
  | [] => None
  | (n, v) :: gs' =>
      if slot_named n name then Some ((n, val) :: gs')
      else option_map (cons (n, v)) (overwrite_global gs' name val)
  end.

(** [mjs_set_global(mjs, name, val)] on an instance that is not NULL.
    [strdup_ok] tells whether the copy of the name can be allocated; the
    result of [strdup] is stored unchecked. *)
Definition mjs_set_global (strdup_ok : bool) (m : mjs_t) (name : option string)
    (val : mjs_val_t) : mjs_t :=
  match name with
  | None => m
  | Some name =>
      match overwrite_global (globals m) name val with
      | Some gs => Mjs (error_msg m) (error_handler m) (global_object m) gs
      | None =>
          if Z.of_nat (List.length (globals m)) <? 32
          then Mjs (error_msg m) (error_handler m) (global_object m)
                 (globals m ++ [(if strdup_ok then Some name else None, val)])
          else m
      end
  end.

Fixpoint lookup_global (gs : list (option string * mjs_val_t)) (name : string) : mjs_val_t :=
  match gs with
  | [] => MJS_UNDEFINED
  | (n, v) :: gs' => if slot_named n name then v else lookup_global gs' name
  end.

Definition mjs_get_global (m : mjs_t) (name : option string) : mjs_val_t :=
  match name with
  | Some name => lookup_global (globals m) name
  | None => MJS_UNDEFINED
  end.

(** [mjs_set_ffi_func]; a NULL [func] is address 0. *)
Definition mjs_set_ffi_func (strdup_ok : bool) (m : mjs_t) (name : option string) (func : Z)
    : mjs_t :=
  match name with
  | None => m
  | Some _ =>
      if func =? 0 then m
      else mjs_set_global strdup_ok m name (Z.lor 0x2000000000000000 (Z.land func 0xFFFFFFFF))
  end.

End Mjs.

(** ** mjs_engine.c, mjs_native_api.c: contexts and execution *)

Module MjsEngine.

Definition TAG : string := "MJS_ENGINE".
Definition DEFAULT_MEMORY_LIMIT : Z := 65536.
Definition DEFAULT_EXEC_TIME_LIMIT : Z := 5000.

(** Reading and writing the cell behind a context pointer.  A pointer to
    no live cell reads like NULL. *)
Definition deref (w : world) (ctx : ctx_ptr) : option js_context_t :=
  ctx ≫= (λ a, w_heap w !! a).

Definition store (a : nat) (c : js_context_t) : M unit :=
  modify (λ w, set_w_heap (<[a := c]> (w_heap w)) w).

Definition with_mjs (c : js_context_t) (m : option mjs_t) : js_context_t :=
  JsContext m (filename c) (code c) (is_running c) (memory_limit c) (execution_time_limit_ms c).

Definition with_running (c : js_context_t) (r : bool) : js_context_t :=
  JsContext (mjs c) (filename c) (code c) r (memory_limit c) (execution_time_limit_ms c).

Definition with_source (c : js_context_t) (f src : option string) : js_context_t :=
  JsContext (mjs c) f src (is_running c) (memory_limit c) (execution_time_limit_ms c).

(** [s_error_callback(msg, NULL, s_error_user_data)], when one is set. *)
Definition call_error_callback (msg : string) : M unit :=
  modify (λ w, if s_error_callback w
               then set_error_callback_calls (error_callback_calls w ++ [msg]) w
               else w).

(** [mjs_error_handler], with [a] the context passed as [user_data]. *)
Definition mjs_error_handler (a : nat) (msg : string) : M unit :=
  esp_log LOG_ERROR TAG "JavaScript error in %s: %s";;
  call_error_callback msg;;
  modify (λ w, match w_heap w !! a with
               | Some c => set_w_heap (<[a := with_running c false]> (w_heap w)) w
               | None => w
               end).

(** The index of the first free slot of [s_contexts].  In
    [mjs_engine_create_context] below, [calloc] and [mjs_create] allocate
    from the same heap: when the first finds memory so does the second. *)
Fixpoint first_free (slots : list ctx_ptr) : option nat :=
  match slots with
  | [] => None
  | None :: _ => Some 0%nat
  | Some _ :: rest => option_map S (first_free rest)
  end.

Definition mjs_engine_create_context (memory_limit : Z) : M ctx_ptr :=
  w ← get_world;
  if negb (engine_initialized w) then mret None
  else if 8 <=? s_context_count w then
    esp_log LOG_ERROR TAG "Maximum number of contexts reached";; mret None
  else match first_free (s_contexts w) with
  | None => esp_log LOG_ERROR TAG "No free context slots";; mret None
  | Some slot =>
      if negb (heap_ok (w_platform w)) then
        esp_log LOG_ERROR TAG "Failed to allocate context";; mret None
      else
        let a := fresh (dom (w_heap w)) in
        let ctx :=
          JsContext (Some (Mjs.mjs_set_error_handler Mjs.mjs_create)) None None false
            (if 0 <? memory_limit then memory_limit else DEFAULT_MEMORY_LIMIT)
            DEFAULT_EXEC_TIME_LIMIT in
        store a ctx;;
        modify (λ w, set_s_context_count ((s_context_count w + 1) mod 256)
                       (set_s_contexts (<[slot := Some a]> (s_contexts w)) w));;
        esp_log LOG_INFO TAG "Created JavaScript context (slot %d)";;
        mret (Some a)
  end.

(** The loop of [mjs_engine_destroy_context] that clears the slot of [a]. *)
Fixpoint clear_slot (slots : list ctx_ptr) (a : nat) : option (list ctx_ptr) :=
  match slots with
  | [] => None
  | s :: rest =>
      if bool_decide (s = Some a) then Some (None :: rest)
      else option_map (cons s) (clear_slot rest a)
  end.

Definition mjs_engine_destroy_context (ctx : ctx_ptr) : M unit :=
  w ← get_world;
  match ctx with
  | Some a =>
      if negb (engine_initialized w) then mret tt
      else
        modify (λ w, match clear_slot (s_contexts w) a with
                     | Some slots =>
                         set_s_context_count ((s_context_count w - 1) mod 256)
                           (set_s_contexts slots w)
                     | None => w
                     end);;
        modify (λ w, set_w_heap (delete a (w_heap w)) w);;
        esp_log LOG_INFO TAG "Destroyed JavaScript context"
  | None => mret tt
  end.

Definition mjs_engine_load_file (ctx : ctx_ptr) (file : option string) : M esp_err_t :=
  w ← get_world;
  match ctx, deref w ctx, file with
  | Some a, Some c, Some path =>
      esp_log LOG_INFO TAG "Loading JavaScript file: %s";;
      content ← fopen_r path;
      match content with
      | None => esp_log LOG_ERROR TAG "Failed to open file: %s";; mret ESP_ERR_NOT_FOUND
      | Some text =>
          let file_size := Z.of_nat (String.length text) in
          if (file_size <=? 0) || (memory_limit c / 2 <? file_size) then
            esp_log LOG_ERROR TAG "File too large or invalid: %ld bytes";;
            mret ESP_ERR_INVALID_SIZE
          else if negb (heap_ok (w_platform w)) then
            esp_log LOG_ERROR TAG "Failed to allocate memory for file";;
            mret ESP_ERR_NO_MEM
          else
            store a (with_source c (Some path) (Some text));;
            esp_log LOG_INFO TAG "Loaded JavaScript file: %s (%ld bytes)";;
            mret ESP_OK
      end
  | _, _, _ => mret ESP_ERR_INVALID_ARG
  end.

(** The handler calls made while [mjs_exec] runs: one per raised message,
    if a handler is installed in the instance. *)
Fixpoint raise_all (handler : bool) (a : nat) (msgs : list string) : M unit :=
  match msgs with
  | [] => mret tt
  | msg :: rest =>
      (if handler then mjs_error_handler a msg else mret tt);;
      raise_all handler a rest
  end.

(** [mjs_exec(ctx->mjs, ctx->code, NULL)] on the context at [a]. *)
Definition mjs_exec (a : nat) (m : mjs_t) (src : string) : M mjs_val_t :=
  w ← get_world;
  let out := run_mjs_exec (w_platform w) m src in
  raise_all (error_handler m) a (exec_raised out);;
  modify (λ w, match w_heap w !! a with
               | Some c => set_w_heap (<[a := with_mjs c (Some (exec_mjs out))]> (w_heap w)) w
               | None => w
               end);;
  mret (exec_value out).

Definition set_running (a : nat) (r : bool) : M unit :=
  modify (λ w, match w_heap w !! a with
               | Some c => set_w_heap (<[a := with_running c r]> (w_heap w)) w
               | None => w
               end).

Definition mjs_engine_execute (ctx : ctx_ptr) : M js_exec_result_t :=
  w ← get_world;
  match ctx, deref w ctx with
  | Some a, Some c =>
      match code c, mjs c with
      | Some src, Some m =>
          esp_log LOG_INFO TAG "Executing JavaScript: %s";;
          set_running a true;;
          start_time ← tick_ms;
          result ← mjs_exec a m src;
          now ← tick_ms;
          let exec_time := wrap32 (now - start_time) in
          set_running a false;;
          if Mjs.mjs_is_error result then
            w ← get_world;
            let error_msg := Mjs.mjs_get_error_message (deref w ctx ≫= mjs) in
            esp_log LOG_ERROR TAG "JavaScript execution error: %s";;
            call_error_callback error_msg;;
            mret JS_EXEC_ERROR
          else if execution_time_limit_ms c <? exec_time then
            esp_log LOG_WARN TAG "JavaScript execution timeout: %u ms";;
            mret JS_EXEC_TIMEOUT
          else
            esp_log LOG_INFO TAG "JavaScript execution completed in %u ms";;
            mret JS_EXEC_OK
      | _, _ => mret JS_EXEC_ERROR
      end
  | _, _ => mret JS_EXEC_ERROR
  end.

Definition mjs_engine_stop (ctx : ctx_ptr) : M esp_err_t :=
  match ctx with
  | None => mret ESP_ERR_INVALID_ARG
  | Some a =>
      set_running a false;;
      esp_log LOG_INFO TAG "Stopped JavaScript execution";;
      mret ESP_OK
  end.

(** [mjs_engine_check_permission] of [mjs_native_api.c]. *)
Definition mjs_engine_check_permission (ctx : ctx_ptr) (permission : option string) : M bool :=
  match ctx, permission with
  | Some _, Some _ => mret true
  | _, _ => mret false
  end.

(** [mjs_engine_load_string(ctx, code, filename)].  The two [strdup]
    results are stored unchecked: without memory they are NULL. *)
Definition mjs_engine_load_string (ctx : ctx_ptr) (source file : option string) : M esp_err_t :=
  w ← get_world;
  match ctx, deref w ctx, source with
  | Some a, Some c, Some text =>
      let code_len := Z.of_nat (String.length text) in
      if memory_limit c / 2 <? code_len then
        esp_log LOG_ERROR TAG "Code too large: %zu bytes";;
        mret ESP_ERR_INVALID_SIZE
      else
        let strdup (s : string) := if heap_ok (w_platform w) then Some s else None in
        store a (with_source c (strdup (default "string" file)) (strdup text));;
        esp_log LOG_INFO TAG "Loaded JavaScript code (%zu bytes)";;
        mret ESP_OK
  | _, _, _ => mret ESP_ERR_INVALID_ARG
  end.

Definition mjs_engine_is_running (ctx : ctx_ptr) : M bool :=
  w ← get_world;
  mret (default false (is_running <$> deref w ctx)).

(** [mjs_engine_set_error_callback(callback, user_data)]; [callback]
    tells whether the pointer is non-NULL. *)
Definition mjs_engine_set_error_callback (callback : bool) : M unit :=
  modify (set_s_error_callback callback).

End MjsEngine.

(** ** js_api.c, js_rf_api.c and the other bridge files *)

Module JsApi.

Definition TAG : string := "JS_API".

(** The [mjs_set_ffi_func] calls of each [js_*_api_register], in order:
    script name and C function. *)
Definition rf_functions : list (string * string) :=
  [ ("rf.setFrequency", "js_rf_set_frequency"); ("rf.getFrequency", "js_rf_get_frequency");
    ("rf.setModulation", "js_rf_set_modulation"); ("rf.startReceive", "js_rf_start_receive");
    ("rf.stopReceive", "js_rf_stop_receive"); ("rf.transmit", "js_rf_transmit");
    ("rf.readSignal", "js_rf_read_signal"); ("rf.getRssi", "js_rf_get_rssi");
    ("rf.isPresent", "js_rf_is_present"); ("rf.loadPreset", "js_rf_load_preset") ].

Definition gpio_functions : list (string * string) :=
  [ ("gpio.setup", "js_gpio_setup"); ("gpio.write", "js_gpio_write");
    ("gpio.read", "js_gpio_read") ].

Definition ui_functions : list (string * string) :=
  [ ("ui.createScreen", "js_ui_create_screen"); ("ui.createButton", "js_ui_create_button");
    ("ui.createLabel", "js_ui_create_label");
    ("ui.showNotification", "js_ui_show_notification") ].

Definition storage_functions : list (string * string) :=
  [ ("storage.writeText", "js_storage_write_text"); ("storage.readText", "js_storage_read_text");
    ("storage.setConfig", "js_storage_set_config"); ("storage.getConfig", "js_storage_get_config");
    ("storage.deleteFile", "js_storage_delete_file") ].

Definition notification_functions : list (string * string) :=
  [ ("notify.show", "js_notify_show"); ("notify.led", "js_notify_led");
    ("notify.beep", "js_notify_beep"); ("notify.vibrate", "js_notify_vibrate");
    ("notify.flash", "js_notify_flash") ].

Definition set_ffi_funcs (p : platform) (fs : list (string * string)) (m : mjs_t) : mjs_t :=
  fold_left (λ m '(name, cfun),
               Mjs.mjs_set_ffi_func (heap_ok p) m (Some name) (func_addr p cfun)) fs m.

(** The common shape of [js_rf_api_register], [js_gpio_api_register], ... *)
Definition api_register (tag done : string) (fs : list (string * string)) (ctx : ctx_ptr)
    : M esp_err_t :=
  w ← get_world;
  match ctx, MjsEngine.deref w ctx with
  | Some a, Some c =>
      match mjs c with
      | Some m =>
          MjsEngine.store a (MjsEngine.with_mjs c (Some (set_ffi_funcs (w_platform w) fs m)));;
          esp_log LOG_INFO tag done;;
          mret ESP_OK
      | None => mret ESP_ERR_INVALID_ARG
      end
  | _, _ => mret ESP_ERR_INVALID_ARG
  end.

Definition js_rf_api_register :=
  api_register "JS_RF_API" "RF API functions registered" rf_functions.
Definition js_gpio_api_register :=
  api_register "JS_GPIO_API" "GPIO API functions registered" gpio_functions.
Definition js_ui_api_register :=
  api_register "JS_UI_API" "UI API functions registered" ui_functions.
Definition js_storage_api_register :=
  api_register "JS_STORAGE_API" "Storage API functions registered" storage_functions.
Definition js_notification_api_register :=
  api_register "JS_NOTIFY_API" "Notification API functions registered"
    notification_functions.

Definition js_api_register_all (ctx : ctx_ptr) : M esp_err_t :=
  w ← get_world;
  match ctx with
  | Some _ =>
      if negb (js_api_initialized w) then mret ESP_ERR_INVALID_ARG
      else
        esp_log LOG_INFO TAG "Registering all API functions";;
        (js_rf_api_register ctx ≫= ESP_ERROR_CHECK);;
        (js_gpio_api_register ctx ≫= ESP_ERROR_CHECK);;
        (js_ui_api_register ctx ≫= ESP_ERROR_CHECK);;
        (js_storage_api_register ctx ≫= ESP_ERROR_CHECK);;
        (js_notification_api_register ctx ≫= ESP_ERROR_CHECK);;
        esp_log LOG_INFO TAG "All API functions registered";;
        mret ESP_OK
  | None => mret ESP_ERR_INVALID_ARG
  end.

(** [js_make_error(mjs, message)]: the string value built on the address
    of the message. *)
Definition js_make_error (p : platform) (m : option mjs_t) (message : option string) : mjs_val_t :=
  match m, message with
  | Some _, Some msg => Mjs.mjs_mk_string (literal_addr p msg)
  | _, _ => MJS_NULL
  end.

(** [js_rf_transmit], the native function behind [rf.transmit]. *)
Definition test_data : list Z := [0x12; 0x34; 0x56; 0x78; 0xAB; 0xCD; 0xEF].

Definition js_rf_transmit (m : option mjs_t) : M mjs_val_t :=
  w ← get_world;
  ret ← cc1101_transmit test_data;
  if negb (ret =? ESP_OK) then
    mret (js_make_error (w_platform w) m (Some "Failed to transmit data"))
  else
    esp_log LOG_INFO "JS_RF_API" "Transmitted %d bytes";;
    mret MJS_UNDEFINED.

(** [js_get_string_arg(mjs, arg_index, buffer, buffer_size)]: the status
    and the text left in the buffer.  [buffer] tells whether the pointer
    is non-NULL. *)
Definition js_get_string_arg (m : option mjs_t) (arg_index : Z) (buffer : bool)
    (buffer_size : nat) : esp_err_t * option string :=
  match m with
  | Some _ =>
      if negb buffer || (buffer_size =? 0)%nat then (ESP_ERR_INVALID_ARG, None)
      else (ESP_OK, Some (snprintf buffer_size ("arg_" ++ pretty arg_index)))
  | None => (ESP_ERR_INVALID_ARG, None)
  end.

(** [js_get_number_arg(mjs, arg_index, value)]: the status and the number
    stored, [(double)arg_index], an integer. *)
Definition js_get_number_arg (m : option mjs_t) (arg_index : Z) (value : bool)
    : esp_err_t * option Z :=
  match m with
  | Some _ => if negb value then (ESP_ERR_INVALID_ARG, None) else (ESP_OK, Some arg_index)
  | None => (ESP_ERR_INVALID_ARG, None)
  end.

(** [js_get_bool_arg(mjs, arg_index, value)]. *)
Definition js_get_bool_arg (m : option mjs_t) (arg_index : Z) (value : bool)
    : esp_err_t * option bool :=
  match m with
  | Some _ =>
      if negb value then (ESP_ERR_INVALID_ARG, None)
      else (ESP_OK, Some (Z.rem arg_index 2 =? 0))
  | None => (ESP_ERR_INVALID_ARG, None)
  end.

(** The entry points of the radio driver that the bridge calls to tune the
    radio ([cc1101.c], [cc1101_config.c]). *)
Record cc1101_driver := Cc1101Driver {
  cc1101_set_frequency : Z → M esp_err_t;
  cc1101_set_modulation : Z → M esp_err_t;
  cc1101_load_preset_ask_ook : Z → M esp_err_t;
  cc1101_load_preset_gfsk : Z → M esp_err_t;
  cc1101_load_preset_msk : Z → M esp_err_t }.

Definition CC1101_MODULATION_2FSK : Z := 0.
Definition CC1101_MODULATION_GFSK : Z := 1.
Definition CC1101_MODULATION_ASK_OOK : Z := 3.
Definition CC1101_MODULATION_MSK : Z := 7.
Definition CC1101_FREQ_315MHZ : Z := 315000000.
Definition CC1101_FREQ_433MHZ : Z := 433920000.

(** [js_rf_set_frequency], the native function behind [rf.setFrequency]. *)
Definition js_rf_set_frequency (drv : cc1101_driver) (m : option mjs_t) : M mjs_val_t :=
  w ← get_world;
  match js_get_number_arg m 0 true with
  | (_, Some frequency) =>
      ret ← cc1101_set_frequency drv (wrap32 frequency);
      if negb (ret =? ESP_OK) then
        mret (js_make_error (w_platform w) m (Some "Failed to set frequency"))
      else
        esp_log LOG_INFO "JS_RF_API" "Set frequency to %.0f Hz";;
        mret MJS_UNDEFINED
  | (_, None) => mret (js_make_error (w_platform w) m (Some "Invalid frequency parameter"))
  end.

(** [js_rf_set_modulation], the native function behind [rf.setModulation]. *)
Definition js_rf_set_modulation (drv : cc1101_driver) (m : option mjs_t) : M mjs_val_t :=
  w ← get_world;
  let error (msg : string) := mret (js_make_error (w_platform w) m (Some msg)) in
  match js_get_string_arg m 0 true 16 with
  | (_, Some modulation_str) =>
      let set (modulation : Z) : M mjs_val_t :=
        ret ← cc1101_set_modulation drv modulation;
        if negb (ret =? ESP_OK) then error "Failed to set modulation"
        else
          esp_log LOG_INFO "JS_RF_API" "Set modulation to %s";;
          mret MJS_UNDEFINED in
      if streq modulation_str "ASK_OOK" then set CC1101_MODULATION_ASK_OOK
      else if streq modulation_str "GFSK" then set CC1101_MODULATION_GFSK
      else if streq modulation_str "MSK" then set CC1101_MODULATION_MSK
      else if streq modulation_str "2FSK" then set CC1101_MODULATION_2FSK
      else error "Unsupported modulation type"
  | (_, None) => error "Invalid modulation parameter"
  end.

(** [js_rf_load_preset], the native function behind [rf.loadPreset]. *)
Definition js_rf_load_preset (drv : cc1101_driver) (m : option mjs_t) : M mjs_val_t :=
  w ← get_world;
  let error (msg : string) := mret (js_make_error (w_platform w) m (Some msg)) in
  match js_get_string_arg m 0 true 32 with
  | (_, Some preset_name) =>
      let load (preset : M esp_err_t) : M mjs_val_t :=
        ret ← preset;
        if negb (ret =? ESP_OK) then error "Failed to load preset"
        else
          esp_log LOG_INFO "JS_RF_API" "Loaded preset: %s";;
          mret MJS_UNDEFINED in
      if streq preset_name "ask_ook_433" then
        load (cc1101_load_preset_ask_ook drv CC1101_FREQ_433MHZ)
      else if streq preset_name "gfsk_433" then
        load (cc1101_load_preset_gfsk drv CC1101_FREQ_433MHZ)
      else if streq preset_name "msk_433" then
        load (cc1101_load_preset_msk drv CC1101_FREQ_433MHZ)
      else if streq preset_name "ask_ook_315" then
        load (cc1101_load_preset_ask_ook drv CC1101_FREQ_315MHZ)
      else if streq preset_name "gfsk_315" then
        load (cc1101_load_preset_gfsk drv CC1101_FREQ_315MHZ)
      else error "Unknown preset"
  | (_, None) => error "Invalid preset parameter"
  end.

End JsApi.

(** ** cc1101.c: the frequency registers *)

Module CC1101.

Definition wrap64 (z : Z) : Z := z mod 2 ^ 64.

(** [cc1101_calc_freq_regs(frequency, &freq2, &freq1, &freq0)]: the three
    bytes stored through the pointers. *)
Definition cc1101_calc_freq_regs (frequency : Z) : Z * Z * Z :=
  let freq_word := wrap32 (wrap64 (frequency * 65536) / 26000000) in
  (Z.land (Z.shiftr freq_word 16) 0xFF,
   Z.land (Z.shiftr freq_word 8) 0xFF,
   Z.land freq_word 0xFF).

End CC1101.

(** ** app_sandbox.c *)

Module AppSandbox.

Definition TAG : string := "APP_SANDBOX".

(** [find_sandbox]: the index of the first active slot of [app_id]. *)
Fixpoint find_sandbox_in (slots : list sandbox_t) (app_id : string) : option nat :=
  match slots with
  | [] => None
  | s :: rest =>
      if sb_active s && streq (sb_app_id s) app_id then Some 0%nat
      else option_map S (find_sandbox_in rest app_id)
  end.

Definition find_sandbox (w : world) (app_id : string) : option nat :=
  find_sandbox_in (s_sandboxes w) app_id.

(** The free-slot search of [app_sandbox_create]. *)
Fixpoint free_slot (slots : list sandbox_t) : option nat :=
  match slots with
  | [] => None
  | s :: rest => if negb (sb_active s) then Some 0%nat else option_map S (free_slot rest)
  end.

(** [app_sandbox_create(app_id, context)].  [context] tells whether the
    output pointer is non-NULL; the second result is the context written
    through it, if any. *)
Definition app_sandbox_create (app_id : option string) (context : bool)
    : M (esp_err_t * option ctx_ptr) :=
  match app_id, context with
  | Some id, true =>
      esp_log LOG_INFO TAG "Creating sandbox for app: %s";;
      w ← get_world;
      match free_slot (s_sandboxes w) with
      | None =>
          esp_log LOG_ERROR TAG "No free sandbox slots";;
          mret (ESP_ERR_NO_MEM, None)
      | Some slot =>
          js_ctx ← MjsEngine.mjs_engine_create_context 65536;
          match js_ctx with
          | None =>
              esp_log LOG_ERROR TAG "Failed to create JavaScript context";;
              mret (ESP_ERR_NO_MEM, None)
          | Some _ =>
              ret ← JsApi.js_api_register_all js_ctx;
              if negb (ret =? ESP_OK) then
                MjsEngine.mjs_engine_destroy_context js_ctx;;
                mret (ret, None)
              else
                app_id ← strcpy 32 id;
                start_time ← tick_ms;
                modify (λ w,
                  set_s_sandbox_count (s_sandbox_count w + 1)
                    (set_s_sandboxes
                       (<[slot := Sandbox app_id js_ctx 65536 5000 start_time true]>
                          (s_sandboxes w))
                       w));;
                esp_log LOG_INFO TAG "Sandbox created for app: %s";;
                mret (ESP_OK, Some js_ctx)
          end
      end
  | _, _ => mret (ESP_ERR_INVALID_ARG, None)
  end.

Definition app_sandbox_destroy (app_id : option string) : M esp_err_t :=
  match app_id with
  | None => mret ESP_ERR_INVALID_ARG
  | Some id =>
      esp_log LOG_INFO TAG "Destroying sandbox for app: %s";;
      w ← get_world;
      match find_sandbox w id with
      | None =>
          esp_log LOG_WARN TAG "Sandbox not found for app: %s";;
          mret ESP_ERR_NOT_FOUND
      | Some slot =>
          match s_sandboxes w !! slot ≫= sb_js_context with
          | Some a => MjsEngine.mjs_engine_destroy_context (Some a)
          | None => mret tt
          end;;
          modify (λ w,
            set_s_sandbox_count (s_sandbox_count w - 1)
              (set_s_sandboxes (<[slot := sandbox_zero]> (s_sandboxes w)) w));;
          esp_log LOG_INFO TAG "Sandbox destroyed for app: %s";;
          mret ESP_OK
      end
  end.

Definition with_limits (s : sandbox_t) (memory_limit time_limit : Z) : sandbox_t :=
  Sandbox (sb_app_id s) (sb_js_context s) memory_limit time_limit (sb_start_time s)
    (sb_active s).

Definition app_sandbox_set_limits (app_id : option string) (memory_limit time_limit : Z)
    : M esp_err_t :=
  match app_id with
  | None => mret ESP_ERR_INVALID_ARG
  | Some id =>
      w ← get_world;
      match find_sandbox w id with
      | None => mret ESP_ERR_NOT_FOUND
      | Some slot =>
          modify (λ w,
            set_s_sandboxes
              (alter (λ s, with_limits s memory_limit time_limit) slot (s_sandboxes w)) w);;
          esp_log LOG_INFO TAG "Updated limits for app %s: memory=%u, time=%u";;
          mret ESP_OK
      end
  end.

End AppSandbox.

(** ** mjs_native_api.c: the manifest reader *)

Module ManifestLoader.

Definition DQUOTE : ascii := chr 34.
Definition COLON : ascii := chr 58.

(** [fgets(line, 256, file)] until end of file: a line ends after its LF
    or when 255 characters have been stored.  [room] is the space left in
    the buffer, [cur] the characters stored so far, last first. *)
Fixpoint fgets_lines (room : nat) (cur : list ascii) (s : list ascii) : list (list ascii) :=
  match s with
  | [] => match cur with [] => [] | _ => [rev cur] end
  | c :: s' =>
      if ascii_eqb c LF || Nat.leb room 1
      then rev (c :: cur) :: fgets_lines 255 [] s'
      else fgets_lines (Nat.pred room) (c :: cur) s'
  end.

(** [strstr(s, needle)] for a one-character needle: the text before the
    first occurrence and the text after it. *)
Fixpoint find_char (c : ascii) (s : list ascii) : option (list ascii * list ascii) :=
  match s with
  | [] => None
  | x :: s' =>
      if ascii_eqb x c then Some ([], s')
      else match find_char c s' with
           | Some (before, after) => Some (x :: before, after)
           | None => None
           end
  end.

Definition isdigit (c : ascii) : bool :=
  let n := nat_of_ascii c in Nat.leb 48 n && Nat.leb n 57.

(** [atoi] on a text that starts with a digit: the value of the leading
    run of decimal digits.  C defines the result only when that value fits
    an [int]; a larger one is kept as it is here and cut to 32 bits by the
    assignment to [memory_limit]. *)
Fixpoint atoi_from (acc : Z) (s : list ascii) : Z :=
  match s with
  | c :: s' => if isdigit c then atoi_from (10 * acc + (Z.of_nat (nat_of_ascii c) - 48)) s' else acc
  | [] => acc
  end.

Definition atoi (s : list ascii) : Z := atoi_from 0 s.

(** [strncpy(dst, src, sizeof(dst) - 1)] into a zeroed array of [size]. *)
Definition strncpy_field (size : nat) (src : list ascii) : string := cstr (take (size - 1) src).

Definition manifest_zero : js_app_manifest_t := Manifest "" "" "" "" "" "" 0 false.

Definition set_string_field (key : string) (value : list ascii) (m : js_app_manifest_t)
    : js_app_manifest_t :=
  if streq key "name" then
    Manifest (strncpy_field 32 value) (m_version m) (m_author m) (m_description m)
      (m_entry_point m) (m_permissions m) (m_memory_limit m) (m_has_icon m)
  else if streq key "version" then
    Manifest (m_name m) (strncpy_field 16 value) (m_author m) (m_description m)
      (m_entry_point m) (m_permissions m) (m_memory_limit m) (m_has_icon m)
  else if streq key "author" then
    Manifest (m_name m) (m_version m) (strncpy_field 32 value) (m_description m)
      (m_entry_point m) (m_permissions m) (m_memory_limit m) (m_has_icon m)
  else if streq key "description" then
    Manifest (m_name m) (m_version m) (m_author m) (strncpy_field 128 value)
      (m_entry_point m) (m_permissions m) (m_memory_limit m) (m_has_icon m)
  else if streq key "entry_point" then
    Manifest (m_name m) (m_version m) (m_author m) (m_description m)
      (strncpy_field 64 value) (m_permissions m) (m_memory_limit m) (m_has_icon m)
  else if streq key "permissions" then
    Manifest (m_name m) (m_version m) (m_author m) (m_description m)
      (m_entry_point m) (strncpy_field 256 value) (m_memory_limit m) (m_has_icon m)
  else m.

Definition set_memory_limit (v : Z) (m : js_app_manifest_t) : js_app_manifest_t :=
  Manifest (m_name m) (m_version m) (m_author m) (m_description m)
    (m_entry_point m) (m_permissions m) v (m_has_icon m).

Definition set_has_icon (m : js_app_manifest_t) : js_app_manifest_t :=
  Manifest (m_name m) (m_version m) (m_author m) (m_description m)
    (m_entry_point m) (m_permissions m) (m_memory_limit m) true.

Definition set_name (v : string) (m : js_app_manifest_t) : js_app_manifest_t :=
  Manifest v (m_version m) (m_author m) (m_description m)
    (m_entry_point m) (m_permissions m) (m_memory_limit m) (m_has_icon m).

Definition set_version (v : string) (m : js_app_manifest_t) : js_app_manifest_t :=
  Manifest (m_name m) v (m_author m) (m_description m)
    (m_entry_point m) (m_permissions m) (m_memory_limit m) (m_has_icon m).

(** The body of the [while (fgets(...))] loop. *)
Definition parse_line (line : list ascii) (m : js_app_manifest_t) : js_app_manifest_t :=
  match find_char DQUOTE line with
  | None => m
  | Some (_, key_start) =>
      match find_char DQUOTE key_start with
      | None => m
      | Some (key, after_key) =>
          match find_char COLON after_key with
          | None => m
          | Some (_, value_start) =>
              let value_start := AppPermissions.skip_leading value_start in
              match value_start with
              | [] => m
              | c :: rest =>
                  if ascii_eqb c DQUOTE then
                    match find_char DQUOTE rest with
                    | Some (value, _) => set_string_field (cstr key) value m
                    | None => m
                    end
                  else if isdigit c then
                    if streq (cstr key) "memory_limit"
                    then set_memory_limit (wrap32 (atoi value_start)) m else m
                  else if streq (cstr (take 4 value_start)) "true" then
                    if streq (cstr key) "has_icon" then set_has_icon m else m
                  else m
              end
          end
      end
  end.

Definition apply_defaults (m : js_app_manifest_t) : js_app_manifest_t :=
  let m := if (String.length (m_name m) =? 0)%nat then set_name "Unknown App" m else m in
  let m := if (String.length (m_version m) =? 0)%nat then set_version "1.0.0" m else m in
  if m_memory_limit m =? 0 then set_memory_limit MjsEngine.DEFAULT_MEMORY_LIMIT m else m.

(** [mjs_engine_load_manifest(manifest_path, manifest)]; [manifest] tells
    whether the output pointer is non-NULL. *)
Definition mjs_engine_load_manifest (manifest_path : option string) (manifest : bool)
    : M (esp_err_t * option js_app_manifest_t) :=
  match manifest_path, manifest with
  | Some path, true =>
      esp_log LOG_INFO "MJS_API" "Loading app manifest: %s";;
      content ← fopen_r path;
      match content with
      | None =>
          esp_log LOG_ERROR "MJS_API" "Failed to open manifest file: %s";;
          mret (ESP_ERR_NOT_FOUND, None)
      | Some text =>
          (* the line is used as a C string: up to its first NUL *)
          let m := fold_left (λ m line, parse_line (until_nul line) m)
                     (fgets_lines 255 [] (chars text)) manifest_zero in
          esp_log LOG_INFO "MJS_API" "Loaded manifest: %s v%s by %s";;
          mret (ESP_OK, Some (apply_defaults m))
      end
  | _, _ => mret (ESP_ERR_INVALID_ARG, None)
  end.

End ManifestLoader.

(** ** app_installer.c *)

Module AppInstaller.

Definition TAG : string := "APP_INSTALLER".

Definition dq : string := String (chr 34) EmptyString.
Definition nl : string := String LF EmptyString.

(** One [fprintf] of the manifest: the quoted key, a colon, the quoted
    value, then [tail] and a newline. *)
Definition manifest_line (key value tail : string) : string :=
  "  " ++ dq ++ key ++ dq ++ ": " ++ dq ++ value ++ dq ++ tail ++ nl.

Definition app_installer_extract_package (package_path extract_path : option string)
    : M esp_err_t :=
  match package_path, extract_path with
  | Some package, Some extract =>
      esp_log LOG_INFO TAG "Extracting package %s to %s";;
      made ← mkdir extract;
      if negb made then
        esp_log LOG_ERROR TAG "Failed to create extraction directory";;
        mret ESP_FAIL
      else
        src ← fopen_r package;
        match src with
        | None =>
            esp_log LOG_ERROR TAG "Failed to open package file";;
            mret ESP_ERR_NOT_FOUND
        | Some _ =>
            let dst_path := snprintf 256 (extract ++ "/index.js") in
            dst ← fopen_w dst_path;
            if negb dst then
              esp_log LOG_ERROR TAG "Failed to create destination file";;
              mret ESP_FAIL
            else
              (* the copy loop reads the package as it is now *)
              content ← fopen_r package;
              fappend dst_path (default "" content);;
              let dst_path := snprintf 256 (extract ++ "/manifest.json") in
              manifest ← fopen_w dst_path;
              (if (manifest : bool) then
                 fappend dst_path ("{" ++ nl);;
                 fappend dst_path (manifest_line "name" "Sample App" ",");;
                 fappend dst_path (manifest_line "version" "1.0.0" ",");;
                 fappend dst_path (manifest_line "author" "Unknown" ",");;
                 fappend dst_path (manifest_line "entry_point" "index.js" ",");;
                 fappend dst_path (manifest_line "permissions" "rf.receive,ui.create" "");;
                 fappend dst_path ("}" ++ nl)
               else (mret tt : M unit));;
              esp_log LOG_INFO TAG "Package extracted successfully";;
              mret ESP_OK
        end
  | _, _ => mret ESP_ERR_INVALID_ARG
  end.

(** [app_installer_validate_manifest(manifest_path)]. *)
Definition app_installer_validate_manifest (manifest_path : option string) : M esp_err_t :=
  match manifest_path with
  | Some path =>
      file ← fopen_r path;
      match file with
      | None =>
          esp_log LOG_ERROR TAG "Manifest file not found: %s";;
          mret ESP_ERR_NOT_FOUND
      | Some text =>
          (* fread(buffer, 1, sizeof(buffer) - 1, file) *)
          let read := take 1023 (chars text) in
          if (List.length read =? 0)%nat then
            esp_log LOG_ERROR TAG "Empty manifest file";;
            mret ESP_FAIL
          else
            let buffer := until_nul read in
            if negb (strstr_in buffer (chars (dq ++ "name" ++ dq)))
               || negb (strstr_in buffer (chars (dq ++ "version" ++ dq)))
               || negb (strstr_in buffer (chars (dq ++ "entry_point" ++ dq)))
            then
              esp_log LOG_ERROR TAG "Invalid manifest - missing required fields";;
              mret ESP_FAIL
            else
              esp_log LOG_INFO TAG "Manifest validation passed";;
              mret ESP_OK
      end
  | None => mret ESP_ERR_INVALID_ARG
  end.

End AppInstaller.

(** ** app_manager.c *)

Module AppManager.

(** The registry mutex [s_app_mutex] is taken and given back inside every
    function below; in this sequential model that leaves no trace. *)

Definition TAG : string := "APP_MGR".
Definition MAX_APP_PATH_LEN : nat := 128.

(** [printf("%08x", v)] for a [uint32_t]. *)
Definition hex_digit (d : Z) : ascii :=
  if d <? 10 then chr (Z.to_nat (48 + d)) else chr (Z.to_nat (87 + d)).

Definition hex8 (v : Z) : string :=
  cstr (map (λ k, hex_digit (Z.land (Z.shiftr v (4 * k)) 0xF)) [7; 6; 5; 4; 3; 2; 1; 0]).

(** The lookup loop shared by [app_manager_start_app] and
    [app_manager_check_permission]: the first entry whose id is [app_id]. *)
Fixpoint find_app (apps : list app_info_t) (app_id : string) : option (nat * app_info_t) :=
  match apps with
  | [] => None
  | a :: rest =>
      if streq (app_id_of a) app_id then Some (0%nat, a)
      else match find_app rest app_id with
           | Some (i, b) => Some (S i, b)
           | None => None
           end
  end.

Definition with_js_context (a : app_info_t) (c : ctx_ptr) : app_info_t :=
  AppInfo (app_id_of a) (app_name a) (app_version a) (app_author a) (app_entry_point a)
    (app_install_path a) (app_state a) c (app_memory_usage a) (app_cpu_time a)
    (app_is_system_app a) (app_permissions a).

Definition with_state (a : app_info_t) (st : app_state_t) : app_info_t :=
  AppInfo (app_id_of a) (app_name a) (app_version a) (app_author a) (app_entry_point a)
    (app_install_path a) st (app_js_context a) (app_memory_usage a) (app_cpu_time a)
    (app_is_system_app a) (app_permissions a).

(** An update through the pointer [app = &s_installed_apps[i]]. *)
Definition update_app (i : nat) (f : app_info_t → app_info_t) : M unit :=
  modify (λ w, set_s_installed_apps (alter f i (s_installed_apps w)) w).

(** [app_permissions_parse_string] as called from the registry, with the
    log lines of the call. *)
Definition parse_permissions (permissions_str : string) : M Z :=
  w ← get_world;
  if heap_ok (w_platform w) then
    esp_log LOG_INFO PermissionStore.TAG "Parsed permissions string '%s' to 0x%08x";;
    mret (AppPermissions.app_permissions_parse_string true (Some permissions_str))
  else
    esp_log LOG_ERROR PermissionStore.TAG "Failed to allocate memory for permissions string";;
    mret (AppPermissions.app_permissions_parse_string false (Some permissions_str)).

(** [app_manager_install(package_path, app_id)].  [app_id] tells whether
    the output buffer is non-NULL; the second result is the text written
    into it, if any. *)
Definition app_manager_install (package_path : option string) (app_id : bool)
    : M (esp_err_t * option string) :=
  match package_path, app_id with
  | Some package, true =>
      esp_log LOG_INFO TAG "Installing app from: %s";;
      w ← get_world;
      if Nat.leb MAX_INSTALLED_APPS (s_num_installed_apps w) then
        esp_log LOG_ERROR TAG "Maximum number of apps reached";;
        mret (ESP_ERR_NO_MEM, None)
      else
        r ← esp_random;
        let id := snprintf 32 ("app_" ++ hex8 r) in
        let install_path := snprintf MAX_APP_PATH_LEN ("/apps/" ++ id) in
        ret ← AppInstaller.app_installer_extract_package (Some package) (Some install_path);
        if negb (ret =? ESP_OK) then mret (ret, Some id)
        else
          let manifest_path := snprintf MAX_APP_PATH_LEN (install_path ++ "/manifest.json") in
          '(ret, loaded) ← ManifestLoader.mjs_engine_load_manifest (Some manifest_path) true;
          if negb (ret =? ESP_OK) then mret (ret, Some id)
          else
            let manifest := default ManifestLoader.manifest_zero loaded in
            permissions ← parse_permissions (m_permissions manifest);
            modify (λ w,
              set_s_installed_apps
                (s_installed_apps w ++
                   [AppInfo id (m_name manifest) (m_version manifest) (m_author manifest)
                      (m_entry_point manifest) install_path APP_STATE_STOPPED None 0 0
                      false permissions]) w);;
            esp_log LOG_INFO TAG "Installed app: %s (%s) by %s";;
            mret (ESP_OK, Some id)
  | _, _ => mret (ESP_ERR_INVALID_ARG, None)
  end.

Definition app_manager_start_app (app_id : option string) : M esp_err_t :=
  match app_id with
  | None => mret ESP_ERR_INVALID_ARG
  | Some id =>
      esp_log LOG_INFO TAG "Starting app: %s";;
      w ← get_world;
      match find_app (s_installed_apps w) id with
      | None =>
          esp_log LOG_ERROR TAG "App not found: %s";;
          mret ESP_ERR_NOT_FOUND
      | Some (i, app) =>
          match app_state app with
          | APP_STATE_RUNNING =>
              esp_log LOG_WARN TAG "App already running: %s";;
              mret ESP_OK
          | _ =>
              '(ret, created) ← AppSandbox.app_sandbox_create (Some id) true;
              if negb (ret =? ESP_OK) then
                esp_log LOG_ERROR TAG "Failed to create sandbox for app: %s";;
                mret ret
              else
                (* what [app->js_context] holds now *)
                let js_context := default (app_js_context app) created in
                update_app i (λ a, with_js_context a js_context);;
                let entry_file :=
                  snprintf MAX_APP_PATH_LEN
                    (app_install_path app ++ "/" ++ app_entry_point app) in
                ret ← MjsEngine.mjs_engine_load_file js_context (Some entry_file);
                if negb (ret =? ESP_OK) then
                  AppSandbox.app_sandbox_destroy (Some id);;
                  update_app i (λ a, with_js_context a None);;
                  esp_log LOG_ERROR TAG "Failed to load app file: %s";;
                  mret ret
                else
                  exec_result ← MjsEngine.mjs_engine_execute js_context;
                  match exec_result with
                  | JS_EXEC_OK =>
                      update_app i (λ a, with_state a APP_STATE_RUNNING);;
                      modify (set_s_current_app_id id);;
                      esp_log LOG_INFO TAG "Started app: %s";;
                      mret ESP_OK
                  | _ =>
                      AppSandbox.app_sandbox_destroy (Some id);;
                      update_app i (λ a, with_js_context a None);;
                      esp_log LOG_ERROR TAG "Failed to execute app: %s";;
                      mret ESP_FAIL
                  end
          end
      end
  end.

(** [app_manager_list_apps(apps, max_apps, num_apps)]: the two booleans
    tell whether the output pointers are non-NULL; the results are the
    records copied into [apps] and the count stored in [num_apps]. *)
Definition app_manager_list_apps (apps : bool) (max_apps : nat) (num_apps : bool)
    : M (esp_err_t * list app_info_t * nat) :=
  if apps && num_apps then
    w ← get_world;
    let count :=
      if Nat.ltb max_apps (s_num_installed_apps w) then max_apps else s_num_installed_apps w in
    mret (ESP_OK, take count (s_installed_apps w), count)
  else mret (ESP_ERR_INVALID_ARG, [], 0%nat).

Definition app_manager_check_permission (app_id : option string) (permission : Z) : M bool :=
  match app_id with
  | None => mret false
  | Some id =>
      w ← get_world;
      match find_app (s_installed_apps w) id with
      | Some (_, a) => mret (negb (Z.land (app_permissions a) permission =? 0))
      | None => mret false
      end
  end.

Definition app_manager_get_current_app : M (option string) :=
  w ← get_world;
  mret (if (String.length (s_current_app_id w) =? 0)%nat then None else Some (s_current_app_id w)).

Definition app_manager_stop_app (app_id : option string) : M esp_err_t :=
  match app_id with
  | None => mret ESP_ERR_INVALID_ARG
  | Some id =>
      esp_log LOG_INFO TAG "Stopping app: %s";;
      w ← get_world;
      match find_app (s_installed_apps w) id with
      | None =>
          esp_log LOG_ERROR TAG "App not found: %s";;
          mret ESP_ERR_NOT_FOUND
      | Some (i, app) =>
          match app_state app with
          | APP_STATE_RUNNING =>
              match app_js_context app with
              | Some _ =>
                  MjsEngine.mjs_engine_stop (app_js_context app);;
                  AppSandbox.app_sandbox_destroy (Some id);;
                  update_app i (λ a, with_js_context a None)
              | None => mret tt
              end;;
              update_app i (λ a, with_state a APP_STATE_STOPPED);;
              w ← get_world;
              (if streq (s_current_app_id w) id
               then modify (set_s_current_app_id "")
               else mret tt);;
              esp_log LOG_INFO TAG "Stopped app: %s";;
              mret ESP_OK
          | _ =>
              esp_log LOG_WARN TAG "App not running: %s";;
              mret ESP_OK
          end
      end
  end.

End AppManager.

(** ** app_sandbox.c: the access check, which calls back into the registry *)

Module SandboxAccess.

Definition app_sandbox_check_access (app_id resource : option string) : M bool :=
  match app_id, resource with
  | Some id, Some res =>
      w ← get_world;
      match AppSandbox.find_sandbox w id ≫= (λ slot, s_sandboxes w !! slot) with
      | None => mret false
      | Some sandbox =>
          current_time ← tick_ms;
          if sb_time_limit sandbox <? wrap32 (current_time - sb_start_time sandbox) then
            esp_log LOG_WARN AppSandbox.TAG "App %s exceeded time limit";;
            mret false
          else
            denied ←
              (if strstr res "/system/" then
                 granted ← AppManager.app_manager_check_permission (Some id) APP_PERM_SYSTEM;
                 mret (negb granted)
               else mret false);
            if (denied : bool) then
              esp_log LOG_WARN AppSandbox.TAG "App %s denied access to system resource: %s";;
              mret false
            else
              denied ←
                (if strstr res "rf." then
                   granted ← AppManager.app_manager_check_permission (Some id)
                               (Z.lor APP_PERM_RF_RECEIVE APP_PERM_RF_TRANSMIT);
                   mret (negb granted)
                 else mret false);
              if (denied : bool) then
                esp_log LOG_WARN AppSandbox.TAG "App %s denied access to RF resource: %s";;
                mret false
              else mret true
      end
  | _, _ => mret false
  end.

End SandboxAccess.

(** ** The design specification's reading of the permission list

    Definitions written from the specification, against which
    [app_permissions_parse_string] and [app_permissions_to_string] are
    compared. *)

Module PermissionSpec.

(** The fields of a comma-separated list, empty ones included. *)
Fixpoint comma_fields (s : list ascii) : list (list ascii) :=
  match s with
  | [] => [[]]
  | c :: s' =>
      if ascii_eqb c COMMA then [] :: comma_fields s'
      else match comma_fields s' with
           | f :: fs => (c :: f) :: fs
           | [] => [[c]]
           end
  end.

Fixpoint drop_while (p : ascii → bool) (l : list ascii) : list ascii :=
  match l with
  | c :: l' => if p c then drop_while p l' else l
  | [] => []
  end.

(** Trimming [lead] characters in front and [trail] characters behind. *)
Definition trim (lead trail : ascii → bool) (field : list ascii) : list ascii :=
  rev (drop_while trail (rev (drop_while lead field))).

(** The wire vocabulary, in table order. *)
Definition permission_names : list string :=
  [ "rf.receive"; "rf.transmit"; "gpio.read"; "gpio.write"; "storage.read";
    "storage.write"; "ui.create"; "network"; "system" ].

(** The names of the vocabulary that occur as a trimmed field of [P], in
    table order, each once. *)
Definition names_in (lead trail : ascii → bool) (P : string) : list string :=
  filter (λ name, existsb (λ field, streq (cstr (trim lead trail field)) name)
                          (comma_fields (chars P)) = true)
         permission_names.

(** Whitespace as C's [isspace] has it. *)
Definition isspace (c : ascii) : bool :=
  ascii_eqb c SPACE || ascii_eqb c TAB || ascii_eqb c LF || ascii_eqb c VT
  || ascii_eqb c FF || ascii_eqb c CR.

(** The claimed canonical form: fields trimmed of whitespace on both sides. *)
Definition canonical_whitespace (P : string) : string :=
  join "," (names_in isspace isspace P).

(** The same with blanks (space and tab) as the only whitespace. *)
Definition canonical_blank (P : string) : string :=
  join "," (names_in AppPermissions.is_lead AppPermissions.is_lead P).

(** The canonical form the source computes: spaces and tabs trimmed in
    front, spaces, tabs, LF and CR trimmed behind. *)
Definition canonical (P : string) : string :=
  join "," (names_in AppPermissions.is_lead AppPermissions.is_trail P).

End PermissionSpec.

(** ** Notions used in the statements *)

(** The Permission Store works: no NVS call reports a fault. *)
Definition nvs_healthy (n : nvs_t) : Prop :=
  nvs_open_fault n = ESP_OK ∧ nvs_get_fault n = ESP_OK ∧
  nvs_set_fault n = ESP_OK ∧ nvs_commit_fault n = ESP_OK.

#[global] Instance nvs_healthy_dec n : Decision (nvs_healthy n).
Proof. unfold nvs_healthy. apply _. Defined.

(** What [app_permissions_load] leaves in a cell that held 0, as in
    [app_permissions_check]. *)
Definition loaded_bits (w : world) (id : string) : Z :=
  default 0 (snd (fst (PermissionStore.app_permissions_load (Some id) (Some 0) w))).

(** The bitset persisted for [id], 0 when there is none. *)
Definition stored (n : nvs_t) (id : string) : Z :=
  default 0 (nvs_entries n ≫= (λ e, e !! id)).

Definition nvs_put (n : nvs_t) (id : string) (v : Z) : nvs_t :=
  nvs_with_entries n (Some (<[id := v]> (default ∅ (nvs_entries n)))).

(** A single permission bit of a [uint32_t] bitset. *)
Definition is_permission_bit (bit : Z) : Prop := ∃ k, 0 ≤ k < 32 ∧ bit = Z.shiftl 1 k.

(** [permissions & flag] is non-zero. *)
Definition has_flag (permissions flag : Z) : bool := negb (Z.land permissions flag =? 0).

(** The tokens [strtok] yields: the non-empty fields. *)
Definition nonempty_fields (s : list ascii) : list (list ascii) :=
  List.filter (λ f, negb (Nat.eqb (List.length f) 0)) (PermissionSpec.comma_fields s).

(** One round of the parse loop, and the flag a token contributes. *)
Definition parse_step (acc : Z) (t : list ascii) : Z :=
  AppPermissions.match_permission AppPermissions.permission_map
    (cstr (AppPermissions.trim_token t)) acc.

Fixpoint flag_of (map : list (string * Z)) (token : string) : Z :=
  match map with
  | [] => 0
  | (n, f) :: map' => if streq token n then f else flag_of map' token
  end.

(** The names [app_permissions_to_string] appends for a bitset. *)
Definition selected (map : list (string * Z)) (permissions : Z) : list string :=
  List.map fst (List.filter (λ e, has_flag permissions (snd e)) map).

(** A computation that never writes the registry. *)
Definition keeps_registry {A} (m : M A) : Prop :=
  ∀ w, s_installed_apps (snd (m w)) = s_installed_apps w.

(** The number of occupied slots of the sandbox pool. *)
Definition sandbox_occupancy (w : world) : nat :=
  List.length (List.filter sb_active (s_sandboxes w)).

(** The [n]-th reading of the millisecond clock, and the duration
    [mjs_engine_execute] measures when started in [w]. *)
Definition clock_ms (p : platform) (n : nat) : Z :=
  wrap32 (wrap32 (tick_source p n) * portTICK_PERIOD_MS p).

Definition measured_exec_time (w : world) : Z :=
  wrap32 (clock_ms (w_platform w) (S (w_tick_reads w)) - clock_ms (w_platform w) (w_tick_reads w)).

(** The manifest the installer writes, and what the manifest reader makes
    of it. *)
Definition synthesized_manifest_text : string :=
  "{" ++ AppInstaller.nl ++
  AppInstaller.manifest_line "name" "Sample App" "," ++
  AppInstaller.manifest_line "version" "1.0.0" "," ++
  AppInstaller.manifest_line "author" "Unknown" "," ++
  AppInstaller.manifest_line "entry_point" "index.js" "," ++
  AppInstaller.manifest_line "permissions" "rf.receive,ui.create" "" ++
  "}" ++ AppInstaller.nl.

Definition synthesized_manifest : js_app_manifest_t :=
  Manifest "Sample App" "1.0.0" "Unknown" "" "index.js" "rf.receive,ui.create" 65536 false.

(** A permission list whose only field starts with a line feed, and one
    whose only field ends with it. *)
Definition newline_rf_receive : string := String LF "rf.receive".
Definition rf_receive_newline : string := "rf.receive" ++ String LF "".

(** ** A concrete device, for the examples

    A 100 Hz tick whose counter advances by 3 between readings, a random
    source, an evaluator that returns [undefined] and leaves the engine
    instance alone, an SD card carrying one package whose text declares the
    manifest of an app called Tester. *)

Definition tester_package : string :=
  "{" ++ AppInstaller.nl ++
  AppInstaller.manifest_line "name" "Tester" "," ++
  AppInstaller.manifest_line "version" "0.1" "," ++
  AppInstaller.manifest_line "entry_point" "index.js" "," ++
  AppInstaller.manifest_line "permissions" "gpio.read,rf.transmit" "" ++
  "}" ++ AppInstaller.nl.

Definition demo_platform : platform :=
  Platform 10 (λ n, Z.of_nat n * 3) (λ n, 0xDEADBEEF + Z.of_nat n) true
    (λ _, 0x40080000) (λ _, 0x3F400000)
    (λ m src, ExecOutcome MJS_UNDEFINED m []).

Definition boot_world : world :=
  World demo_platform false false [] (Nvs None ESP_OK ESP_OK ESP_OK ESP_OK)
    (Fs ∅ {[ "/sd/tester.pkg" := tester_package ]} false)
    (Radio [] ESP_OK) 0 0 ∅
    true (replicate 8 None) 0 false []
    true
    (replicate MAX_SANDBOXES sandbox_zero) 0
    [] "".

(** The device after the package has been installed, and after the
    installed app has been started. *)
Definition installed_world : world :=
  snd (AppManager.app_manager_install (Some "/sd/tester.pkg") true boot_world).

Definition running_world : world :=
  snd (AppManager.app_manager_start_app (Some "app_deadbeef") installed_world).

(** The registry record of the started app. *)
Definition running_app : app_info_t :=
  AppInfo "app_deadbeef" "Sample App" "1.0.0" "Unknown" "index.js" "/apps/app_deadbeef"
    APP_STATE_RUNNING (Some 0%nat) 0 0 false 0x41.

(** A device whose registry is full: sixteen installed apps. *)
Definition full_world : world :=
  set_s_installed_apps
    (map (λ k, AppInfo ("app_0000000" ++ String (AppManager.hex_digit k) EmptyString)
                 "Sample App" "1.0.0" "Unknown" "index.js" "/apps/x" APP_STATE_STOPPED None 0 0
                 false 0x41)
         [0; 1; 2; 3; 4; 5; 6; 7; 8; 9; 10; 11; 12; 13; 14; 15])
    boot_world.

(** A device whose evaluation of any script spans 1000 ticks (10 s). *)
Definition slow_world : world :=
  World (Platform 10 (λ n, Z.of_nat n * 1000) (random_source demo_platform) true
           (func_addr demo_platform) (literal_addr demo_platform)
           (run_mjs_exec demo_platform))
    false false [] (w_nvs boot_world) (w_fs boot_world) (w_radio boot_world) 0 0
    {[ 0%nat := JsContext (Some Mjs.mjs_create) (Some "loop.js") (Some "var x = 1;") false
                   65536 5000 ]}
    true (Some 0%nat :: replicate 7 None) 1 false [] true
    (replicate MAX_SANDBOXES sandbox_zero) 0 [] "".

(** ** Further notions *)

(** A computation that never changes the part [π] of the world. *)
Definition preserves {A B} (π : world → B) (m : M A) : Prop :=
  ∀ w, π (snd (m w)) = π w.

(** Every bitset below 512 survives printing and parsing, and prints to at
    most 95 characters: the check of all of them. *)
Definition roundtrip_table : bool :=
  forallb (λ n, let b := Z.of_nat n in
                (AppPermissions.app_permissions_parse_string true
                   (Some (AppPermissions.app_permissions_to_string b)) =? b)
                && Nat.leb (String.length (AppPermissions.app_permissions_to_string b)) 95)
          (seq 0 512).

(** A store whose namespace opens and takes writes, but whose reads fail
    with an error other than "not found". *)
Definition nvs_read_fails (n : nvs_t) : Prop :=
  nvs_open_fault n = ESP_OK ∧ is_Some (nvs_entries n)
  ∧ nvs_get_fault n ≠ ESP_OK ∧ nvs_get_fault n ≠ ESP_ERR_NVS_NOT_FOUND
  ∧ nvs_set_fault n = ESP_OK ∧ nvs_commit_fault n = ESP_OK.

(** The demo device with such a store, holding rf.receive and ui.create
    for the demo app. *)
Definition flaky_world : world :=
  set_w_nvs (Nvs (Some {[ "app_deadbeef" := 0x41 ]}) ESP_OK ESP_FAIL ESP_OK ESP_OK) boot_world.

(** The value [mjs_set_ffi_func] stores for a native function. *)
Definition ffi_value (func : Z) : mjs_val_t :=
  Z.lor 0x2000000000000000 (Z.land func 0xFFFFFFFF).

(** All the functions [js_api_register_all] registers, in order. *)
Definition api_functions : list (string * string) :=
  (JsApi.rf_functions ++ JsApi.gpio_functions ++ JsApi.ui_functions
   ++ JsApi.storage_functions ++ JsApi.notification_functions)%list.

(** The contexts the engine's slots point to, and the engine's
    bookkeeping being in order: eight slots, the counter equal to the
    number of occupied ones, no context in two slots, every slot pointing to
    a live cell. *)
Definition live_contexts (w : world) : list nat := omap id (s_contexts w).

Definition engine_consistent (w : world) : Prop :=
  List.length (s_contexts w) = 8%nat
  ∧ s_context_count w = Z.of_nat (List.length (live_contexts w))
  ∧ NoDup (live_contexts w)
  ∧ ∀ a, a ∈ live_contexts w → is_Some (w_heap w !! a).

(** The context [mjs_engine_create_context] builds. *)
Definition new_context (memory_limit : Z) : js_context_t :=
  JsContext (Some (Mjs.mjs_set_error_handler Mjs.mjs_create)) None None false
    (if 0 <? memory_limit then memory_limit else MjsEngine.DEFAULT_MEMORY_LIMIT)
    MjsEngine.DEFAULT_EXEC_TIME_LIMIT.

(** A device with a loaded script that the evaluator rejects: as [mjs_exec]
    does for the text of one at sign, it raises "Syntax error" once and
    returns null. *)
Definition raising_world : world :=
  World (Platform 10 (tick_source demo_platform) (random_source demo_platform) true
           (func_addr demo_platform) (literal_addr demo_platform)
           (λ m src, ExecOutcome MJS_NULL
                       (Mjs (Some "Syntax error") (error_handler m) (global_object m) (globals m))
                       ["Syntax error"]))
    false false [] (w_nvs boot_world) (w_fs boot_world) (w_radio boot_world) 0 0
    {[ 0%nat := JsContext (Some (Mjs.mjs_set_error_handler Mjs.mjs_create)) (Some "bad.js")
                   (Some "@") false 65536 5000 ]}
    true (Some 0%nat :: replicate 7 None) 1 false [] true
    (replicate MAX_SANDBOXES sandbox_zero) 0 [] "".

(** The sandbox pool's bookkeeping being in order: eight slots, the
    counter equal to the number of active ones. *)
Definition sandbox_consistent (w : world) : Prop :=
  List.length (s_sandboxes w) = MAX_SANDBOXES
  ∧ s_sandbox_count w = Z.of_nat (sandbox_occupancy w).

(** The registry grants [id] one of the bits of [flags]. *)
Definition registry_grants (w : world) (id : string) (flags : Z) : Prop :=
  ∃ i app, AppManager.find_app (s_installed_apps w) id = Some (i, app)
           ∧ Z.land (app_permissions app) flags ≠ 0.

(** The time [app_sandbox_check_access] measures since the sandbox [s] was
    created, when called in [w]. *)
Definition sandbox_age (w : world) (s : sandbox_t) : Z :=
  wrap32 (clock_ms (w_platform w) (w_tick_reads w) - sb_start_time s).

(** A device whose sandbox pool is full. *)
Definition crowded_world : world :=
  set_s_sandbox_count 8
    (set_s_sandboxes
       (map (λ k, Sandbox ("app_0000000" ++ String (AppManager.hex_digit k) EmptyString)
                    None 65536 5000 0 true)
          [0; 1; 2; 3; 4; 5; 6; 7])
       boot_world).

(** What belongs to the app manager: the registry and the current app. *)
Definition manager_state (w : world) : list app_info_t * string :=
  (s_installed_apps w, s_current_app_id w).

(** What belongs to the sandbox pool. *)
Definition pool_state (w : world) : list sandbox_t * Z := (s_sandboxes w, s_sandbox_count w).

(** The record of the demo app when it is not running, and a device that
    has it installed while the sandbox pool is full. *)
Definition stopped_app : app_info_t :=
  AppInfo "app_deadbeef" "Sample App" "1.0.0" "Unknown" "index.js" "/apps/app_deadbeef"
    APP_STATE_STOPPED None 0 0 false 0x41.

Definition crowded_installed_world : world :=
  set_s_installed_apps [stopped_app] crowded_world.

(** The id the next install generates, and the directory it installs to. *)
Definition next_app_id (w : world) : string :=
  snprintf 32 ("app_" ++ AppManager.hex8 (wrap32 (random_source (w_platform w)
                                                     (w_random_reads w)))).

Definition install_dir (id : string) : string :=
  snprintf AppManager.MAX_APP_PATH_LEN ("/apps/" ++ id).

(** Every registered app sits in the directory of its id, and the
    directory exists. *)
Definition registry_on_disk (w : world) : Prop :=
  ∀ a, a ∈ s_installed_apps w →
       app_install_path a = install_dir (app_id_of a)
       ∧ path_exists (w_fs w) (app_install_path a) = true.

(** A file system that has everything another one has. *)
Definition fs_grows (fs fs' : fs_t) : Prop :=
  fs_dirs fs ⊆ fs_dirs fs' ∧ dom (fs_files fs) ⊆ dom (fs_files fs').

(** A computation that removes nothing from the file system. *)
Definition only_adds_files {A} (m : M A) : Prop := ∀ w, fs_grows (w_fs w) (w_fs (snd (m w))).

(** A manifest whose fields fit the arrays of [js_app_manifest_t] (and so
    those of [app_info_t], which have the same sizes). *)
Definition manifest_fits (m : js_app_manifest_t) : Prop :=
  (String.length (m_name m) < 32)%nat ∧ (String.length (m_version m) < 16)%nat
  ∧ (String.length (m_author m) < 32)%nat ∧ (String.length (m_description m) < 128)%nat
  ∧ (String.length (m_entry_point m) < 64)%nat ∧ (String.length (m_permissions m) < 256)%nat
  ∧ 0 ≤ m_memory_limit m < 2 ^ 32.

(** What the manifest reader makes of the Tester package. *)
Definition tester_manifest : js_app_manifest_t :=
  Manifest "Tester" "0.1" "" "" "index.js" "gpio.read,rf.transmit" 65536 false.

(** A driver that accepts the bands of the radio only. *)
Definition band_driver : JsApi.cc1101_driver :=
  JsApi.Cc1101Driver (λ hz, mret (if 300000000 <=? hz then ESP_OK else ESP_ERR_INVALID_ARG))
    (λ _, mret ESP_OK) (λ _, mret ESP_OK) (λ _, mret ESP_OK) (λ _, mret ESP_OK).

(** * Properties *)

Import AppPermissions PermissionSpec.

(** Calls stay folded under simplification; proofs unfold them by name. *)
Arguments PermissionStore.app_permissions_load : simpl never.
Arguments PermissionStore.app_permissions_save : simpl never.
Arguments PermissionStore.app_permissions_check : simpl never.
Arguments PermissionStore.app_permissions_grant : simpl never.
Arguments PermissionStore.app_permissions_revoke : simpl never.
Arguments nvs_open : simpl never.
Arguments nvs_get_u32 : simpl never.
Arguments nvs_set_u32 : simpl never.
Arguments nvs_commit : simpl never.
Arguments AppInstaller.app_installer_extract_package : simpl never.
Arguments ManifestLoader.mjs_engine_load_manifest : simpl never.
Arguments AppManager.parse_permissions : simpl never.
Arguments snprintf : simpl never.
Arguments AppManager.app_manager_list_apps : simpl never.
Arguments AppManager.app_manager_check_permission : simpl never.
Arguments AppManager.hex8 : simpl never.
Arguments wrap32 : simpl never.
Arguments fopen_r : simpl never.
Arguments fopen_w : simpl never.
Arguments mkdir : simpl never.

(** Unfolding the monad. *)
Ltac run := unfold mbind, M_bind, mret, M_ret, esp_log, modify, get_world in *; cbn in *.

(** ** Parsing and printing permission lists *)

Example parse_example :
  app_permissions_parse_string true
    (Some (" gpio.read , bogus,rf.transmit" ++ AppInstaller.nl)) = 6.
Proof. reflexivity. Qed.

Example to_string_example :
  app_permissions_to_string 0x46 = "rf.transmit,gpio.read,ui.create".
Proof. reflexivity. Qed.

(** [strtok] walks the comma-separated fields: one scan cuts the first
    field off, a skip drops empty ones. *)
Lemma scan_token_fields s tok rest :
  scan_token COMMA s = (tok, rest) →
  (List.length rest ≤ Nat.pred (List.length s))%nat ∧
  (comma_fields s = tok :: comma_fields rest ∨ (comma_fields s = [tok] ∧ rest = [])).
Proof.
  revert tok rest. induction s as [|c s IH]; intros tok rest; simpl.
  - intros [= <- <-]. split; [done|]. right. done.
  - destruct (ascii_eqb c COMMA) eqn:E.
    + intros [= <- <-]. split; [lia|]. left. done.
    + destruct (scan_token COMMA s) as [t r] eqn:Hs. intros [= <- <-].
      destruct (IH t r eq_refl) as [Hlen [H|[H ->]]]; rewrite H; simpl.
      * split; [lia|]. by left.
      * split; [simpl; lia|]. by right.
Qed.

Lemma skip_delims_fields s :
  nonempty_fields (skip_delims COMMA s) = nonempty_fields s ∧
  (List.length (skip_delims COMMA s) ≤ List.length s)%nat.
Proof.
  induction s as [|c s [IH1 IH2]]; simpl; [done|].
  destruct (ascii_eqb c COMMA) eqn:E.
  - unfold nonempty_fields in *. simpl. rewrite E. simpl. split; [done|lia].
  - done.
Qed.

(** The fuel of the parse loop is enough: it folds over all the non-empty
    fields. *)
Lemma parse_loop_fold fuel s acc :
  (List.length s < fuel)%nat →
  parse_loop fuel s acc = fold_left parse_step (nonempty_fields s) acc.
Proof.
  revert s acc. induction fuel as [|fuel IH]; intros s acc Hf; [lia|].
  simpl. unfold strtok.
  destruct (skip_delims_fields s) as [Hsk Hlen]. rewrite <- Hsk.
  destruct (skip_delims COMMA s) as [|c s'] eqn:E.
  - done.
  - destruct (scan_token COMMA (c :: s')) as [tok rest] eqn:Hs.
    destruct (scan_token_fields _ _ _ Hs) as [Hl Hc].
    assert (tok ≠ []) as Hne.
    { simpl in Hs. destruct (ascii_eqb c COMMA) eqn:Ec.
      - (* skip_delims never leaves a leading comma *)
        exfalso. clear -E Ec. revert E. induction s as [|x s IH]; simpl; [done|].
        destruct (ascii_eqb x COMMA) eqn:Ex; [done|]. intros [= -> ->]. congruence.
      - destruct (scan_token COMMA s'). by inversion Hs. }
    rewrite IH by (simpl in *; lia).
    unfold nonempty_fields.
    destruct Hc as [Hc|[Hc ->]]; rewrite Hc; simpl;
      destruct tok; try done.
Qed.

Lemma match_permission_flag map tok acc :
  match_permission map tok acc = Z.lor acc (flag_of map tok).
Proof.
  induction map as [|[n f] map IH]; simpl; [by rewrite Z.lor_0_r|].
  by destruct (streq tok n).
Qed.

Lemma has_flag_lor a b f : has_flag (Z.lor a b) f = has_flag a f || has_flag b f.
Proof.
  unfold has_flag. rewrite Z.land_lor_distr_l.
  destruct (Z.eqb_spec (Z.land a f) 0) as [->|Ha]; simpl.
  - by rewrite Z.lor_0_l.
  - destruct (Z.eqb_spec (Z.lor (Z.land a f) (Z.land b f)) 0) as [H|H]; [|done].
    apply Z.lor_eq_0_iff in H. tauto.
Qed.

Lemma has_flag_fold ts acc f :
  has_flag (fold_left parse_step ts acc) f
  = has_flag acc f || existsb (λ t, has_flag (flag_of permission_map (cstr (trim_token t))) f) ts.
Proof.
  revert acc. induction ts as [|t ts IH]; intros acc; simpl; [by rewrite orb_false_r|].
  rewrite IH. unfold parse_step at 1. rewrite match_permission_flag, has_flag_lor.
  by rewrite orb_assoc.
Qed.

(** A token contributes the flag of a table entry exactly when it is the
    entry's name: the names are distinct and the flags distinct bits. *)
Lemma flag_of_spec tok name flag :
  In (name, flag) permission_map →
  has_flag (flag_of permission_map tok) flag = streq tok name.
Proof.
  unfold permission_map. simpl.
  intros H. repeat (destruct H as [[= <- <-]|H]); try done;
  unfold streq;
  repeat match goal with
  | |- context [String.eqb tok ?n] =>
      destruct (String.eqb_spec tok n); [subst; vm_compute; reflexivity|]
  end; reflexivity.
Qed.

Lemma skip_leading_drop t : skip_leading t = drop_while is_lead t.
Proof. induction t as [|c t IH]; simpl; [done|]. by destruct (is_lead c). Qed.

(** The trailing trim of the source keeps the first character; where that
    matters the token is a single trailing character, never a name. *)
Lemma cut_trailing_cases r :
  cut_trailing r = drop_while is_trail r
  ∨ ∃ c, cut_trailing r = [c] ∧ drop_while is_trail r = [] ∧ is_trail c = true.
Proof.
  induction r as [|c r IH]; [by left|].
  destruct r as [|d r'].
  - simpl. destruct (is_trail c) eqn:E; [right; eauto|by left].
  - change (cut_trailing (c :: d :: r'))
      with (if is_trail c then cut_trailing (d :: r') else c :: d :: r').
    change (drop_while is_trail (c :: d :: r'))
      with (if is_trail c then drop_while is_trail (d :: r') else c :: d :: r').
    destruct (is_trail c); [exact IH|by left].
Qed.

Lemma name_not_short name flag :
  In (name, flag) permission_map →
  streq (cstr []) name = false ∧ ∀ c, streq (cstr [c]) name = false.
Proof.
  unfold permission_map. simpl.
  intros H. repeat (destruct H as [[= <- <-]|H]); try done;
    (split; [reflexivity|intros c; unfold streq; simpl; by destruct (Ascii.eqb c _)]).
Qed.

Lemma trim_token_field name flag field :
  In (name, flag) permission_map →
  streq (cstr (trim_token field)) name = streq (cstr (trim is_lead is_trail field)) name.
Proof.
  intros Hin. unfold trim_token, trim. rewrite skip_leading_drop.
  destruct (cut_trailing_cases (rev (drop_while is_lead field))) as [->|(c & -> & -> & _)];
    [done|].
  destruct (name_not_short _ _ Hin) as [H0 H1].
  change (rev [c]) with [c]. change (rev []) with (@nil ascii). by rewrite H0, H1.
Qed.

Lemma existsb_nonempty_fields name flag s :
  In (name, flag) permission_map →
  existsb (λ t, streq (cstr (trim_token t)) name) (nonempty_fields s)
  = existsb (λ f, streq (cstr (trim is_lead is_trail f)) name) (comma_fields s).
Proof.
  intros Hin. unfold nonempty_fields.
  induction (comma_fields s) as [|f fs IH]; [done|].
  simpl. rewrite <- (trim_token_field _ _ _ Hin), <- IH.
  destruct f as [|c f]; simpl; [|done].
  pose proof (proj1 (name_not_short _ _ Hin)) as H0. simpl in H0. by rewrite H0.
Qed.

(** The bit of a table entry is set by the parse exactly when the entry's
    name occurs as a trimmed field. *)
Lemma has_flag_parse name flag P :
  In (name, flag) permission_map →
  has_flag (app_permissions_parse_string true (Some P)) flag
  = existsb (λ f, streq (cstr (trim is_lead is_trail f)) name) (comma_fields (chars P)).
Proof.
  intros Hin. unfold app_permissions_parse_string.
  rewrite parse_loop_fold by lia.
  rewrite has_flag_fold.
  replace (has_flag 0 flag) with false by (unfold has_flag; by rewrite Z.land_0_l).
  rewrite orb_false_l, <- (existsb_nonempty_fields _ _ _ Hin).
  induction (nonempty_fields (chars P)) as [|t ts IH]; [done|].
  cbn [existsb]. by rewrite IH, (flag_of_spec _ _ _ Hin).
Qed.

Lemma string_app_assoc (a b c : string) : (a ++ b) ++ c = a ++ b ++ c.
Proof.
  induction a as [|x a IH]; [done|].
  change (String x ((a ++ b) ++ c) = String x (a ++ b ++ c)). by rewrite IH.
Qed.


(** The [strcat] loop joins the selected names with commas. *)
Lemma to_string_loop_join map permissions first perm_str :
  to_string_loop map permissions first perm_str
  = match selected map permissions with
    | [] => perm_str
    | names => (if first then perm_str else perm_str ++ ",") ++ join "," names
    end.
Proof.
  revert first perm_str. induction map as [|[n f] map IH]; intros first perm_str; [done|].
  simpl. unfold selected. simpl. fold (has_flag permissions f).
  destruct (has_flag permissions f) eqn:E; simpl.
  - rewrite IH. fold (selected map permissions).
    destruct (selected map permissions) as [|n' ns].
    + done.
    + rewrite !string_app_assoc. done.
  - rewrite IH. done.
Qed.

Lemma selected_names permissions (p : string → bool) map :
  (∀ n f, In (n, f) map → has_flag permissions f = p n) →
  selected map permissions = List.filter p (List.map fst map).
Proof.
  induction map as [|[n f] map IH]; intros H; [done|].
  unfold selected in *. simpl. rewrite (H n f) by (by left).
  destruct (p n); simpl; rewrite IH; auto; intros; apply H; by right.
Qed.

Lemma stdpp_filter_bool {A} (p : A → bool) (l : list A) :
  filter (λ x, p x = true) l = List.filter p l.
Proof.
  induction l as [|x l IH]; [done|].
  rewrite filter_cons. simpl. destruct (p x) eqn:E.
  - rewrite decide_True by done. by rewrite IH.
  - rewrite decide_False by congruence. done.
Qed.

(** What the code does on every permission string [P] whose copy can be
    allocated: printing the parsed bitset yields the comma-joined list of
    exactly the permission names that occur as a field of [P] once spaces
    and tabs are trimmed in front and spaces, tabs, LF and CR behind; the
    names come in table order and each at most once. *)
Theorem to_string_parse_canonical P :
  app_permissions_to_string (app_permissions_parse_string true (Some P)) = canonical P
  ∧ names_in is_lead is_trail P `sublist_of` permission_names
  ∧ NoDup (names_in is_lead is_trail P).
Proof.
  split; [|split].
  - unfold app_permissions_to_string, canonical, names_in.
    rewrite to_string_loop_join, stdpp_filter_bool.
    rewrite (selected_names _
      (λ name, existsb (λ f, streq (cstr (trim is_lead is_trail f)) name)
                 (comma_fields (chars P)))).
    + change (List.map fst permission_map) with permission_names.
      by destruct (List.filter _ permission_names).
    + intros n f Hin. by apply has_flag_parse.
  - apply sublist_filter.
  - apply NoDup_filter. apply (bool_decide_unpack _). by vm_compute.
Qed.

(** C5, the code at the failing input.  For the string made of a line
    feed and [rf.receive], whether or not its copy can be allocated, the
    parser recognises nothing and the printed list is empty, whereas
    trimming whitespace, which the claim and the comment above the two
    trimming loops both call for, leaves the name [rf.receive].  The same
    line feed behind the name is trimmed, and the name recognised. *)
Theorem to_string_parse_leading_newline strdup_ok :
  canonical_whitespace newline_rf_receive = "rf.receive"
  ∧ app_permissions_parse_string strdup_ok (Some newline_rf_receive) = 0
  ∧ app_permissions_to_string
      (app_permissions_parse_string strdup_ok (Some newline_rf_receive)) = ""
  ∧ app_permissions_to_string (app_permissions_parse_string true (Some rf_receive_newline))
    = "rf.receive".
Proof. destruct strdup_ok; by vm_compute. Qed.

(** Trimming blanks alone on both sides is not what the code does either:
    a line feed behind the name is cut, and the name recognised. *)
Lemma to_string_parse_trailing_newline :
  canonical_blank rf_receive_newline = ""
  ∧ app_permissions_to_string (app_permissions_parse_string true (Some rf_receive_newline))
    = "rf.receive".
Proof. by vm_compute. Qed.

(** ** The Permission Store *)

Import PermissionStore.

(** A load through a non-NULL pointer leaves a value in the cell. *)
Lemma load_cell id c w :
  ∃ v, snd (fst (app_permissions_load (Some id) (Some c) w)) = Some v.
Proof.
  unfold app_permissions_load, nvs_open, nvs_get_u32. run.
  repeat (case_match; run; simplify_eq); eauto.
Qed.

(** What the check computes: true exactly when the load succeeds with a
    bitset that meets the required bits. *)
Lemma check_spec id required w :
  fst (app_permissions_check (Some id) required w) = true
  ↔ ∃ v, fst (app_permissions_load (Some id) (Some 0) w) = (ESP_OK, Some v)
         ∧ Z.land v required ≠ 0.
Proof.
  unfold app_permissions_check. run.
  destruct (load_cell id 0 w) as [v Hv].
  destruct (app_permissions_load (Some id) (Some 0) w) as [[ret cell] w'] eqn:Hl.
  simpl in Hv. subst cell. cbn.
  destruct (Z.eqb_spec ret ESP_OK) as [->|Hne]; cbn.
  - destruct (Z.eqb_spec (Z.land v required) 0) as [Hz|Hz]; cbn.
    + split; [done|]. intros (v' & [= <-] & H). done.
    + split; [|done]. intros _. eauto.
  - split; [done|]. intros (v' & [= -> _] & _). done.
Qed.

(** A load that reports an error leaves the zero-initialised cell at 0. *)
Lemma load_error_leaves_zero id w :
  fst (fst (app_permissions_load (Some id) (Some 0) w)) ≠ ESP_OK →
  loaded_bits w id = 0.
Proof.
  unfold loaded_bits, app_permissions_load, nvs_open, nvs_get_u32. run.
  repeat (case_match; run; simplify_eq); try done.
Qed.

(** C3.  For every non-null app id and every bitset of required bits, the
    Permission Store's check answers true if and only if the bitset loaded
    for the app has a non-zero intersection with the required bits: any one
    of the required bits suffices. *)
Theorem check_iff id required w :
  fst (app_permissions_check (Some id) required w) = true
  ↔ Z.land (loaded_bits w id) required ≠ 0.
Proof.
  rewrite check_spec. split.
  - intros (v & Hl & Hv). unfold loaded_bits. by rewrite Hl.
  - intros Hv.
    destruct (Z.eq_dec (fst (fst (app_permissions_load (Some id) (Some 0) w))) ESP_OK)
      as [Hok|Hne].
    + destruct (load_cell id 0 w) as [v Hc]. exists v.
      unfold loaded_bits in Hv. rewrite Hc in Hv. split; [|done].
      destruct (app_permissions_load (Some id) (Some 0) w) as [[ret cell] w'].
      cbn in *. by subst.
    + rewrite (load_error_leaves_zero id w Hne), Z.land_0_l in Hv. done.
Qed.

(** Any, not all: an app holding rf.receive and ui.create passes the check
    for the mask of rf.receive and rf.transmit, and fails the check for
    rf.transmit alone. *)
Example check_any_of :
  let w := snd (app_permissions_save (Some "app_deadbeef") 0x41 boot_world) in
  fst (app_permissions_check (Some "app_deadbeef")
         (Z.lor APP_PERM_RF_RECEIVE APP_PERM_RF_TRANSMIT) w) = true
  ∧ fst (app_permissions_check (Some "app_deadbeef") APP_PERM_RF_TRANSMIT w) = false
  ∧ fst (app_permissions_check (Some "app_000000aa") APP_PERM_RF_RECEIVE w) = false.
Proof. vm_compute. done. Qed.

(** With a working store, load reads the persisted bitset and save
    persists its argument; neither touches anything else in the store. *)
Lemma load_healthy id c w :
  nvs_healthy (w_nvs w) →
  fst (app_permissions_load (Some id) (Some c) w) = (ESP_OK, Some (stored (w_nvs w) id))
  ∧ w_nvs (snd (app_permissions_load (Some id) (Some c) w)) = w_nvs w.
Proof.
  intros (Ho & Hg & _ & _).
  unfold app_permissions_load, nvs_open, nvs_get_u32, stored. run.
  rewrite Ho. cbn.
  destruct (nvs_entries (w_nvs w)) as [e|] eqn:E; cbn; [|done].
  rewrite Hg. cbn. rewrite E. cbn.
  destruct (e !! id) as [v|]; cbn; done.
Qed.

Lemma save_healthy id v w :
  nvs_healthy (w_nvs w) →
  fst (app_permissions_save (Some id) v w) = ESP_OK
  ∧ w_nvs (snd (app_permissions_save (Some id) v w)) = nvs_put (w_nvs w) id v.
Proof.
  intros (Ho & _ & Hs & Hc).
  unfold app_permissions_save, nvs_open, nvs_set_u32, nvs_commit, nvs_put. run.
  rewrite Ho. cbn.
  destruct (nvs_entries (w_nvs w)) as [e|] eqn:E; cbn; rewrite ?E, Hs; cbn; rewrite Hc; cbn; done.
Qed.

Lemma stored_put n id v : stored (nvs_put n id v) id = v.
Proof. unfold stored, nvs_put. cbn. by rewrite lookup_insert_eq. Qed.

Lemma grant_healthy id bit w :
  nvs_healthy (w_nvs w) →
  fst (app_permissions_grant (Some id) bit w) = ESP_OK
  ∧ w_nvs (snd (app_permissions_grant (Some id) bit w))
    = nvs_put (w_nvs w) id (Z.lor (stored (w_nvs w) id) bit).
Proof.
  intros H. unfold app_permissions_grant. run.
  destruct (load_healthy id 0 w H) as [Hl Hn].
  destruct (app_permissions_load (Some id) (Some 0) w) as [[ret cell] w1].
  cbn in Hl, Hn. injection Hl as -> ->. cbn.
  assert (nvs_healthy (w_nvs w1)) as H1 by (by rewrite Hn).
  destruct (save_healthy id (Z.lor (stored (w_nvs w) id) bit) w1 H1) as [Hs Hn2].
  destruct (app_permissions_save _ _ w1) as [ret w2].
  cbn in Hs, Hn2. subst ret. cbn. by rewrite Hn2, Hn.
Qed.

Lemma revoke_healthy id bit w :
  nvs_healthy (w_nvs w) →
  fst (app_permissions_revoke (Some id) bit w) = ESP_OK
  ∧ w_nvs (snd (app_permissions_revoke (Some id) bit w))
    = nvs_put (w_nvs w) id (Z.land (stored (w_nvs w) id) (not32 bit)).
Proof.
  intros H. unfold app_permissions_revoke. run.
  destruct (load_healthy id 0 w H) as [Hl Hn].
  destruct (app_permissions_load (Some id) (Some 0) w) as [[ret cell] w1].
  cbn in Hl, Hn. injection Hl as -> ->. cbn.
  assert (nvs_healthy (w_nvs w1)) as H1 by (by rewrite Hn).
  destruct (save_healthy id (Z.land (stored (w_nvs w) id) (not32 bit)) w1 H1) as [Hs Hn2].
  destruct (app_permissions_save _ _ w1) as [ret w2].
  cbn in Hs, Hn2. subst ret. cbn. by rewrite Hn2, Hn.
Qed.

(** The bit arithmetic of revoke and grant. *)
Lemma land_not32 v bit : 0 ≤ bit < 2 ^ 32 → Z.land (Z.land v (not32 bit)) bit = 0.
Proof.
  intros Hb. apply Z.bits_inj'. intros n Hn.
  rewrite !Z.land_spec, Z.bits_0. unfold not32. rewrite Z.lxor_spec.
  destruct (Z.testbit bit n) eqn:Eb; [|by rewrite andb_false_r].
  destruct (Z.lt_ge_cases n 32) as [Hlt|Hge].
  - rewrite Z.ones_spec_low by lia. cbn. by rewrite andb_false_r.
  - exfalso. assert (Z.testbit bit n = false); [|congruence].
    apply Z.bits_above_log2; [lia|].
    destruct (Z.eq_dec bit 0) as [->|Hnz]; [cbn; lia|].
    apply Z.log2_lt_pow2; [lia|].
    apply Z.lt_le_trans with (2 ^ 32); [lia|]. apply Z.pow_le_mono_r; lia.
Qed.

Lemma permission_bit_range bit : is_permission_bit bit → 0 < bit < 2 ^ 32.
Proof.
  intros (k & Hk & ->). rewrite Z.shiftl_1_l. split.
  - apply Z.pow_pos_nonneg; lia.
  - apply Z.pow_lt_mono_r; lia.
Qed.

Lemma land_lor_bit v bit : is_permission_bit bit → Z.land (Z.lor v bit) bit ≠ 0.
Proof.
  intros Hb. pose proof (permission_bit_range _ Hb).
  rewrite Z.land_lor_distr_l, Z.land_diag. intros Hz.
  apply Z.lor_eq_0_iff in Hz. lia.
Qed.

(** C6.  With a working store, for every app id and every single
    permission bit: after grant then revoke the loaded bitset does not have
    the bit, and after grant alone the check for the bit answers true. *)
Theorem grant_then_revoke id bit w :
  nvs_healthy (w_nvs w) → is_permission_bit bit →
  let w1 := snd (app_permissions_grant (Some id) bit w) in
  let w2 := snd (app_permissions_revoke (Some id) bit w1) in
  (∃ v, fst (app_permissions_load (Some id) (Some 0) w2) = (ESP_OK, Some v) ∧ Z.land v bit = 0)
  ∧ fst (app_permissions_check (Some id) bit w1) = true.
Proof.
  intros H Hb w1 w2.
  destruct (grant_healthy id bit w H) as [_ Hn1]. fold w1 in Hn1.
  assert (nvs_healthy (w_nvs w1)) as H1 by (by rewrite Hn1).
  destruct (revoke_healthy id bit w1 H1) as [_ Hn2]. fold w2 in Hn2.
  assert (nvs_healthy (w_nvs w2)) as H2 by (by rewrite Hn2).
  split.
  - exists (stored (w_nvs w2) id). split; [apply (load_healthy id 0 w2 H2)|].
    rewrite Hn2, stored_put. apply land_not32.
    pose proof (permission_bit_range _ Hb). lia.
  - apply check_spec. exists (stored (w_nvs w1) id).
    split; [apply (load_healthy id 0 w1 H1)|].
    rewrite Hn1, stored_put. by apply land_lor_bit.
Qed.

Lemma grant_then_revoke_witness :
  (∃ v, fst (app_permissions_load (Some "app_deadbeef") (Some 0)
               (snd (app_permissions_revoke (Some "app_deadbeef") APP_PERM_GPIO_WRITE
                  (snd (app_permissions_grant (Some "app_deadbeef") APP_PERM_GPIO_WRITE
                     boot_world))))) = (ESP_OK, Some v)
        ∧ Z.land v APP_PERM_GPIO_WRITE = 0)
  ∧ fst (app_permissions_check (Some "app_deadbeef") APP_PERM_GPIO_WRITE
           (snd (app_permissions_grant (Some "app_deadbeef") APP_PERM_GPIO_WRITE boot_world)))
    = true.
Proof.
  apply (grant_then_revoke "app_deadbeef" APP_PERM_GPIO_WRITE boot_world).
  - repeat split; reflexivity.
  - exists 3. split; [lia | reflexivity].
Defined.

(** ** The registry and the sandbox pool *)

(** C8.  When the registry holds [MAX_INSTALLED_APPS] apps, install fails
    with [ESP_ERR_NO_MEM] (the code's NoCapacity), and the registry holds
    the same [MAX_INSTALLED_APPS] entries afterwards, each unchanged. *)
Theorem install_beyond_capacity w package :
  s_num_installed_apps w = MAX_INSTALLED_APPS →
  fst (AppManager.app_manager_install (Some package) true w) = (ESP_ERR_NO_MEM, None)
  ∧ s_installed_apps (snd (AppManager.app_manager_install (Some package) true w))
    = s_installed_apps w
  ∧ s_num_installed_apps (snd (AppManager.app_manager_install (Some package) true w))
    = MAX_INSTALLED_APPS.
Proof.
  intros H. unfold AppManager.app_manager_install. run.
  unfold s_num_installed_apps in *. rewrite H. cbn. done.
Qed.

Lemma install_beyond_capacity_witness :
  fst (AppManager.app_manager_install (Some "/sd/tester.pkg") true full_world)
  = (ESP_ERR_NO_MEM, None)
  ∧ s_installed_apps
      (snd (AppManager.app_manager_install (Some "/sd/tester.pkg") true full_world))
    = s_installed_apps full_world
  ∧ s_num_installed_apps
      (snd (AppManager.app_manager_install (Some "/sd/tester.pkg") true full_world))
    = MAX_INSTALLED_APPS.
Proof. apply (install_beyond_capacity full_world "/sd/tester.pkg"). reflexivity. Defined.

(** C9 (amended).  Destroying the sandbox of an app that has no active
    sandbox logs a warning and returns [ESP_ERR_NOT_FOUND]; apart from the
    two log lines nothing changes, so every slot of the pool is as it was. *)
Theorem destroy_without_sandbox w id :
  AppSandbox.find_sandbox w id = None →
  AppSandbox.app_sandbox_destroy (Some id) w
  = (ESP_ERR_NOT_FOUND,
     set_w_log (w_log w ++ [Log LOG_INFO AppSandbox.TAG "Destroying sandbox for app: %s";
                            Log LOG_WARN AppSandbox.TAG "Sandbox not found for app: %s"]) w)
  ∧ s_sandboxes (snd (AppSandbox.app_sandbox_destroy (Some id) w)) = s_sandboxes w
  ∧ s_sandbox_count (snd (AppSandbox.app_sandbox_destroy (Some id) w)) = s_sandbox_count w.
Proof.
  intros H. unfold AppSandbox.app_sandbox_destroy. run.
  unfold AppSandbox.find_sandbox in *. cbn. rewrite H. cbn.
  rewrite <- app_assoc. done.
Qed.

Lemma destroy_without_sandbox_witness :
  AppSandbox.app_sandbox_destroy (Some "app_0badcafe") running_world
  = (ESP_ERR_NOT_FOUND,
     set_w_log (w_log running_world ++
                  [Log LOG_INFO AppSandbox.TAG "Destroying sandbox for app: %s";
                   Log LOG_WARN AppSandbox.TAG "Sandbox not found for app: %s"]) running_world)
  ∧ s_sandboxes (snd (AppSandbox.app_sandbox_destroy (Some "app_0badcafe") running_world))
    = s_sandboxes running_world
  ∧ s_sandbox_count (snd (AppSandbox.app_sandbox_destroy (Some "app_0badcafe") running_world))
    = s_sandbox_count running_world.
Proof. apply (destroy_without_sandbox running_world "app_0badcafe"). by vm_compute. Defined.

(** C9, as claimed: the call does not succeed. *)
Lemma destroy_without_sandbox_not_ok :
  AppSandbox.find_sandbox running_world "app_0badcafe" = None
  ∧ fst (AppSandbox.app_sandbox_destroy (Some "app_0badcafe") running_world) = ESP_ERR_NOT_FOUND
  ∧ fst (AppSandbox.app_sandbox_destroy (Some "app_0badcafe") running_world) ≠ ESP_OK.
Proof. by vm_compute. Qed.

(** The early return of [app_manager_start_app]. *)
Lemma start_when_running w id i app :
  AppManager.find_app (s_installed_apps w) id = Some (i, app) →
  app_state app = APP_STATE_RUNNING →
  fst (AppManager.app_manager_start_app (Some id) w) = ESP_OK
  ∧ s_sandboxes (snd (AppManager.app_manager_start_app (Some id) w)) = s_sandboxes w
  ∧ s_sandbox_count (snd (AppManager.app_manager_start_app (Some id) w)) = s_sandbox_count w
  ∧ sandbox_occupancy (snd (AppManager.app_manager_start_app (Some id) w)) = sandbox_occupancy w
  ∧ s_contexts (snd (AppManager.app_manager_start_app (Some id) w)) = s_contexts w
  ∧ w_heap (snd (AppManager.app_manager_start_app (Some id) w)) = w_heap w
  ∧ s_installed_apps (snd (AppManager.app_manager_start_app (Some id) w)) = s_installed_apps w.
Proof.
  intros Hf Hs. unfold AppManager.app_manager_start_app. run.
  rewrite Hf. cbn. rewrite Hs. cbn. done.
Qed.

(** C7.  When the registry resolves [id] to an app that is Running,
    starting it again returns [ESP_OK] and creates no sandbox: the pool, its
    counter and its occupancy, the engine's contexts, the heap and the
    registry are all as before. *)
Theorem start_running_app_again w id i app :
  AppManager.find_app (s_installed_apps w) id = Some (i, app) →
  app_state app = APP_STATE_RUNNING →
  fst (AppManager.app_manager_start_app (Some id) w) = ESP_OK
  ∧ s_sandboxes (snd (AppManager.app_manager_start_app (Some id) w)) = s_sandboxes w
  ∧ s_sandbox_count (snd (AppManager.app_manager_start_app (Some id) w)) = s_sandbox_count w
  ∧ sandbox_occupancy (snd (AppManager.app_manager_start_app (Some id) w)) = sandbox_occupancy w
  ∧ s_contexts (snd (AppManager.app_manager_start_app (Some id) w)) = s_contexts w
  ∧ w_heap (snd (AppManager.app_manager_start_app (Some id) w)) = w_heap w
  ∧ s_installed_apps (snd (AppManager.app_manager_start_app (Some id) w)) = s_installed_apps w.
Proof.
  intros Hf Hs. unfold AppManager.app_manager_start_app. run.
  rewrite Hf. cbn. rewrite Hs. cbn.
  split_and!; reflexivity.
Qed.

Lemma start_running_app_again_witness :
  fst (AppManager.app_manager_start_app (Some "app_deadbeef") running_world) = ESP_OK
  ∧ s_sandboxes (snd (AppManager.app_manager_start_app (Some "app_deadbeef") running_world))
    = s_sandboxes running_world
  ∧ s_sandbox_count (snd (AppManager.app_manager_start_app (Some "app_deadbeef") running_world))
    = s_sandbox_count running_world
  ∧ sandbox_occupancy (snd (AppManager.app_manager_start_app (Some "app_deadbeef") running_world))
    = sandbox_occupancy running_world
  ∧ s_contexts (snd (AppManager.app_manager_start_app (Some "app_deadbeef") running_world))
    = s_contexts running_world
  ∧ w_heap (snd (AppManager.app_manager_start_app (Some "app_deadbeef") running_world))
    = w_heap running_world
  ∧ s_installed_apps (snd (AppManager.app_manager_start_app (Some "app_deadbeef") running_world))
    = s_installed_apps running_world.
Proof.
  apply (start_running_app_again running_world "app_deadbeef" 0
           (AppInfo "app_deadbeef" "Sample App" "1.0.0" "Unknown" "index.js"
              "/apps/app_deadbeef" APP_STATE_RUNNING (Some 0%nat) 0 0 false 0x41)).
  - by vm_compute.
  - reflexivity.
Defined.

Example hex8_example :
  AppManager.hex8 0xDEADBEEF = "deadbeef" ∧ AppManager.hex8 0x2A = "0000002a".
Proof. by vm_compute. Qed.

(** The first start of the installed app takes a slot of the pool. *)
Example first_start_takes_a_slot :
  sandbox_occupancy installed_world = 0%nat
  ∧ fst (AppManager.app_manager_start_app (Some "app_deadbeef") installed_world) = ESP_OK
  ∧ sandbox_occupancy running_world = 1%nat
  ∧ AppManager.find_app (s_installed_apps running_world) "app_deadbeef"
    = Some (0%nat, running_app).
Proof. by vm_compute. Qed.

Example running_world_has_one_sandbox :
  sandbox_occupancy running_world = 1%nat ∧ s_sandbox_count running_world = 1
  ∧ s_current_app_id running_world = "app_deadbeef".
Proof. by vm_compute. Qed.

(** ** Starting twice in a row *)

Lemma keeps_ret {A} (a : A) : keeps_registry (mret a).
Proof. by intros w. Qed.

Lemma keeps_bind {A B} (m : M A) (k : A → M B) :
  keeps_registry m → (∀ a, keeps_registry (k a)) → keeps_registry (m ≫= k).
Proof.
  intros Hm Hk w. unfold mbind, M_bind. specialize (Hm w).
  destruct (m w) as [a w1]. rewrite Hk. exact Hm.
Qed.

Lemma keeps_get_world : keeps_registry get_world.
Proof. by intros w. Qed.

Lemma keeps_log lvl tag fmt : keeps_registry (esp_log lvl tag fmt).
Proof. by intros w. Qed.

Lemma keeps_modify (f : world → world) :
  (∀ w, s_installed_apps (f w) = s_installed_apps w) → keeps_registry (modify f).
Proof. intros Hf w. apply Hf. Qed.

Lemma keeps_tick_ms : keeps_registry tick_ms.
Proof. by intros w. Qed.

Lemma keeps_fopen_r p : keeps_registry (fopen_r p).
Proof. by intros w. Qed.

Lemma keeps_error_check x : keeps_registry (ESP_ERROR_CHECK x).
Proof. unfold ESP_ERROR_CHECK. case_match; [apply keeps_ret|by apply keeps_modify]. Qed.

Create HintDb registry.
#[export] Hint Resolve keeps_ret keeps_get_world keeps_log keeps_tick_ms keeps_fopen_r
  keeps_error_check : registry.

(** Walks down a monadic body: binds, branches, and the writes of other
    fields. *)
Ltac keeps :=
  repeat first
    [ solve [eauto with registry]
    | apply keeps_bind; [|intros ?]
    | apply keeps_modify; intros ?; cbn -[JsApi.set_ffi_funcs]; repeat case_match;
      reflexivity
    | match goal with
      | |- keeps_registry (match ?x with _ => _ end) => destruct x
      | |- keeps_registry (if ?x then _ else _) => destruct x
      | |- keeps_registry (let '(_, _) := ?x in _) => destruct x
      end ].

Lemma keeps_create_context limit : keeps_registry (MjsEngine.mjs_engine_create_context limit).
Proof. unfold MjsEngine.mjs_engine_create_context, MjsEngine.store. keeps. Qed.

Lemma keeps_destroy_context ctx : keeps_registry (MjsEngine.mjs_engine_destroy_context ctx).
Proof. unfold MjsEngine.mjs_engine_destroy_context. keeps. Qed.

Lemma keeps_api_register tag done fs ctx : keeps_registry (JsApi.api_register tag done fs ctx).
Proof. unfold JsApi.api_register, MjsEngine.store. keeps. Qed.

#[export] Hint Resolve keeps_create_context keeps_destroy_context keeps_api_register : registry.

Lemma keeps_register_all ctx : keeps_registry (JsApi.js_api_register_all ctx).
Proof.
  unfold JsApi.js_api_register_all, JsApi.js_rf_api_register, JsApi.js_gpio_api_register,
    JsApi.js_ui_api_register, JsApi.js_storage_api_register,
    JsApi.js_notification_api_register.
  keeps.
Qed.

#[export] Hint Resolve keeps_register_all : registry.

Lemma keeps_sandbox_create id context :
  keeps_registry (AppSandbox.app_sandbox_create id context).
Proof. unfold AppSandbox.app_sandbox_create. keeps. Qed.

Lemma keeps_sandbox_destroy id : keeps_registry (AppSandbox.app_sandbox_destroy id).
Proof. unfold AppSandbox.app_sandbox_destroy. keeps. Qed.

Lemma keeps_load_file ctx file : keeps_registry (MjsEngine.mjs_engine_load_file ctx file).
Proof. unfold MjsEngine.mjs_engine_load_file, MjsEngine.store. keeps. Qed.

Lemma keeps_raise_all h a msgs : keeps_registry (MjsEngine.raise_all h a msgs).
Proof.
  induction msgs as [|msg msgs IH]; cbn [MjsEngine.raise_all]; [apply keeps_ret|].
  apply keeps_bind; [|intros _; exact IH].
  unfold MjsEngine.mjs_error_handler, MjsEngine.call_error_callback. keeps.
Qed.

#[export] Hint Resolve keeps_sandbox_create keeps_sandbox_destroy keeps_load_file
  keeps_raise_all : registry.

Lemma keeps_execute ctx : keeps_registry (MjsEngine.mjs_engine_execute ctx).
Proof.
  unfold MjsEngine.mjs_engine_execute, MjsEngine.mjs_exec, MjsEngine.set_running,
    MjsEngine.call_error_callback.
  keeps.
Qed.

#[export] Hint Resolve keeps_execute : registry.

(** Updating a record in place does not disturb the lookup of its id. *)
Lemma find_app_alter (f : app_info_t → app_info_t) apps id i a :
  (∀ b, app_id_of (f b) = app_id_of b) →
  AppManager.find_app apps id = Some (i, a) →
  AppManager.find_app (alter f i apps) id = Some (i, f a).
Proof.
  intros Hid. revert i. induction apps as [|b apps IH]; intros i; [done|].
  cbn [AppManager.find_app].
  destruct (streq (app_id_of b) id) eqn:Hb.
  - intros [= <- <-]. cbn. by rewrite Hid, Hb.
  - destruct (AppManager.find_app apps id) as [[j c]|] eqn:Hrest; [|done].
    intros [= <- <-]. cbn. rewrite Hb, (IH j eq_refl). done.
Qed.

(** A start that reports success leaves the registry resolving the id to a
    Running record. *)
Lemma start_ok_running w id :
  fst (AppManager.app_manager_start_app (Some id) w) = ESP_OK →
  ∃ i app,
    AppManager.find_app
      (s_installed_apps (snd (AppManager.app_manager_start_app (Some id) w))) id
    = Some (i, app)
    ∧ app_state app = APP_STATE_RUNNING.
Proof.
  unfold AppManager.app_manager_start_app, AppManager.update_app.
  unfold mbind, M_bind, mret, M_ret, esp_log, modify, get_world.
  cbn [fst snd s_installed_apps set_w_log].
  destruct (AppManager.find_app (s_installed_apps w) id) as [[i app]|] eqn:Hf;
    [|intros Hno; discriminate Hno].
  destruct (app_state app) eqn:Hst; [|intros _; by exists i, app| |].
  all: match goal with |- context [AppSandbox.app_sandbox_create ?a ?b ?w0] =>
         pose proof (keeps_sandbox_create a b w0) as K1;
         destruct (AppSandbox.app_sandbox_create a b w0) as [[ret created] w1]
       end;
       cbn in K1;
       (destruct (Z.eqb_spec ret ESP_OK) as [->|Hne]; cbn [negb fst snd];
          [|intros Hr; cbn in Hr; done]);
       match goal with |- context [MjsEngine.mjs_engine_load_file ?c ?f ?w2] =>
         pose proof (keeps_load_file c f w2) as K2;
         destruct (MjsEngine.mjs_engine_load_file c f w2) as [ret2 w3]
       end;
       cbn in K2;
       (destruct (Z.eqb_spec ret2 ESP_OK) as [->|Hne]; cbn [negb fst snd];
          [|destruct (AppSandbox.app_sandbox_destroy (Some id) w3);
            intros Hr; cbn in Hr; done]);
       match goal with |- context [MjsEngine.mjs_engine_execute ?c ?w3'] =>
         pose proof (keeps_execute c w3') as K3;
         destruct (MjsEngine.mjs_engine_execute c w3') as [res w4]
       end;
       cbn in K3;
       (destruct res; cbn [fst snd];
          try (destruct (AppSandbox.app_sandbox_destroy (Some id) w4);
               intros Hno; discriminate Hno));
       intros _; cbn; rewrite K3, K2, K1;
       eexists i, _;
       (split;
          [apply find_app_alter; [by intros []|];
           apply find_app_alter; [by intros []|]; exact Hf
          |reflexivity]).
Qed.

(** Starting an app twice in a row: when the first start reports success,
    the second one reports success too and leaves the sandbox pool, its
    counter and its occupancy as the first start left them. *)
Corollary start_twice_in_a_row w id :
  fst (AppManager.app_manager_start_app (Some id) w) = ESP_OK →
  let w1 := snd (AppManager.app_manager_start_app (Some id) w) in
  fst (AppManager.app_manager_start_app (Some id) w1) = ESP_OK
  ∧ s_sandboxes (snd (AppManager.app_manager_start_app (Some id) w1)) = s_sandboxes w1
  ∧ s_sandbox_count (snd (AppManager.app_manager_start_app (Some id) w1)) = s_sandbox_count w1
  ∧ sandbox_occupancy (snd (AppManager.app_manager_start_app (Some id) w1))
    = sandbox_occupancy w1.
Proof.
  intros Hok w1. destruct (start_ok_running w id Hok) as (i & app & Hf & Hst).
  fold w1 in Hf.
  destruct (start_when_running w1 id i app Hf Hst) as (H1 & H2 & H3 & H4 & _).
  done.
Qed.

(** ** Execution *)

Import MjsEngine.

Lemma mjs_is_error_false v : Mjs.mjs_is_error v = false.
Proof. unfold Mjs.mjs_is_error. apply andb_false_r. Qed.

(** The handler calls leave the platform and the clock alone, and change
    at most the running flag of the context. *)
Lemma raise_all_spec h a msgs c r w :
  w_heap w !! a = Some (with_running c r) →
  ∃ r', w_heap (snd (raise_all h a msgs w)) !! a = Some (with_running c r')
        ∧ w_platform (snd (raise_all h a msgs w)) = w_platform w
        ∧ w_tick_reads (snd (raise_all h a msgs w)) = w_tick_reads w.
Proof.
  revert r w. induction msgs as [|msg msgs IH]; intros r w Hc; [by exists r|].
  cbn [raise_all]. destruct h.
  - unfold mbind, M_bind.
    destruct (mjs_error_handler a msg w) as [u w1] eqn:E1.
    assert (w_heap w1 !! a = Some (with_running c false)
            ∧ w_platform w1 = w_platform w ∧ w_tick_reads w1 = w_tick_reads w)
      as (H1 & H2 & H3).
    { unfold mjs_error_handler, call_error_callback in E1. run.
      destruct (s_error_callback w); cbn in E1; rewrite Hc in E1; injection E1 as <- <-;
        cbn; rewrite lookup_insert_eq; repeat split; reflexivity. }
    destruct (IH false w1 H1) as (r' & Hr & Hp & Ht).
    exists r'. by rewrite Hr, Hp, Ht.
  - unfold mbind, M_bind, mret, M_ret. cbn. by apply (IH r).
Qed.

(** The state in which [mjs_engine_execute] leaves the context, and what
    it returns, for a live context with code and an engine instance. *)
Lemma execute_spec w a c src m :
  w_heap w !! a = Some c → code c = Some src → mjs c = Some m →
  fst (mjs_engine_execute (Some a) w)
  = (if execution_time_limit_ms c <? measured_exec_time w then JS_EXEC_TIMEOUT else JS_EXEC_OK)
  ∧ w_heap (snd (mjs_engine_execute (Some a) w)) !! a
    = Some (with_running (with_mjs c (Some (exec_mjs (run_mjs_exec (w_platform w) m src)))) false).
Proof.
  intros Hc Hsrc Hm. unfold mjs_engine_execute, deref. run.
  rewrite Hc. cbn. rewrite Hsrc, Hm. cbn. rewrite Hc. cbn.
  unfold set_running, tick_ms, mjs_exec. run.
  match goal with |- context [raise_all ?h a ?msgs ?w0] =>
    destruct (raise_all_spec h a msgs c true w0) as (r' & Hr & Hp & Ht);
      [cbn; by rewrite lookup_insert_eq|];
    destruct (raise_all h a msgs w0) as [u w1]
  end.
  cbn in *. rewrite Hr. cbn. rewrite lookup_insert_eq. cbn.
  rewrite mjs_is_error_false, Hp, Ht.
  unfold measured_exec_time, clock_ms.
  split.
  - by destruct (_ <? _).
  - destruct (_ <? _); cbn; by rewrite lookup_insert_eq.
Qed.

(** C2.  For every live context with loaded code and an engine instance:
    when the duration the engine measures around the evaluation exceeds the
    context's [execution_time_limit_ms], the result is [JS_EXEC_TIMEOUT],
    and the engine instance the context holds afterwards is the one the
    complete run of [mjs_exec] produced. *)
Theorem execute_timeout_after_completion w a c src m :
  w_heap w !! a = Some c → code c = Some src → mjs c = Some m →
  execution_time_limit_ms c < measured_exec_time w →
  fst (mjs_engine_execute (Some a) w) = JS_EXEC_TIMEOUT
  ∧ deref (snd (mjs_engine_execute (Some a) w)) (Some a) ≫= mjs
    = Some (exec_mjs (run_mjs_exec (w_platform w) m src))
  ∧ (deref (snd (mjs_engine_execute (Some a) w)) (Some a) ≫= λ c', Some (is_running c'))
    = Some false.
Proof.
  intros Hc Hsrc Hm Ht.
  destruct (execute_spec w a c src m Hc Hsrc Hm) as [Hr Hh].
  apply Z.ltb_lt in Ht. rewrite Ht in Hr.
  unfold deref. cbn. rewrite Hh. done.
Qed.

Lemma execute_timeout_after_completion_witness :
  fst (mjs_engine_execute (Some 0%nat) slow_world) = JS_EXEC_TIMEOUT
  ∧ deref (snd (mjs_engine_execute (Some 0%nat) slow_world)) (Some 0%nat) ≫= mjs
    = Some (exec_mjs (run_mjs_exec (w_platform slow_world) Mjs.mjs_create "var x = 1;"))
  ∧ (deref (snd (mjs_engine_execute (Some 0%nat) slow_world)) (Some 0%nat)
       ≫= λ c', Some (is_running c'))
    = Some false.
Proof.
  apply (execute_timeout_after_completion slow_world 0%nat
           (JsContext (Some Mjs.mjs_create) (Some "loop.js") (Some "var x = 1;") false 65536 5000)
           "var x = 1;" Mjs.mjs_create).
  - by vm_compute.
  - reflexivity.
  - reflexivity.
  - by vm_compute.
Defined.

(** C10.  [mjs_is_error] is false on every value; hence, for every live
    context whose engine instance and loaded code are non-null,
    [mjs_engine_execute] returns [JS_EXEC_OK] or [JS_EXEC_TIMEOUT], never
    [JS_EXEC_ERROR]. *)
Theorem execute_never_reports_error :
  (∀ v, Mjs.mjs_is_error v = false)
  ∧ ∀ w a c src m,
      w_heap w !! a = Some c → code c = Some src → mjs c = Some m →
      (fst (mjs_engine_execute (Some a) w) = JS_EXEC_OK
       ∨ fst (mjs_engine_execute (Some a) w) = JS_EXEC_TIMEOUT)
      ∧ fst (mjs_engine_execute (Some a) w) ≠ JS_EXEC_ERROR.
Proof.
  split; [apply mjs_is_error_false|].
  intros w a c src m Hc Hsrc Hm.
  destruct (execute_spec w a c src m Hc Hsrc Hm) as [-> _].
  destruct (_ <? _); split; auto; discriminate.
Qed.

Lemma execute_never_reports_error_witness :
  (fst (mjs_engine_execute (Some 0%nat) running_world) = JS_EXEC_OK
   ∨ fst (mjs_engine_execute (Some 0%nat) running_world) = JS_EXEC_TIMEOUT)
  ∧ fst (mjs_engine_execute (Some 0%nat) running_world) ≠ JS_EXEC_ERROR.
Proof.
  apply (proj2 execute_never_reports_error running_world 0%nat
           (default (JsContext None None None false 0 0) (w_heap running_world !! 0%nat))
           tester_package
           (default Mjs.mjs_create (w_heap running_world !! 0%nat ≫= mjs))).
  - by vm_compute.
  - by vm_compute.
  - by vm_compute.
Defined.

(** ** The native bridge *)

(** C1, the code at the failing input.  For a live context whose owning
    app lacks the rf.transmit bit, in the registry and in the Permission
    Store alike, the native function behind [rf.transmit] still calls the
    radio's transmit operation once, with the test pattern; when the radio
    reports success the script receives [undefined], not an error value.
    The engine's own [mjs_engine_check_permission] grants the request. *)
Theorem rf_transmit_ignores_permissions w id i app c :
  AppManager.find_app (s_installed_apps w) id = Some (i, app) →
  MjsEngine.deref w (app_js_context app) = Some c →
  fst (AppManager.app_manager_check_permission (Some id) APP_PERM_RF_TRANSMIT w) = false →
  fst (PermissionStore.app_permissions_check (Some id) APP_PERM_RF_TRANSMIT w) = false →
  radio_tx_calls
    (w_radio (snd (JsApi.js_rf_transmit (MjsEngine.deref w (app_js_context app) ≫= mjs) w)))
  = (radio_tx_calls (w_radio w) ++ [JsApi.test_data])%list
  ∧ (radio_tx_result (w_radio w) = ESP_OK →
     fst (JsApi.js_rf_transmit (MjsEngine.deref w (app_js_context app) ≫= mjs) w)
     = MJS_UNDEFINED)
  ∧ fst (MjsEngine.mjs_engine_check_permission (app_js_context app) (Some "rf.transmit") w)
    = true.
Proof.
  intros _ Hd _ _. unfold JsApi.js_rf_transmit, cc1101_transmit.
  unfold mbind, M_bind, mret, M_ret, esp_log, modify, get_world.
  split; [|split].
  - by destruct (negb _).
  - intros ->. done.
  - unfold MjsEngine.deref in Hd. by destruct (app_js_context app).
Qed.

Lemma rf_transmit_ignores_permissions_witness :
  radio_tx_calls
    (w_radio (snd (JsApi.js_rf_transmit
                     (MjsEngine.deref running_world (app_js_context running_app) ≫= mjs)
                     running_world)))
  = (radio_tx_calls (w_radio running_world) ++ [JsApi.test_data])%list
  ∧ (radio_tx_result (w_radio running_world) = ESP_OK →
     fst (JsApi.js_rf_transmit
            (MjsEngine.deref running_world (app_js_context running_app) ≫= mjs) running_world)
     = MJS_UNDEFINED)
  ∧ fst (MjsEngine.mjs_engine_check_permission (app_js_context running_app)
           (Some "rf.transmit") running_world)
    = true.
Proof.
  apply (rf_transmit_ignores_permissions running_world "app_deadbeef" 0 running_app
           (default (JsContext None None None false 0 0) (w_heap running_world !! 0%nat))).
  - vm_compute. reflexivity.
  - vm_compute. reflexivity.
  - vm_compute. reflexivity.
  - vm_compute. reflexivity.
Defined.

Example rf_transmit_without_permission :
  Z.land (app_permissions running_app) APP_PERM_RF_TRANSMIT = 0
  ∧ radio_tx_calls (w_radio running_world) = []
  ∧ radio_tx_calls
      (w_radio (snd (JsApi.js_rf_transmit
                       (MjsEngine.deref running_world (app_js_context running_app) ≫= mjs)
                       running_world)))
    = [[0x12; 0x34; 0x56; 0x78; 0xAB; 0xCD; 0xEF]]
  ∧ fst (JsApi.js_rf_transmit
           (MjsEngine.deref running_world (app_js_context running_app) ≫= mjs) running_world)
    = MJS_UNDEFINED.
Proof. vm_compute. done. Qed.

(** ** Installing a package *)

(** What the file calls do to the file system, and that they leave the
    registry, the platform and the random source alone. *)
Lemma fopen_w_ok p w w' :
  fopen_w p w = (true, w') →
  fs_files (w_fs w') = (<[p := ""]> (fs_files (w_fs w)))
  ∧ fs_dirs (w_fs w') = fs_dirs (w_fs w) ∧ (p ∉ fs_dirs (w_fs w))
  ∧ s_installed_apps w' = s_installed_apps w ∧ w_platform w' = w_platform w
  ∧ w_random_reads w' = w_random_reads w.
Proof.
  unfold fopen_w. destruct (fs_read_only (w_fs w)); cbn; [done|].
  case_bool_decide; [done|]. intros [= <-]. done.
Qed.

Lemma fopen_w_fails p w w' :
  fopen_w p w = (false, w') →
  w' = w ∧ (fs_read_only (w_fs w) = true ∨ p ∈ fs_dirs (w_fs w)).
Proof.
  unfold fopen_w. destruct (fs_read_only (w_fs w)); cbn; [intros [= <-]; auto|].
  case_bool_decide; [|done]. intros [= <-]. auto.
Qed.

Lemma mkdir_ok p w w' :
  mkdir p w = (true, w') →
  fs_read_only (w_fs w') = false
  ∧ s_installed_apps w' = s_installed_apps w ∧ w_platform w' = w_platform w
  ∧ w_random_reads w' = w_random_reads w.
Proof.
  unfold mkdir. destruct (fs_read_only (w_fs w)) eqn:E; cbn; [done|].
  destruct (path_exists _ _); [done|]. intros [= <-]. done.
Qed.

(** After a successful extraction the manifest in the new directory is
    the synthesized one (or cannot be opened at all). *)
Lemma extract_ok package dir w w' :
  AppInstaller.app_installer_extract_package (Some package) (Some dir) w = (ESP_OK, w') →
  s_installed_apps w' = s_installed_apps w ∧ w_platform w' = w_platform w
  ∧ w_random_reads w' = w_random_reads w
  ∧ (fst (fopen_r (snprintf 256 (dir ++ "/manifest.json")) w') = None
     ∨ fst (fopen_r (snprintf 256 (dir ++ "/manifest.json")) w')
       = Some synthesized_manifest_text).
Proof.
  unfold AppInstaller.app_installer_extract_package.
  unfold mbind, M_bind, mret, M_ret, esp_log, modify, get_world.
  set (mpath := snprintf 256 (dir ++ "/manifest.json")).
  set (ipath := snprintf 256 (dir ++ "/index.js")).
  destruct (mkdir dir _) as [made w1] eqn:Hmk.
  destruct made; cbn; [|done].
  apply mkdir_ok in Hmk as (Hro1 & Ha1 & Hp1 & Hr1). cbn in Ha1, Hp1, Hr1.
  destruct (fopen_r package w1) as [src w1'] eqn:Hsrc.
  assert (w1' = w1) as -> by (unfold fopen_r in Hsrc; by injection Hsrc).
  destruct src as [text|]; [|done].
  destruct (fopen_w ipath w1) as [dst w2] eqn:Hdst.
  destruct dst; cbn; [|done].
  assert (fs_read_only (w_fs w2) = false) as Hro2.
  { unfold fopen_w in Hdst. rewrite Hro1 in Hdst. cbn in Hdst.
    case_bool_decide; [done|]. injection Hdst as <-. by cbn. }
  apply fopen_w_ok in Hdst as (_ & _ & _ & Ha2 & Hp2 & Hr2).
  destruct (fopen_r package w2) as [content w2'] eqn:Hc.
  assert (w2' = w2) as -> by (unfold fopen_r in Hc; by injection Hc).
  unfold fappend at 1. unfold modify.
  match goal with |- context [fopen_w mpath ?w3] =>
    destruct (fopen_w mpath w3) as [manifest w4] eqn:Hm
  end.
  destruct manifest.
  - apply fopen_w_ok in Hm as (Hf4 & Hd4 & Hnd & Ha4 & Hp4 & Hr4).
    cbn in Hf4, Hd4, Hnd, Ha4, Hp4, Hr4.
    unfold fappend, modify. intros [= <-].
    split; [cbn; by rewrite Ha4, Ha2, Ha1|].
    split; [cbn; by rewrite Hp4, Hp2, Hp1|].
    split; [cbn; by rewrite Hr4, Hr2, Hr1|].
    right. unfold fopen_r. cbn. rewrite Hd4.
    rewrite bool_decide_eq_false_2 by done.
    rewrite !lookup_insert_eq. cbn. rewrite Hf4, lookup_insert_eq. reflexivity.
  - apply fopen_w_fails in Hm as (-> & Hwhy). cbn in Hwhy. intros [= <-].
    split; [cbn; by rewrite Ha2, Ha1|].
    split; [cbn; by rewrite Hp2, Hp1|].
    split; [cbn; by rewrite Hr2, Hr1|].
    left. destruct Hwhy as [Hwhy|Hin]; [congruence|].
    unfold fopen_r. cbn. by rewrite bool_decide_eq_true_2.
Qed.

(** Reading the synthesized manifest. *)
Lemma load_manifest_ok path w ret loaded w' :
  ManifestLoader.mjs_engine_load_manifest (Some path) true w = ((ret, loaded), w') →
  ret = ESP_OK →
  fst (fopen_r path w) = None ∨ fst (fopen_r path w) = Some synthesized_manifest_text →
  loaded = Some synthesized_manifest
  ∧ s_installed_apps w' = s_installed_apps w ∧ w_platform w' = w_platform w.
Proof.
  unfold ManifestLoader.mjs_engine_load_manifest.
  unfold mbind, M_bind, mret, M_ret, esp_log, modify, get_world.
  destruct (fopen_r path _) as [content w1] eqn:Hr.
  unfold fopen_r in *. cbn in *. injection Hr as Hc <-.
  intros H -> [Hn|Hs].
  - assert (content = None) as -> by congruence. discriminate H.
  - assert (content = Some synthesized_manifest_text) as -> by congruence.
    injection H as <- <-. split; [|done]. vm_compute. reflexivity.
Qed.

(** The paths of an install fit their buffers. *)
Lemma install_paths r :
  let id := snprintf 32 ("app_" ++ AppManager.hex8 r) in
  let install_path := snprintf AppManager.MAX_APP_PATH_LEN ("/apps/" ++ id) in
  snprintf AppManager.MAX_APP_PATH_LEN (install_path ++ "/manifest.json")
  = snprintf 256 (install_path ++ "/manifest.json").
Proof.
  unfold AppManager.hex8. cbn [map cstr string_of_list_ascii].
  repeat match goal with
  | |- context [AppManager.hex_digit ?x] => generalize (AppManager.hex_digit x); intros ?
  end.
  reflexivity.
Qed.

(** The lookup loop on a registry that does not know the id, before and
    after a record for it is appended. *)
Lemma find_app_none apps id :
  AppManager.find_app apps id = None →
  filter (λ a, app_id_of a = id) apps = [].
Proof.
  induction apps as [|a apps IH]; [done|]. cbn [AppManager.find_app].
  unfold streq. destruct (String.eqb_spec (app_id_of a) id) as [|Hne]; [done|].
  destruct (AppManager.find_app apps id) as [[i b]|]; [done|].
  intros _. rewrite filter_cons, decide_False by done. by apply IH.
Qed.

Lemma find_app_last apps a :
  AppManager.find_app apps (app_id_of a) = None →
  AppManager.find_app (apps ++ [a]) (app_id_of a) = Some (List.length apps, a).
Proof.
  induction apps as [|b apps IH]; cbn [AppManager.find_app app List.length].
  - unfold streq. by rewrite String.eqb_refl.
  - destruct (streq (app_id_of b) (app_id_of a)); [done|].
    destruct (AppManager.find_app apps (app_id_of a)) as [[i c]|]; [done|].
    intros _. by rewrite IH.
Qed.

Lemma parse_permissions_synthesized w :
  fst (AppManager.parse_permissions "rf.receive,ui.create" w)
  = (if heap_ok (w_platform w) then Z.lor APP_PERM_RF_RECEIVE APP_PERM_UI_CREATE else 0)
  ∧ s_installed_apps (snd (AppManager.parse_permissions "rf.receive,ui.create" w))
    = s_installed_apps w.
Proof.
  unfold AppManager.parse_permissions.
  unfold mbind, M_bind, mret, M_ret, esp_log, modify, get_world.
  by destruct (heap_ok (w_platform w)).
Qed.

(** The registry after a successful install. *)
Lemma install_ok_registry w package id w' :
  AppManager.app_manager_install (Some package) true w = ((ESP_OK, Some id), w') →
  AppManager.find_app (s_installed_apps w) id = None →
  ∃ app,
    filter (λ a, app_id_of a = id)
      (snd (fst (fst (AppManager.app_manager_list_apps true MAX_INSTALLED_APPS true w'))))
    = [app]
    ∧ app_name app = "Sample App" ∧ app_version app = "1.0.0"
    ∧ app_entry_point app = "index.js" ∧ app_state app = APP_STATE_STOPPED
    ∧ (heap_ok (w_platform w) = true →
       app_permissions app = Z.lor APP_PERM_RF_RECEIVE APP_PERM_UI_CREATE)
    ∧ fst (AppManager.app_manager_check_permission (Some id) APP_PERM_GPIO_READ w') = false
    ∧ fst (AppManager.app_manager_check_permission (Some id) APP_PERM_GPIO_WRITE w') = false.
Proof.
  unfold AppManager.app_manager_install.
  unfold mbind, M_bind, mret, M_ret, esp_log, modify, get_world, esp_random.
  unfold s_num_installed_apps. cbn -[Nat.leb].
  destruct (Nat.leb MAX_INSTALLED_APPS (List.length (s_installed_apps w))) eqn:Hcap;
    [intros Hno; discriminate Hno|].
  apply Nat.leb_gt in Hcap. unfold MAX_INSTALLED_APPS in Hcap. cbn.
  set (r := wrap32 (random_source (w_platform w) (w_random_reads w))).
  pose proof (install_paths r) as Hpaths. cbv zeta in Hpaths.
  unfold AppManager.MAX_APP_PATH_LEN in *.
  set (id0 := snprintf 32 ("app_" ++ AppManager.hex8 r)) in *.
  set (install_path := snprintf 128 ("/apps/" ++ id0)) in *.
  destruct (AppInstaller.app_installer_extract_package _ _ _) as [ret1 w2] eqn:He.
  destruct (Z.eqb_spec ret1 ESP_OK) as [->|Hne]; cbn [negb]; [|intros [= Hr]; done].
  apply extract_ok in He as (Ha2 & Hp2 & _ & Hm). cbn in Ha2, Hp2.
  rewrite Hpaths.
  destruct (ManifestLoader.mjs_engine_load_manifest _ _ w2) as [[ret2 loaded] w3] eqn:Hl.
  destruct (Z.eqb_spec ret2 ESP_OK) as [->|Hne]; cbn [negb]; [|intros [= Hr]; done].
  apply load_manifest_ok in Hl as (-> & Ha3 & Hp3); [|done|done].
  cbn [default synthesized_manifest m_permissions m_name m_version m_author m_entry_point].
  pose proof (parse_permissions_synthesized w3) as [Hperm Ha4].
  destruct (AppManager.parse_permissions _ w3) as [permissions w4].
  cbn in Hperm, Ha4. intros [= <- <-] Hfresh.
  cbn [s_installed_apps set_w_log set_s_installed_apps].
  rewrite Ha4, Ha3, Ha2.
  eexists. split_and!.
  - unfold AppManager.app_manager_list_apps.
    unfold mbind, M_bind, mret, M_ret, get_world. cbn -[Nat.ltb Nat.leb].
    unfold s_num_installed_apps. cbn -[Nat.ltb Nat.leb]. rewrite ?Ha4, ?Ha3, ?Ha2.
    rewrite length_app. cbn [List.length].
    replace (Nat.ltb MAX_INSTALLED_APPS (List.length (s_installed_apps w) + 1)) with false
      by (symmetry; apply Nat.ltb_ge; unfold MAX_INSTALLED_APPS; lia).
    rewrite firstn_all2 by (rewrite length_app; cbn; lia).
    rewrite filter_app, (find_app_none _ _ Hfresh), filter_cons, decide_True by done.
    reflexivity.
  - reflexivity.
  - reflexivity.
  - reflexivity.
  - reflexivity.
  - intros Hheap. cbn. rewrite Hperm, Hp3, Hp2, Hheap. reflexivity.
  - unfold AppManager.app_manager_check_permission.
    unfold mbind, M_bind, mret, M_ret, get_world. cbn. rewrite ?Ha4, ?Ha3, ?Ha2.
    match goal with |- context [(_ ++ [?a])%list] =>
      pose proof (find_app_last (s_installed_apps w) a Hfresh) as Hlast
    end.
    cbn [app_id_of] in Hlast. rewrite Hlast.
    cbn. rewrite Hperm. by destruct (heap_ok _).
  - unfold AppManager.app_manager_check_permission.
    unfold mbind, M_bind, mret, M_ret, get_world. cbn. rewrite ?Ha4, ?Ha3, ?Ha2.
    match goal with |- context [(_ ++ [?a])%list] =>
      pose proof (find_app_last (s_installed_apps w) a Hfresh) as Hlast
    end.
    cbn [app_id_of] in Hlast. rewrite Hlast.
    cbn. rewrite Hperm. by destruct (heap_ok _).
Qed.

(** C4 (amended).  After a successful install, whatever manifest the
    package text declares, [list_apps] contains exactly one record for the
    new id (given that no earlier record carries it); the record holds the
    manifest the installer synthesizes, name Sample App, version 1.0.0,
    entry point index.js, in state Stopped, with the bits of rf.receive and
    ui.create when the permission string could be copied; both
    [check_permission(id, GPIO_READ)] and [check_permission(id, GPIO_WRITE)]
    answer false. *)
Theorem install_registers_synthesized_manifest w package id :
  fst (AppManager.app_manager_install (Some package) true w) = (ESP_OK, Some id) →
  AppManager.find_app (s_installed_apps w) id = None →
  ∃ app,
    filter (λ a, app_id_of a = id)
      (snd (fst (fst (AppManager.app_manager_list_apps true MAX_INSTALLED_APPS true
                        (snd (AppManager.app_manager_install (Some package) true w))))))
    = [app]
    ∧ app_name app = "Sample App" ∧ app_version app = "1.0.0"
    ∧ app_entry_point app = "index.js" ∧ app_state app = APP_STATE_STOPPED
    ∧ (heap_ok (w_platform w) = true →
       app_permissions app = Z.lor APP_PERM_RF_RECEIVE APP_PERM_UI_CREATE)
    ∧ fst (AppManager.app_manager_check_permission (Some id) APP_PERM_GPIO_READ
             (snd (AppManager.app_manager_install (Some package) true w))) = false
    ∧ fst (AppManager.app_manager_check_permission (Some id) APP_PERM_GPIO_WRITE
             (snd (AppManager.app_manager_install (Some package) true w))) = false.
Proof.
  intros H Hfresh.
  apply (install_ok_registry w package id); [|done].
  rewrite <- H. apply surjective_pairing.
Qed.

Lemma install_registers_synthesized_manifest_witness :
  ∃ app,
    filter (λ a, app_id_of a = "app_deadbeef")
      (snd (fst (fst (AppManager.app_manager_list_apps true MAX_INSTALLED_APPS true
                        (snd (AppManager.app_manager_install (Some "/sd/tester.pkg") true
                                boot_world))))))
    = [app]
    ∧ app_name app = "Sample App" ∧ app_version app = "1.0.0"
    ∧ app_entry_point app = "index.js" ∧ app_state app = APP_STATE_STOPPED
    ∧ (heap_ok (w_platform boot_world) = true →
       app_permissions app = Z.lor APP_PERM_RF_RECEIVE APP_PERM_UI_CREATE)
    ∧ fst (AppManager.app_manager_check_permission (Some "app_deadbeef") APP_PERM_GPIO_READ
             (snd (AppManager.app_manager_install (Some "/sd/tester.pkg") true boot_world)))
      = false
    ∧ fst (AppManager.app_manager_check_permission (Some "app_deadbeef") APP_PERM_GPIO_WRITE
             (snd (AppManager.app_manager_install (Some "/sd/tester.pkg") true boot_world)))
      = false.
Proof.
  apply (install_registers_synthesized_manifest boot_world "/sd/tester.pkg" "app_deadbeef").
  - vm_compute. reflexivity.
  - vm_compute. reflexivity.
Defined.

(** What the package text declares, read by the manifest reader itself:
    had this manifest been the one installed, the app would be Tester with
    the bits of gpio.read and rf.transmit. *)
Example tester_package_declares :
  let m := ManifestLoader.apply_defaults
             (fold_left (λ m line, ManifestLoader.parse_line line m)
                (ManifestLoader.fgets_lines 255 [] (chars tester_package))
                ManifestLoader.manifest_zero) in
  m_name m = "Tester" ∧ m_version m = "0.1" ∧ m_entry_point m = "index.js"
  ∧ m_permissions m = "gpio.read,rf.transmit"
  ∧ AppPermissions.app_permissions_parse_string true (Some (m_permissions m))
    = Z.lor APP_PERM_GPIO_READ APP_PERM_RF_TRANSMIT.
Proof. vm_compute. done. Qed.

(** C4, as claimed: the package on the demo device declares Tester, 0.1,
    index.js and gpio.read,rf.transmit; after its install the one listed
    record is called Sample App and the check for GPIO_READ answers false. *)
Lemma install_tester_package :
  fs_files (w_fs boot_world) !! "/sd/tester.pkg" = Some tester_package
  ∧ fst (AppManager.app_manager_install (Some "/sd/tester.pkg") true boot_world)
    = (ESP_OK, Some "app_deadbeef")
  ∧ map app_name
      (snd (fst (fst (AppManager.app_manager_list_apps true MAX_INSTALLED_APPS true
                        installed_world))))
    = ["Sample App"]
  ∧ "Sample App" ≠ "Tester"
  ∧ fst (AppManager.app_manager_check_permission (Some "app_deadbeef") APP_PERM_GPIO_READ
           installed_world) = false.
Proof. vm_compute. split_and!; try reflexivity. discriminate. Qed.

(** ** More on permission lists *)

(** The parse as a fold over the tokens, whatever the arguments. *)
Lemma parse_string_fold P :
  app_permissions_parse_string true (Some P)
  = fold_left parse_step (nonempty_fields (chars P)) 0.
Proof. unfold app_permissions_parse_string. by rewrite parse_loop_fold by lia. Qed.

Lemma fold_parse_step_lor ts acc :
  fold_left parse_step ts acc = Z.lor acc (fold_left parse_step ts 0).
Proof.
  revert acc. induction ts as [|t ts IH]; intros acc; cbn [fold_left].
  - by rewrite Z.lor_0_r.
  - rewrite (IH (parse_step acc t)), (IH (parse_step 0 t)).
    unfold parse_step. rewrite !match_permission_flag, Z.lor_0_l, Z.lor_assoc. done.
Qed.

Lemma flag_of_range tok : 0 ≤ flag_of permission_map tok < 512.
Proof.
  unfold permission_map. cbn [flag_of].
  repeat (destruct (streq tok _); [vm_compute; split; [discriminate|reflexivity]|]).
  lia.
Qed.

Lemma lor_below a b n : 0 ≤ n → 0 ≤ a < 2 ^ n → 0 ≤ b < 2 ^ n → 0 ≤ Z.lor a b < 2 ^ n.
Proof.
  intros Hn Ha Hb. split; [apply Z.lor_nonneg; lia|].
  destruct (Z.eq_dec (Z.lor a b) 0) as [->|Hnz]; [apply Z.pow_pos_nonneg; lia|].
  apply Z.log2_lt_pow2; [pose proof (proj2 (Z.lor_nonneg a b)); lia|].
  rewrite Z.log2_lor by lia.
  destruct (Z.eq_dec a 0) as [->|Ha0]; destruct (Z.eq_dec b 0) as [->|Hb0].
  - done.
  - rewrite Z.max_r by (cbn; apply Z.log2_nonneg). apply Z.log2_lt_pow2; lia.
  - rewrite Z.max_l by (cbn; apply Z.log2_nonneg). apply Z.log2_lt_pow2; lia.
  - apply Z.max_lub_lt; apply Z.log2_lt_pow2; lia.
Qed.

Lemma fold_parse_step_range ts acc :
  0 ≤ acc < 512 → 0 ≤ fold_left parse_step ts acc < 512.
Proof.
  revert acc. induction ts as [|t ts IH]; intros acc Hacc; [done|].
  cbn [fold_left]. apply IH. unfold parse_step. rewrite match_permission_flag.
  apply (lor_below _ _ 9); [lia|exact Hacc|apply flag_of_range].
Qed.

(** X1.  Whatever the text (NULL included) and whether or not the copy of
    it can be allocated, the parsed bitset uses the nine defined permission
    bits only. *)
Theorem parse_string_within_defined_bits strdup_ok P :
  0 ≤ app_permissions_parse_string strdup_ok P < 512.
Proof.
  destruct P as [P|]; [|done]. destruct strdup_ok; [|done].
  rewrite parse_string_fold. by apply fold_parse_step_range.
Qed.

Lemma comma_fields_app x y :
  comma_fields (x ++ COMMA :: y)%list = (comma_fields x ++ comma_fields y)%list.
Proof.
  induction x as [|c x IH]; [done|].
  cbn [app comma_fields]. rewrite IH.
  destruct (ascii_eqb c COMMA); [done|].
  destruct (comma_fields x) as [|f fs] eqn:E; [|done].
  exfalso. destruct x as [|d x]; [done|]. cbn in E.
  destruct (ascii_eqb d COMMA); [done|]. by destruct (comma_fields x).
Qed.

Lemma chars_app (a b : string) : chars (a ++ b) = (chars a ++ chars b)%list.
Proof.
  induction a as [|c a IH]; [done|].
  change (c :: chars (a ++ b) = c :: (chars a ++ chars b)%list). by rewrite IH.
Qed.

(** X2.  Joining two permission lists with a comma parses to the union of
    what they parse to; so neither the order of the names nor a repeated
    name matters. *)
Theorem parse_string_comma_union (a b : string) :
  app_permissions_parse_string true (Some (a ++ "," ++ b))
  = Z.lor (app_permissions_parse_string true (Some a))
          (app_permissions_parse_string true (Some b)).
Proof.
  rewrite !parse_string_fold, !chars_app.
  change (chars ",") with [COMMA]. cbn [app].
  unfold nonempty_fields. rewrite comma_fields_app, List.filter_app, fold_left_app.
  by rewrite fold_parse_step_lor.
Qed.

Lemma has_flag_mask b name flag :
  In (name, flag) permission_map → has_flag (Z.land b 0x1FF) flag = has_flag b flag.
Proof.
  intros Hin. unfold has_flag. rewrite <- Z.land_assoc.
  replace (Z.land 511 flag) with flag; [done|].
  unfold permission_map in Hin. cbn in Hin.
  repeat (destruct Hin as [[= <- <-]|Hin]; [reflexivity|]). done.
Qed.

Lemma to_string_mask b :
  app_permissions_to_string b = app_permissions_to_string (Z.land b 0x1FF).
Proof.
  unfold app_permissions_to_string. rewrite !to_string_loop_join.
  replace (selected permission_map (Z.land b 511)) with (selected permission_map b); [done|].
  rewrite (selected_names b (λ n, existsb (λ e, streq (fst e) n && has_flag b (snd e))
                                     permission_map)).
  - rewrite (selected_names (Z.land b 511)
               (λ n, existsb (λ e, streq (fst e) n && has_flag b (snd e)) permission_map)).
    + done.
    + intros n f Hin. rewrite (has_flag_mask _ _ _ Hin).
      unfold permission_map in *. cbn in Hin.
      repeat (destruct Hin as [[= <- <-]|Hin];
              [cbn; by destruct (has_flag b _)|]). done.
  - intros n f Hin.
    unfold permission_map in *. cbn in Hin.
    repeat (destruct Hin as [[= <- <-]|Hin];
            [cbn; by destruct (has_flag b _)|]). done.
Qed.

Lemma land_mask_range b : 0 ≤ Z.land b 0x1FF < 512.
Proof.
  change 511 with (Z.ones 9). rewrite Z.land_ones by lia.
  apply Z.mod_pos_bound. lia.
Qed.

Lemma roundtrip_table_ok : roundtrip_table = true.
Proof. vm_compute. reflexivity. Qed.

Lemma roundtrip_below b :
  0 ≤ b < 512 →
  app_permissions_parse_string true (Some (app_permissions_to_string b)) = b
  ∧ (String.length (app_permissions_to_string b) ≤ 95)%nat.
Proof.
  intros Hb. pose proof roundtrip_table_ok as H. unfold roundtrip_table in H.
  rewrite forallb_forall in H. specialize (H (Z.to_nat b)).
  rewrite Z2Nat.id in H by lia. cbv zeta in H.
  assert (In (Z.to_nat b) (seq 0 512)) as Hin by (apply in_seq; lia).
  apply H in Hin. apply andb_prop in Hin as [H1 H2].
  split; [by apply Z.eqb_eq|by apply Nat.leb_le].
Qed.

(** X3.  Printing a bitset and parsing the text again gives back the nine
    defined permission bits of it; bits above them are dropped. *)
Theorem parse_of_to_string b :
  app_permissions_parse_string true (Some (app_permissions_to_string b)) = Z.land b 0x1FF.
Proof.
  rewrite to_string_mask. apply roundtrip_below, land_mask_range.
Qed.

(** X4.  The text of any bitset is at most 95 characters long: the
    [strcat] calls stay inside the 256-byte buffer [perm_str]. *)
Theorem to_string_fits_buffer b :
  (String.length (app_permissions_to_string b) ≤ 95)%nat
  ∧ (String.length (app_permissions_to_string b) < 256)%nat.
Proof.
  rewrite to_string_mask.
  pose proof (proj2 (roundtrip_below _ (land_mask_range b))). lia.
Qed.

(** ** More on the Permission Store *)

(** ** Frames *)

Lemma preserves_ret {A B} (π : world → B) (a : A) : preserves π (mret a).
Proof. by intros w. Qed.

Lemma preserves_bind {A B C} (π : world → C) (m : M A) (k : A → M B) :
  preserves π m → (∀ a, preserves π (k a)) → preserves π (m ≫= k).
Proof.
  intros Hm Hk w. unfold mbind, M_bind. specialize (Hm w).
  destruct (m w) as [a w1]. rewrite Hk. exact Hm.
Qed.

Lemma preserves_get_world {B} (π : world → B) : preserves π get_world.
Proof. by intros w. Qed.

Lemma preserves_modify {B} (π : world → B) (f : world → world) :
  (∀ w, π (f w) = π w) → preserves π (modify f).
Proof. intros Hf w. apply Hf. Qed.

Create HintDb frames.
#[export] Hint Resolve preserves_ret preserves_get_world : frames.

Ltac frame :=
  repeat first
    [ solve [eauto with frames]
    | apply preserves_bind; [|intros ?]
    | apply preserves_modify; intros ?; cbn -[JsApi.set_ffi_funcs]; repeat case_match;
      reflexivity
    | match goal with
      | |- preserves _ tick_ms => intros ?; reflexivity
      | |- preserves _ esp_random => intros ?; reflexivity
      | |- preserves _ (fopen_r _) => intros ?; reflexivity
      | |- preserves _ (esp_log _ _ _) => intros ?; reflexivity
      | |- preserves _ (ESP_ERROR_CHECK _) => unfold ESP_ERROR_CHECK
      | |- preserves _ (match ?x with _ => _ end) => destruct x
      | |- preserves _ (if ?x then _ else _) => destruct x
      | |- preserves _ (let '(_, _) := ?x in _) => destruct x
      end ].

Lemma stored_put_ne n id id' v : id' ≠ id → stored (nvs_put n id v) id' = stored n id'.
Proof.
  intros Hne. unfold stored, nvs_put. cbn. rewrite lookup_insert_ne by done.
  by destruct (nvs_entries n).
Qed.

(** The Permission Store writes the NVS and the log, nothing else. *)
Lemma store_keeps_registry_load id c : preserves s_installed_apps (app_permissions_load id c).
Proof.
  unfold app_permissions_load, nvs_open, nvs_get_u32, esp_log. 
  destruct id, c; try apply preserves_ret.
  intros w. unfold mbind, M_bind, mret, M_ret, modify. cbn.
  repeat (case_match; cbn; simplify_eq); try done.
Qed.

Lemma store_keeps_registry_save id v : preserves s_installed_apps (app_permissions_save id v).
Proof.
  unfold app_permissions_save, nvs_open, nvs_set_u32, nvs_commit, esp_log.
  destruct id; try apply preserves_ret.
  intros w. unfold mbind, M_bind, mret, M_ret, modify. cbn.
  repeat (case_match; cbn; simplify_eq); try done.
Qed.

(** X5.  Granting and revoking in the Permission Store never reaches the
    registry: whatever is granted to or revoked from whichever app, the
    answers of [app_manager_check_permission] stay what they were. *)
Theorem store_never_changes_registry_check id p id' q w :
  fst (AppManager.app_manager_check_permission id' q (snd (app_permissions_grant id p w)))
  = fst (AppManager.app_manager_check_permission id' q w)
  ∧ fst (AppManager.app_manager_check_permission id' q (snd (app_permissions_revoke id p w)))
    = fst (AppManager.app_manager_check_permission id' q w).
Proof.
  assert (preserves s_installed_apps (app_permissions_grant id p)) as Hg.
  { unfold app_permissions_grant. destruct id; [|apply preserves_ret].
    pose proof (store_keeps_registry_load (Some s) (Some 0)).
    pose proof (store_keeps_registry_save (Some s)).
    unfold esp_log. frame. }
  assert (preserves s_installed_apps (app_permissions_revoke id p)) as Hr.
  { unfold app_permissions_revoke. destruct id; [|apply preserves_ret].
    pose proof (store_keeps_registry_load (Some s) (Some 0)).
    pose proof (store_keeps_registry_save (Some s)).
    unfold esp_log. frame. }
  unfold AppManager.app_manager_check_permission.
  unfold mbind, M_bind, mret, M_ret, get_world.
  destruct id' as [i|]; [|done]. cbn. rewrite (Hg w), (Hr w).
  by destruct (AppManager.find_app _ _) as [[? ?]|].
Qed.

(** X6.  With a working store, what is saved for an app is what the next
    load returns for it, and the load of any other app returns what it
    returned before the save. *)
Theorem save_then_load id id' v c w :
  nvs_healthy (w_nvs w) →
  fst (app_permissions_load (Some id) (Some c) (snd (app_permissions_save (Some id) v w)))
  = (ESP_OK, Some v)
  ∧ (id' ≠ id →
     fst (app_permissions_load (Some id') (Some c) (snd (app_permissions_save (Some id) v w)))
     = fst (app_permissions_load (Some id') (Some c) w)).
Proof.
  intros H. destruct (save_healthy id v w H) as [_ Hn].
  assert (nvs_healthy (w_nvs (snd (app_permissions_save (Some id) v w)))) as H1
    by (by rewrite Hn).
  split.
  - rewrite (proj1 (load_healthy id c _ H1)), Hn, stored_put. done.
  - intros Hne. rewrite (proj1 (load_healthy id' c _ H1)), (proj1 (load_healthy id' c _ H)), Hn.
    by rewrite stored_put_ne.
Qed.

Lemma save_then_load_witness :
  fst (app_permissions_load (Some "app_deadbeef") (Some 0)
         (snd (app_permissions_save (Some "app_deadbeef") 0x41 boot_world)))
  = (ESP_OK, Some 0x41)
  ∧ ("app_000000aa" ≠ "app_deadbeef" →
     fst (app_permissions_load (Some "app_000000aa") (Some 0)
            (snd (app_permissions_save (Some "app_deadbeef") 0x41 boot_world)))
     = fst (app_permissions_load (Some "app_000000aa") (Some 0) boot_world)).
Proof.
  apply (save_then_load "app_deadbeef" "app_000000aa" 0x41 0 boot_world).
  repeat split; reflexivity.
Defined.

(** What a load into a cell that holds 0 returns, by the state of the
    NVS. *)
Lemma load_cases id w :
  fst (app_permissions_load (Some id) (Some 0) w)
  = if negb (nvs_open_fault (w_nvs w) =? ESP_OK) then (ESP_OK, Some 0)
    else match nvs_entries (w_nvs w) with
         | None => (ESP_OK, Some 0)
         | Some e =>
             if negb (nvs_get_fault (w_nvs w) =? ESP_OK) then
               if nvs_get_fault (w_nvs w) =? ESP_ERR_NVS_NOT_FOUND then (ESP_OK, Some 0)
               else (nvs_get_fault (w_nvs w), Some 0)
             else match e !! id with
                  | Some v => (ESP_OK, Some v)
                  | None => (ESP_OK, Some 0)
                  end
         end.
Proof.
  unfold app_permissions_load, nvs_open, nvs_get_u32. run.
  destruct (nvs_open_fault (w_nvs w) =? ESP_OK) eqn:Ho;
    destruct (nvs_entries (w_nvs w)) as [e|] eqn:He;
    destruct (nvs_get_fault (w_nvs w) =? ESP_OK) eqn:Hg;
    destruct (nvs_get_fault (w_nvs w) =? ESP_ERR_NVS_NOT_FOUND) eqn:Hn;
    try destruct (e !! id) as [v|] eqn:Hv.
  all: repeat first [rewrite Ho | rewrite He | rewrite Hg | rewrite Hn | rewrite Hv
                    | progress cbn].
  all: reflexivity.
Qed.

(** X7.  The check fails closed.  It answers true exactly when the
    namespace opens, the read reports no error, and the NVS holds an entry
    for the app whose bits meet the required ones.  So a namespace that
    cannot be opened (an open error, or no namespace yet), a failed read
    and a missing entry all answer false. *)
Theorem check_only_from_stored_bits id required w :
  fst (app_permissions_check (Some id) required w) = true
  ↔ nvs_open_fault (w_nvs w) = ESP_OK ∧ nvs_get_fault (w_nvs w) = ESP_OK
    ∧ ∃ v, nvs_entries (w_nvs w) ≫= (λ e, e !! id) = Some v ∧ Z.land v required ≠ 0.
Proof.
  rewrite check_spec, load_cases.
  destruct (Z.eqb_spec (nvs_open_fault (w_nvs w)) ESP_OK) as [Ho|Ho]; cbn [negb].
  2:{ split; [intros (v & [= <-] & Hv); by rewrite Z.land_0_l in Hv|by intros (? & _)]. }
  destruct (nvs_entries (w_nvs w)) as [e|] eqn:He; cbn [mbind option_bind].
  2:{ split; [intros (v & [= <-] & Hv); by rewrite Z.land_0_l in Hv|].
      by intros (_ & _ & v & ? & _). }
  destruct (Z.eqb_spec (nvs_get_fault (w_nvs w)) ESP_OK) as [Hg|Hg]; cbn [negb].
  - destruct (e !! id) as [v|] eqn:Hv.
    + split; [intros (v' & [= <-] & Hr); eauto|].
      intros (_ & _ & v' & [= <-] & Hr). eauto.
    + split; [intros (v & [= <-] & Hr); by rewrite Z.land_0_l in Hr|].
      by intros (_ & _ & v & ? & _).
  - split; [|by intros (_ & ? & _)].
    destruct (nvs_get_fault (w_nvs w) =? ESP_ERR_NVS_NOT_FOUND).
    + intros (v & [= <-] & Hr). by rewrite Z.land_0_l in Hr.
    + intros (v & [= ? _] & _). done.
Qed.

(** On the demo device with a store whose reads fail, the entry of the app
    carries rf.receive and yet the check answers false. *)
Example check_on_failed_read :
  nvs_entries (w_nvs flaky_world) ≫= (λ e, e !! "app_deadbeef") = Some 0x41
  ∧ fst (app_permissions_check (Some "app_deadbeef") APP_PERM_RF_RECEIVE flaky_world) = false.
Proof. split; vm_compute; reflexivity. Qed.



(** X9.  With a working store, grant adds exactly the granted bits to
    what is stored for the app and revoke removes exactly the revoked
    ones, and neither changes what is stored for any other app. *)
Theorem grant_revoke_touch_one_app id id' p w :
  nvs_healthy (w_nvs w) →
  stored (w_nvs (snd (app_permissions_grant (Some id) p w))) id = Z.lor (stored (w_nvs w) id) p
  ∧ stored (w_nvs (snd (app_permissions_revoke (Some id) p w))) id
    = Z.land (stored (w_nvs w) id) (not32 p)
  ∧ (id' ≠ id →
     stored (w_nvs (snd (app_permissions_grant (Some id) p w))) id' = stored (w_nvs w) id'
     ∧ stored (w_nvs (snd (app_permissions_revoke (Some id) p w))) id' = stored (w_nvs w) id').
Proof.
  intros H.
  rewrite (proj2 (grant_healthy id p w H)), (proj2 (revoke_healthy id p w H)).
  rewrite !stored_put. split_and!; try done.
  intros Hne. by rewrite !stored_put_ne.
Qed.

Lemma grant_revoke_touch_one_app_witness :
  stored (w_nvs (snd (app_permissions_grant (Some "app_deadbeef") 4 boot_world))) "app_deadbeef"
  = Z.lor (stored (w_nvs boot_world) "app_deadbeef") 4
  ∧ stored (w_nvs (snd (app_permissions_revoke (Some "app_deadbeef") 4 boot_world)))
      "app_deadbeef"
    = Z.land (stored (w_nvs boot_world) "app_deadbeef") (not32 4)
  ∧ ("app_000000aa" ≠ "app_deadbeef" →
     stored (w_nvs (snd (app_permissions_grant (Some "app_deadbeef") 4 boot_world)))
       "app_000000aa" = stored (w_nvs boot_world) "app_000000aa"
     ∧ stored (w_nvs (snd (app_permissions_revoke (Some "app_deadbeef") 4 boot_world)))
         "app_000000aa" = stored (w_nvs boot_world) "app_000000aa").
Proof.
  apply (grant_revoke_touch_one_app "app_deadbeef" "app_000000aa" 4 boot_world).
  repeat split; reflexivity.
Defined.

(** ** Global variables of the engine instance *)

Lemma slot_named_spec n name : Mjs.slot_named n name = true ↔ n = Some name.
Proof.
  destruct n as [n|]; cbn; [|done]. unfold streq.
  destruct (String.eqb_spec n name); split; congruence.
Qed.

Lemma slot_named_false n name : Mjs.slot_named n name = false ↔ n ≠ Some name.
Proof. rewrite <- slot_named_spec. by destruct (Mjs.slot_named n name). Qed.

Lemma overwrite_global_none gs name val :
  Mjs.overwrite_global gs name val = None ↔ Some name ∉ gs.*1.
Proof.
  induction gs as [|[n v] gs IH]; cbn [Mjs.overwrite_global fmap list_fmap fst].
  - split; [intros _; apply not_elem_of_nil|done].
  - rewrite not_elem_of_cons, <- IH.
    destruct (Mjs.slot_named n name) eqn:E.
    + apply slot_named_spec in E as ->. split; [done|]. by intros [? _].
    + apply slot_named_false in E.
      destruct (Mjs.overwrite_global gs name val); cbn; split; try done.
      by intros [_ ?].
Qed.

Lemma lookup_overwrite gs gs' name val name' :
  Mjs.overwrite_global gs name val = Some gs' →
  Mjs.lookup_global gs' name' = if streq name name' then val else Mjs.lookup_global gs name'.
Proof.
  revert gs'. induction gs as [|[n v] gs IH]; intros gs'; cbn [Mjs.overwrite_global]; [done|].
  destruct (Mjs.slot_named n name) eqn:E.
  - apply slot_named_spec in E as ->. intros [= <-]. cbn. unfold streq.
    by destruct (String.eqb_spec name name').
  - destruct (Mjs.overwrite_global gs name val) as [gs1|]; [|done].
    cbn. intros [= <-]. cbn [Mjs.lookup_global]. rewrite (IH gs1 eq_refl).
    destruct (Mjs.slot_named n name') eqn:E'; [|done].
    apply slot_named_spec in E' as ->. cbn in E. unfold streq in *.
    destruct (String.eqb_spec name' name) as [->|Hne]; [done|].
    destruct (String.eqb_spec name name'); [congruence|done].
Qed.

Lemma lookup_global_app gs n val name' :
  (∀ name, n = Some name → Some name ∉ gs.*1) →
  Mjs.lookup_global (gs ++ [(n, val)]) name'
  = if Mjs.slot_named n name' then val else Mjs.lookup_global gs name'.
Proof.
  induction gs as [|[n0 v] gs IH]; cbn [app Mjs.lookup_global fmap list_fmap fst]; intros Hn.
  - done.
  - rewrite IH by (intros name Hname; specialize (Hn name Hname);
                   by apply not_elem_of_cons in Hn as [_ ?]).
    destruct (Mjs.slot_named n0 name') eqn:E0; [|done].
    destruct (Mjs.slot_named n name') eqn:E; [|done].
    apply slot_named_spec in E0 as ->. apply slot_named_spec in E as ->.
    specialize (Hn name' eq_refl). exfalso. apply Hn. left.
Qed.

Lemma lookup_global_unbound gs name :
  Some name ∉ gs.*1 → Mjs.lookup_global gs name = MJS_UNDEFINED.
Proof.
  induction gs as [|[n v] gs IH]; cbn [Mjs.lookup_global fmap list_fmap fst]; [done|].
  rewrite not_elem_of_cons. intros [Hne Hnin].
  destruct (Mjs.slot_named n name) eqn:E; [|by apply IH].
  apply slot_named_spec in E. congruence.
Qed.

(** X10.  A global that is set reads back as the value set, provided its
    name is bound already, or one of the 32 slots is free and the copy of
    the name can be allocated.  When the name is new, a slot is free and
    the copy cannot be allocated, the slot is taken all the same and the
    name still reads as [undefined].  The globals of other names read as
    before in every case. *)
Theorem set_global_then_get strdup_ok m name val name' :
  Some name ∈ (globals m).*1 ∨ (List.length (globals m) < 32)%nat →
  let m' := Mjs.mjs_set_global strdup_ok m (Some name) val in
  (Some name ∈ (globals m).*1 ∨ strdup_ok = true → Mjs.mjs_get_global m' (Some name) = val)
  ∧ (Some name ∉ (globals m).*1 → strdup_ok = false →
     Mjs.mjs_get_global m' (Some name) = MJS_UNDEFINED
     ∧ List.length (globals m') = S (List.length (globals m)))
  ∧ (name' ≠ name →
     Mjs.mjs_get_global m' (Some name') = Mjs.mjs_get_global m (Some name')).
Proof.
  intros H m'. subst m'. unfold Mjs.mjs_get_global, Mjs.mjs_set_global.
  destruct (Mjs.overwrite_global (globals m) name val) as [gs|] eqn:E.
  - cbn [globals]. rewrite !(lookup_overwrite _ _ _ _ _ E). unfold streq.
    rewrite String.eqb_refl. split; [done|]. split.
    + intros Hnew. pose proof (proj2 (overwrite_global_none _ _ val) Hnew). congruence.
    + intros Hne. destruct (String.eqb_spec name name'); [congruence|done].
  - apply overwrite_global_none in E. destruct H as [H|H]; [done|].
    replace (Z.of_nat (List.length (globals m)) <? 32) with true
      by (symmetry; apply Z.ltb_lt; lia).
    cbn [globals].
    rewrite !lookup_global_app by (by destruct strdup_ok; intros ? [= <-]).
    split; [|split].
    + intros [Hb| ->]; [done|]. cbn. unfold streq. by rewrite String.eqb_refl.
    + intros _ ->. cbn [Mjs.slot_named]. split; [by apply lookup_global_unbound|].
      rewrite length_app. cbn. lia.
    + intros Hne. destruct strdup_ok; cbn [Mjs.slot_named]; [|done]. unfold streq.
      destruct (String.eqb_spec name name'); [congruence|done].
Qed.

Lemma set_global_then_get_witness :
  let m' := Mjs.mjs_set_global true Mjs.mjs_create (Some "x") MJS_TRUE in
  (Some "x" ∈ (globals Mjs.mjs_create).*1 ∨ true = true →
   Mjs.mjs_get_global m' (Some "x") = MJS_TRUE)
  ∧ (Some "x" ∉ (globals Mjs.mjs_create).*1 → true = false →
     Mjs.mjs_get_global m' (Some "x") = MJS_UNDEFINED
     ∧ List.length (globals m') = S (List.length (globals Mjs.mjs_create)))
  ∧ ("y" ≠ "x" →
     Mjs.mjs_get_global m' (Some "y") = Mjs.mjs_get_global Mjs.mjs_create (Some "y")).
Proof.
  apply (set_global_then_get true Mjs.mjs_create "x" MJS_TRUE "y"). right. cbn. lia.
Defined.

(** Without memory for the copy of the name, the first global set on a new
    instance takes a slot and cannot be read. *)
Example set_global_without_memory :
  let m' := Mjs.mjs_set_global false Mjs.mjs_create (Some "x") MJS_TRUE in
  globals m' = [(None, MJS_TRUE)] ∧ Mjs.mjs_get_global m' (Some "x") = MJS_UNDEFINED.
Proof. split; reflexivity. Qed.

(** X11.  When all 32 slots are taken, setting a global of a new name does
    nothing at all: the instance is unchanged and the name still reads as
    [undefined]. *)
Theorem set_global_table_full strdup_ok m name val :
  (32 ≤ List.length (globals m))%nat → Some name ∉ (globals m).*1 →
  Mjs.mjs_set_global strdup_ok m (Some name) val = m
  ∧ Mjs.mjs_get_global (Mjs.mjs_set_global strdup_ok m (Some name) val) (Some name)
    = MJS_UNDEFINED.
Proof.
  intros Hfull Hnew. unfold Mjs.mjs_set_global, Mjs.mjs_get_global.
  rewrite (proj2 (overwrite_global_none _ _ val) Hnew).
  replace (Z.of_nat (List.length (globals m)) <? 32) with false
    by (symmetry; apply Z.ltb_ge; lia).
  split; [done|]. by apply lookup_global_unbound.
Qed.

Lemma set_global_table_full_witness :
  let m := JsApi.set_ffi_funcs demo_platform
             (map (λ k, (String (chr (65 + k)) "", "f")) (seq 0 32)) Mjs.mjs_create in
  Mjs.mjs_set_global true m (Some "x") MJS_TRUE = m
  ∧ Mjs.mjs_get_global (Mjs.mjs_set_global true m (Some "x") MJS_TRUE) (Some "x")
    = MJS_UNDEFINED.
Proof.
  apply (set_global_table_full true
           (JsApi.set_ffi_funcs demo_platform
              (map (λ k, (String (chr (65 + k)) "", "f")) (seq 0 32)) Mjs.mjs_create)
           "x" MJS_TRUE).
  - vm_compute. lia.
  - apply (bool_decide_unpack _). vm_compute. reflexivity.
Defined.

(** ** Registering the API *)

Lemma lookup_global_skip gs gs' name :
  Some name ∉ gs.*1 → Mjs.lookup_global (gs ++ gs') name = Mjs.lookup_global gs' name.
Proof.
  induction gs as [|[n v] gs IH]; cbn [app Mjs.lookup_global fmap list_fmap fst]; [done|].
  rewrite not_elem_of_cons. intros [Hne Hnin].
  destruct (Mjs.slot_named n name) eqn:E; [|by apply IH].
  apply slot_named_spec in E. congruence.
Qed.

(** Registering functions of new names in a table with room for them
    appends them in order, when the copies of the names can be allocated. *)
Lemma set_ffi_funcs_fresh p fs m :
  heap_ok p = true →
  (∀ c, func_addr p c ≠ 0) →
  NoDup fs.*1 → (∀ n, n ∈ fs.*1 → Some n ∉ (globals m).*1) →
  (List.length (globals m) + List.length fs ≤ 32)%nat →
  JsApi.set_ffi_funcs p fs m
  = Mjs (error_msg m) (error_handler m) (global_object m)
        (globals m ++ map (λ e, (Some (fst e), ffi_value (func_addr p (snd e)))) fs).
Proof.
  intros Hh Hp. unfold JsApi.set_ffi_funcs. rewrite Hh.
  revert m. induction fs as [|[n c] fs IH]; intros m Hnd Hnew Hlen.
  - cbn. rewrite app_nil_r. by destruct m.
  - cbn [fold_left]. cbn [fmap list_fmap fst] in Hnd, Hnew. apply NoDup_cons in Hnd as [Hn Hnd].
    assert (Mjs.mjs_set_ffi_func true m (Some n) (func_addr p c)
            = Mjs (error_msg m) (error_handler m) (global_object m)
                  (globals m ++ [(Some n, ffi_value (func_addr p c))])) as ->.
    { unfold Mjs.mjs_set_ffi_func, Mjs.mjs_set_global.
      destruct (Z.eqb_spec (func_addr p c) 0) as [H0|_]; [by apply Hp in H0|].
      rewrite (proj2 (overwrite_global_none _ _ _)) by (apply Hnew; left).
      replace (Z.of_nat (List.length (globals m)) <? 32) with true
        by (symmetry; apply Z.ltb_lt; cbn in Hlen; lia).
      done. }
    rewrite IH; cbn [globals error_msg error_handler global_object].
    + by rewrite <- app_assoc.
    + done.
    + intros n' Hin. rewrite fmap_app, not_elem_of_app. split.
      * apply Hnew. by right.
      * cbn. intros [= ->]%list_elem_of_singleton. done.
    + rewrite length_app. cbn in *. lia.
Qed.

(** What [js_api_register_all] does to a live context with an engine
    instance. *)
Lemma register_all_spec w a c m :
  js_api_initialized w = true → w_heap w !! a = Some c → mjs c = Some m →
  fst (JsApi.js_api_register_all (Some a) w) = ESP_OK
  ∧ w_heap (snd (JsApi.js_api_register_all (Some a) w))
    = <[a := with_mjs c (Some (JsApi.set_ffi_funcs (w_platform w) api_functions m))]> (w_heap w)
  ∧ w_aborted (snd (JsApi.js_api_register_all (Some a) w)) = w_aborted w.
Proof.
  intros Hi Hc Hm.
  unfold JsApi.js_api_register_all, JsApi.js_rf_api_register, JsApi.js_gpio_api_register,
    JsApi.js_ui_api_register, JsApi.js_storage_api_register,
    JsApi.js_notification_api_register, JsApi.api_register, store, deref, ESP_ERROR_CHECK.
  remember JsApi.set_ffi_funcs as register eqn:Hregister.
  unfold mbind, M_bind, mret, M_ret, esp_log, modify, get_world. cbn.
  rewrite Hi. cbn. rewrite Hc. cbn. rewrite Hm. cbn.
  repeat (rewrite lookup_insert_eq; cbn).
  rewrite !insert_insert_eq.
  split; [done|]. split; [|done].
  subst register. reflexivity.
Qed.



(** Without memory for the copies, the registration still reports success,
    but no API name is bound: [rf.transmit] reads as [undefined]. *)
Example register_all_without_memory :
  let p := Platform 10 (tick_source demo_platform) (random_source demo_platform) false
             (func_addr demo_platform) (literal_addr demo_platform)
             (run_mjs_exec demo_platform) in
  Mjs.mjs_get_global (JsApi.set_ffi_funcs p api_functions Mjs.mjs_create) (Some "rf.transmit")
  = MJS_UNDEFINED
  ∧ List.length (globals (JsApi.set_ffi_funcs p api_functions Mjs.mjs_create)) = 27%nat.
Proof. split; vm_compute; reflexivity. Qed.

(** ** The engine's contexts *)

Lemma first_free_spec slots i :
  first_free slots = Some i → slots !! i = Some None.
Proof.
  revert i. induction slots as [|[b|] slots IH]; intros i; cbn; [done| |by intros [= <-]].
  destruct (first_free slots) as [j|]; [|done]. intros [= <-]. by apply IH.
Qed.

Lemma first_free_none slots :
  first_free slots = None → List.length (omap id slots) = List.length slots.
Proof.
  induction slots as [|[b|] slots IH]; cbn; [done| |done].
  destruct (first_free slots); [done|]. intros _. by rewrite IH.
Qed.

Lemma omap_id_length (slots : list ctx_ptr) :
  (List.length (omap id slots) ≤ List.length slots)%nat.
Proof. induction slots as [|[b|] slots IH]; cbn; lia. Qed.

Lemma first_free_insert slots i a :
  first_free slots = Some i → omap id (<[i := Some a]> slots) ≡ₚ a :: omap id slots.
Proof.
  revert i. induction slots as [|[b|] slots IH]; intros i; cbn; [done| |by intros [= <-]].
  destruct (first_free slots) as [j|]; [|done]. intros [= <-]. cbn.
  rewrite (IH j eq_refl). apply Permutation_swap.
Qed.

Lemma clear_slot_none slots a : clear_slot slots a = None ↔ a ∉ omap id slots.
Proof.
  induction slots as [|s slots IH]; cbn.
  - split; [intros _; apply not_elem_of_nil|done].
  - case_bool_decide as E.
    + subst s. cbn. split; [done|]. intros H. exfalso. apply H. left.
    + destruct (clear_slot slots a); cbn.
      * split; [done|]. intros H. exfalso. destruct s as [b|]; cbn in H.
        -- apply not_elem_of_cons in H as [_ H]. by apply IH in H.
        -- by apply IH in H.
      * split; [|done]. intros _. destruct s as [b|]; cbn.
        -- apply not_elem_of_cons. split; [congruence|by apply IH].
        -- by apply IH.
Qed.

Lemma clear_slot_some slots a slots' :
  clear_slot slots a = Some slots' →
  List.length slots' = List.length slots ∧ omap id slots ≡ₚ a :: omap id slots'.
Proof.
  revert slots'. induction slots as [|s slots IH]; intros slots'; cbn; [done|].
  case_bool_decide as E.
  - subst s. intros [= <-]. done.
  - destruct (clear_slot slots a) as [r|]; [|done]. cbn. intros [= <-].
    destruct (IH r eq_refl) as [Hl Hp]. cbn. split; [lia|].
    destruct s as [b|]; cbn; [|done]. rewrite Hp. apply Permutation_swap.
Qed.

Lemma clear_after_insert slots i a :
  first_free slots = Some i → a ∉ omap id slots →
  clear_slot (<[i := Some a]> slots) a = Some slots.
Proof.
  revert i. induction slots as [|[b|] slots IH]; intros i; cbn; [done| |].
  - destruct (first_free slots) as [j|]; [|done]. intros [= <-] Hn. cbn.
    apply not_elem_of_cons in Hn as [Hne Hn].
    rewrite bool_decide_eq_false_2 by congruence.
    change (option_map (cons (Some b)) (clear_slot (<[j := Some a]> slots) a)
            = Some (Some b :: slots)).
    by rewrite (IH j eq_refl Hn).
  - intros [= <-] _. cbn. by rewrite bool_decide_eq_true_2.
Qed.

Lemma consistent_count_bound w : engine_consistent w → 0 ≤ s_context_count w ≤ 8.
Proof.
  intros (Hl & Hc & _). rewrite Hc. unfold live_contexts.
  pose proof (omap_id_length (s_contexts w)). lia.
Qed.

(** What a successful [mjs_engine_create_context] does. *)
Lemma create_context_some limit w a :
  engine_consistent w → fst (mjs_engine_create_context limit w) = Some a →
  ∃ i, first_free (s_contexts w) = Some i
       ∧ (a ∉ live_contexts w) ∧ w_heap w !! a = None
       ∧ engine_initialized (snd (mjs_engine_create_context limit w)) = true
       ∧ s_contexts (snd (mjs_engine_create_context limit w)) = <[i := Some a]> (s_contexts w)
       ∧ s_context_count (snd (mjs_engine_create_context limit w)) = s_context_count w + 1
       ∧ w_heap (snd (mjs_engine_create_context limit w))
         = <[a := new_context limit]> (w_heap w).
Proof.
  intros Hcons. pose proof (consistent_count_bound w Hcons) as Hb.
  destruct Hcons as (Hl & Hc & Hnd & Hlive).
  unfold mjs_engine_create_context, store.
  unfold mbind, M_bind, mret, M_ret, esp_log, modify, get_world. cbn.
  destruct (engine_initialized w) eqn:Hinit; cbn; [|done].
  destruct (Z.leb_spec 8 (s_context_count w)) as [|Hlt]; cbn; [done|].
  destruct (first_free (s_contexts w)) as [i|] eqn:Hf; cbn; [|done].
  destruct (heap_ok (w_platform w)); cbn; [|done].
  intros [= <-]. exists i.
  assert (w_heap w !! fresh (dom (w_heap w)) = None) as Hfresh.
  { apply not_elem_of_dom. apply is_fresh. }
  split_and!; try done.
  - intros Hin. apply Hlive in Hin as [c Hin]. congruence.
  - rewrite Z.mod_small by lia. done.
Qed.



(** X14.  Destroying a context that was just created undoes the
    creation: the slots, the counter and the heap are what they were. *)
Theorem create_then_destroy w limit a :
  engine_consistent w → fst (mjs_engine_create_context limit w) = Some a →
  let w1 := snd (mjs_engine_create_context limit w) in
  let w2 := snd (mjs_engine_destroy_context (Some a) w1) in
  s_contexts w2 = s_contexts w ∧ s_context_count w2 = s_context_count w
  ∧ w_heap w2 = w_heap w.
Proof.
  intros Hcons Hr w1 w2.
  destruct (create_context_some limit w a Hcons Hr)
    as (i & Hf & Hn & Hh & Hinit & Hs & Hc & Hp).
  pose proof (consistent_count_bound w Hcons) as Hb.
  subst w2. unfold mjs_engine_destroy_context.
  unfold mbind, M_bind, mret, M_ret, esp_log, modify, get_world. cbn.
  fold w1 in Hinit, Hs, Hc, Hp. rewrite Hinit. cbn. rewrite Hs.
  rewrite (clear_after_insert _ _ _ Hf Hn). cbn. rewrite Hc, Hp.
  split_and!; [done| |].
  - rewrite Z.mod_small by lia. lia.
  - by rewrite delete_insert_id.
Qed.

Lemma create_then_destroy_witness :
  let w1 := snd (mjs_engine_create_context 0 boot_world) in
  let w2 := snd (mjs_engine_destroy_context (Some 0%nat) w1) in
  s_contexts w2 = s_contexts boot_world ∧ s_context_count w2 = s_context_count boot_world
  ∧ w_heap w2 = w_heap boot_world.
Proof.
  apply (create_then_destroy boot_world 0 0%nat).
  - unfold engine_consistent, live_contexts. split_and!.
    + reflexivity.
    + reflexivity.
    + apply NoDup_nil_2.
    + intros a Ha. by apply not_elem_of_nil in Ha.
  - vm_compute. reflexivity.
Defined.

(** X15.  With the engine initialised, its bookkeeping in order and
    memory available, creating a context fails exactly when eight contexts
    exist.  A failed creation changes neither the slots nor the counter nor
    the heap; a successful one yields a fresh cell holding a context that is
    not running, has no code, and whose memory limit is the one asked for,
    or 65536 when 0 is asked for, with a time limit of 5000 ms. *)
Theorem create_context_capacity w limit :
  engine_consistent w → engine_initialized w = true → heap_ok (w_platform w) = true →
  (fst (mjs_engine_create_context limit w) = None ↔ s_context_count w = 8)
  ∧ (fst (mjs_engine_create_context limit w) = None →
     s_contexts (snd (mjs_engine_create_context limit w)) = s_contexts w
     ∧ s_context_count (snd (mjs_engine_create_context limit w)) = s_context_count w
     ∧ w_heap (snd (mjs_engine_create_context limit w)) = w_heap w)
  ∧ (∀ a, fst (mjs_engine_create_context limit w) = Some a →
     w_heap w !! a = None
     ∧ w_heap (snd (mjs_engine_create_context limit w)) !! a = Some (new_context limit)).
Proof.
  intros Hcons Hinit Hheap. pose proof (consistent_count_bound w Hcons) as Hb.
  split; [|split].
  - pose proof Hcons as (Hl & Hc & _).
    unfold mjs_engine_create_context, store.
    unfold mbind, M_bind, mret, M_ret, esp_log, modify, get_world. cbn.
    rewrite Hinit. cbn.
    destruct (Z.leb_spec 8 (s_context_count w)) as [Hge|Hlt]; cbn.
    + split; [lia|done].
    + destruct (first_free (s_contexts w)) as [i|] eqn:Hf; cbn.
      * rewrite Hheap. cbn. split; [done|lia].
      * apply first_free_none in Hf. unfold live_contexts in Hc. lia.
  - unfold mjs_engine_create_context, store.
    unfold mbind, M_bind, mret, M_ret, esp_log, modify, get_world. cbn.
    repeat (case_match; cbn; try done).
  - intros a Hr.
    destruct (create_context_some limit w a Hcons Hr) as (i & _ & _ & Hh & _ & _ & _ & Hp).
    split; [done|]. rewrite Hp. apply lookup_insert_eq.
Qed.

Lemma create_context_capacity_witness :
  (fst (mjs_engine_create_context 0 boot_world) = None ↔ s_context_count boot_world = 8)
  ∧ (fst (mjs_engine_create_context 0 boot_world) = None →
     s_contexts (snd (mjs_engine_create_context 0 boot_world)) = s_contexts boot_world
     ∧ s_context_count (snd (mjs_engine_create_context 0 boot_world))
       = s_context_count boot_world
     ∧ w_heap (snd (mjs_engine_create_context 0 boot_world)) = w_heap boot_world)
  ∧ (∀ a, fst (mjs_engine_create_context 0 boot_world) = Some a →
     w_heap boot_world !! a = None
     ∧ w_heap (snd (mjs_engine_create_context 0 boot_world)) !! a = Some (new_context 0)).
Proof.
  apply (create_context_capacity boot_world 0).
  - unfold engine_consistent, live_contexts. split_and!.
    + reflexivity.
    + reflexivity.
    + apply NoDup_nil_2.
    + intros a Ha. by apply not_elem_of_nil in Ha.
  - reflexivity.
  - reflexivity.
Defined.

(** ** Loading and running code *)

(** X16.  A load from a file succeeds only for a file that is not empty
    and at most half the context's memory limit long; the context then
    holds the file's text, and the next execution evaluates exactly that
    text.  A load that fails leaves every context as it was. *)
Theorem load_file_then_execute w a c m path :
  w_heap w !! a = Some c → mjs c = Some m →
  let w1 := snd (mjs_engine_load_file (Some a) (Some path) w) in
  (fst (mjs_engine_load_file (Some a) (Some path) w) = ESP_OK →
   ∃ text, fst (fopen_r path w) = Some text
           ∧ 0 < Z.of_nat (String.length text) ≤ memory_limit c / 2
           ∧ w_heap w1 !! a = Some (with_source c (Some path) (Some text))
           ∧ deref (snd (mjs_engine_execute (Some a) w1)) (Some a) ≫= mjs
             = Some (exec_mjs (run_mjs_exec (w_platform w) m text)))
  ∧ (fst (mjs_engine_load_file (Some a) (Some path) w) ≠ ESP_OK → w_heap w1 = w_heap w).
Proof.
  intros Hc Hm w1. subst w1.
  unfold mjs_engine_load_file, store, deref.
  unfold mbind, M_bind, mret, M_ret, esp_log, modify, get_world. cbn. rewrite Hc. cbn.
  destruct (fopen_r path _) as [content w0] eqn:Hr.
  assert (fst (fopen_r path w) = content ∧ w_heap w0 = w_heap w ∧ w_platform w0 = w_platform w)
    as (Hcontent & Hh0 & Hp0).
  { unfold fopen_r in *. by injection Hr as <- <-. }
  destruct content as [text|]; cbn; [|done].
  destruct (Z.leb_spec (Z.of_nat (String.length text)) 0) as [|Hpos]; cbn; [done|].
  destruct (Z.ltb_spec (memory_limit c / 2) (Z.of_nat (String.length text))) as [|Hle];
    cbn; [done|].
  destruct (heap_ok (w_platform w)) eqn:Hheap; cbn; [|done].
  split; [|done]. intros _. exists text. split; [done|]. split; [lia|].
  rewrite Hh0. split; [apply lookup_insert_eq|].
  match goal with |- context [mjs_engine_execute _ ?w2] =>
    destruct (execute_spec w2 a (with_source c (Some path) (Some text)) text m) as [_ He];
      [cbn; apply lookup_insert_eq|done|done|]
  end.
  cbn in He. unfold deref. cbn. rewrite He. cbn. by rewrite Hp0.
Qed.

(** X17.  A load from a string accepts any text up to half the memory
    limit, the empty text included, and the next execution evaluates it.
    The copies of the text and of the file name are stored unchecked:
    without memory the load still reports success, and the next execution
    returns [JS_EXEC_ERROR]. *)
Theorem load_string_then_execute w a c m text file :
  w_heap w !! a = Some c → mjs c = Some m →
  Z.of_nat (String.length text) ≤ memory_limit c / 2 →
  let w1 := snd (mjs_engine_load_string (Some a) (Some text) file w) in
  fst (mjs_engine_load_string (Some a) (Some text) file w) = ESP_OK
  ∧ (heap_ok (w_platform w) = true →
     w_heap w1 !! a = Some (with_source c (Some (default "string" file)) (Some text))
     ∧ deref (snd (mjs_engine_execute (Some a) w1)) (Some a) ≫= mjs
       = Some (exec_mjs (run_mjs_exec (w_platform w) m text)))
  ∧ (heap_ok (w_platform w) = false →
     fst (mjs_engine_execute (Some a) w1) = JS_EXEC_ERROR).
Proof.
  intros Hc Hm Hlen w1. subst w1.
  unfold mjs_engine_load_string, store, deref.
  unfold mbind, M_bind, mret, M_ret, esp_log, modify, get_world. cbn. rewrite Hc. cbn.
  destruct (Z.ltb_spec (memory_limit c / 2) (Z.of_nat (String.length text))) as [|_];
    [lia|]. cbn.
  split; [done|]. split; intros Hheap; rewrite Hheap.
  - split; [apply lookup_insert_eq|].
    match goal with |- context [mjs_engine_execute _ ?w2] =>
      destruct (execute_spec w2 a (with_source c (Some (default "string" file)) (Some text))
                  text m) as [_ He];
        [cbn; apply lookup_insert_eq|done|done|]
    end.
    cbn in He. unfold deref. cbn. rewrite He. done.
  - unfold mjs_engine_execute, deref.
    unfold mbind, M_bind, mret, M_ret, esp_log, modify, get_world. cbn.
    rewrite lookup_insert_eq. done.
Qed.

Lemma load_file_then_execute_witness :
  let w := snd (mjs_engine_create_context 65536 boot_world) in
  let c := new_context 65536 in
  let m := Mjs.mjs_set_error_handler Mjs.mjs_create in
  let w1 := snd (mjs_engine_load_file (Some 0%nat) (Some "/sd/tester.pkg") w) in
  (fst (mjs_engine_load_file (Some 0%nat) (Some "/sd/tester.pkg") w) = ESP_OK →
   ∃ text, fst (fopen_r "/sd/tester.pkg" w) = Some text
           ∧ 0 < Z.of_nat (String.length text) ≤ memory_limit c / 2
           ∧ w_heap w1 !! 0%nat = Some (with_source c (Some "/sd/tester.pkg") (Some text))
           ∧ deref (snd (mjs_engine_execute (Some 0%nat) w1)) (Some 0%nat) ≫= mjs
             = Some (exec_mjs (run_mjs_exec (w_platform w) m text)))
  ∧ (fst (mjs_engine_load_file (Some 0%nat) (Some "/sd/tester.pkg") w) ≠ ESP_OK →
     w_heap w1 = w_heap w).
Proof.
  apply (load_file_then_execute (snd (mjs_engine_create_context 65536 boot_world)) 0%nat
           (new_context 65536) (Mjs.mjs_set_error_handler Mjs.mjs_create) "/sd/tester.pkg").
  - vm_compute. reflexivity.
  - reflexivity.
Defined.

Lemma load_string_then_execute_witness :
  let w := snd (mjs_engine_create_context 65536 boot_world) in
  let c := new_context 65536 in
  let m := Mjs.mjs_set_error_handler Mjs.mjs_create in
  let w1 := snd (mjs_engine_load_string (Some 0%nat) (Some "") None w) in
  fst (mjs_engine_load_string (Some 0%nat) (Some "") None w) = ESP_OK
  ∧ (heap_ok (w_platform w) = true →
     w_heap w1 !! 0%nat = Some (with_source c (Some (default "string" None)) (Some ""))
     ∧ deref (snd (mjs_engine_execute (Some 0%nat) w1)) (Some 0%nat) ≫= mjs
       = Some (exec_mjs (run_mjs_exec (w_platform w) m "")))
  ∧ (heap_ok (w_platform w) = false →
     fst (mjs_engine_execute (Some 0%nat) w1) = JS_EXEC_ERROR).
Proof.
  apply (load_string_then_execute (snd (mjs_engine_create_context 65536 boot_world)) 0%nat
           (new_context 65536) (Mjs.mjs_set_error_handler Mjs.mjs_create) "" None).
  - vm_compute. reflexivity.
  - reflexivity.
  - vm_compute. discriminate.
Defined.

(** The messages raised while the handler is installed reach the error
    callback in order; the handler leaves the callback registration, the
    platform and the clock alone. *)
Lemma raise_all_calls a msgs w :
  s_error_callback w = true →
  error_callback_calls (snd (raise_all true a msgs w)) = (error_callback_calls w ++ msgs)%list
  ∧ s_error_callback (snd (raise_all true a msgs w)) = true.
Proof.
  revert w. induction msgs as [|msg msgs IH]; intros w Hcb.
  - cbn. by rewrite app_nil_r.
  - cbn [raise_all]. unfold mbind, M_bind.
    destruct (mjs_error_handler a msg w) as [u w1] eqn:E1.
    assert (error_callback_calls w1 = (error_callback_calls w ++ [msg])%list
            ∧ s_error_callback w1 = true) as [H1 H2].
    { unfold mjs_error_handler, call_error_callback in E1. run.
      rewrite Hcb in E1. cbn in E1. injection E1 as <- <-.
      by destruct (w_heap w !! a). }
    destruct (IH w1 H2) as [H3 H4]. rewrite H3, H4, H1, <- app_assoc. done.
Qed.

(** X18.  Once an error callback is registered, an execution on a context
    whose engine instance has the engine's handler installed passes every
    message the evaluator raises to the callback, once each and in order;
    the execution itself still does not return [JS_EXEC_ERROR]. *)
Theorem raised_errors_reach_callback w a c src m :
  w_heap w !! a = Some c → code c = Some src → mjs c = Some m → error_handler m = true →
  let w0 := snd (mjs_engine_set_error_callback true w) in
  error_callback_calls (snd (mjs_engine_execute (Some a) w0))
  = (error_callback_calls w ++ exec_raised (run_mjs_exec (w_platform w) m src))%list
  ∧ fst (mjs_engine_execute (Some a) w0) ≠ JS_EXEC_ERROR.
Proof.
  intros Hc Hsrc Hm Hh w0. subst w0.
  unfold mjs_engine_set_error_callback, mjs_engine_execute, deref.
  unfold mbind, M_bind, mret, M_ret, esp_log, modify, get_world. cbn.
  rewrite Hc. cbn. rewrite Hsrc, Hm. cbn. rewrite Hc. cbn.
  unfold set_running, tick_ms, mjs_exec.
  unfold mbind, M_bind, mret, M_ret, esp_log, modify, get_world. cbn.
  rewrite Hh.
  match goal with |- context [raise_all true a ?msgs ?w1] =>
    destruct (raise_all_calls a msgs w1) as [Hcalls _]; [done|];
    destruct (raise_all true a msgs w1) as [u w2]
  end.
  cbn in Hcalls. cbn.
  rewrite mjs_is_error_false.
  repeat (case_match; cbn); try done.
Qed.

Lemma raised_errors_reach_callback_witness :
  let w0 := snd (mjs_engine_set_error_callback true raising_world) in
  error_callback_calls (snd (mjs_engine_execute (Some 0%nat) w0))
  = (error_callback_calls raising_world
     ++ exec_raised (run_mjs_exec (w_platform raising_world)
                       (Mjs.mjs_set_error_handler Mjs.mjs_create) "@"))%list
  ∧ fst (mjs_engine_execute (Some 0%nat) w0) ≠ JS_EXEC_ERROR.
Proof.
  apply (raised_errors_reach_callback raising_world 0%nat
           (JsContext (Some (Mjs.mjs_set_error_handler Mjs.mjs_create)) (Some "bad.js")
              (Some "@") false 65536 5000)
           "@" (Mjs.mjs_set_error_handler Mjs.mjs_create)).
  - vm_compute. reflexivity.
  - reflexivity.
  - reflexivity.
  - reflexivity.
Defined.

Example syntax_error_reaches_callback :
  error_callback_calls
    (snd (mjs_engine_execute (Some 0%nat)
            (snd (mjs_engine_set_error_callback true raising_world))))
  = ["Syntax error"]
  ∧ fst (mjs_engine_execute (Some 0%nat)
           (snd (mjs_engine_set_error_callback true raising_world))) = JS_EXEC_OK.
Proof. vm_compute. done. Qed.

(** Unfolding the engine's and the bridge's calls down to the primitive
    ones. *)
Ltac unfold_engine :=
  unfold mjs_engine_create_context, mjs_engine_destroy_context, mjs_engine_load_file,
    mjs_engine_load_string, mjs_engine_execute, mjs_engine_stop, mjs_exec, set_running,
    call_error_callback, store,
    JsApi.js_api_register_all, JsApi.js_rf_api_register, JsApi.js_gpio_api_register,
    JsApi.js_ui_api_register, JsApi.js_storage_api_register,
    JsApi.js_notification_api_register, JsApi.api_register.

Lemma preserves_raise_all {B} (π : world → B) h a msgs :
  (∀ l w, π (set_w_log l w) = π w) → (∀ l w, π (set_w_heap l w) = π w) →
  (∀ l w, π (set_error_callback_calls l w) = π w) →
  preserves π (raise_all h a msgs).
Proof.
  intros H1 H2 H3. induction msgs as [|msg msgs IH]; cbn [raise_all]; [apply preserves_ret|].
  apply preserves_bind; [|intros _; exact IH].
  destruct h; [|apply preserves_ret].
  unfold mjs_error_handler, call_error_callback.
  apply preserves_bind; [intros w; apply H1|intros _].
  apply preserves_bind; [|intros _].
  - apply preserves_modify. intros w. destruct (s_error_callback w); [apply H3|done].
  - apply preserves_modify. intros w. destruct (w_heap w !! a); [apply H2|done].
Qed.

(** ** The sandbox pool *)

(** The engine and the bridge never write the pool. *)
Lemma pool_kept_create limit :
  preserves s_sandboxes (mjs_engine_create_context limit)
  ∧ preserves s_sandbox_count (mjs_engine_create_context limit).
Proof. split; unfold_engine; frame. Qed.

Lemma pool_kept_destroy ctx :
  preserves s_sandboxes (mjs_engine_destroy_context ctx)
  ∧ preserves s_sandbox_count (mjs_engine_destroy_context ctx).
Proof. split; unfold_engine; frame. Qed.

Lemma pool_kept_register ctx :
  preserves s_sandboxes (JsApi.js_api_register_all ctx)
  ∧ preserves s_sandbox_count (JsApi.js_api_register_all ctx).
Proof. split; unfold_engine; frame. Qed.

Lemma pool_kept_load_file ctx file :
  preserves s_sandboxes (mjs_engine_load_file ctx file)
  ∧ preserves s_sandbox_count (mjs_engine_load_file ctx file).
Proof. split; unfold_engine; frame. Qed.

Lemma pool_kept_execute ctx :
  preserves s_sandboxes (mjs_engine_execute ctx)
  ∧ preserves s_sandbox_count (mjs_engine_execute ctx).
Proof.
  split; unfold_engine.
  - pose proof (λ h a msgs, preserves_raise_all s_sandboxes h a msgs
                  (λ _ _, eq_refl) (λ _ _, eq_refl) (λ _ _, eq_refl)). frame.
  - pose proof (λ h a msgs, preserves_raise_all s_sandbox_count h a msgs
                  (λ _ _, eq_refl) (λ _ _, eq_refl) (λ _ _, eq_refl)). frame.
Qed.

Lemma pool_kept_stop ctx :
  preserves s_sandboxes (mjs_engine_stop ctx) ∧ preserves s_sandbox_count (mjs_engine_stop ctx).
Proof. split; unfold_engine; frame. Qed.

Lemma free_slot_spec slots i :
  AppSandbox.free_slot slots = Some i → ∃ s, slots !! i = Some s ∧ sb_active s = false.
Proof.
  revert i. induction slots as [|s slots IH]; intros i; cbn; [done|].
  destruct (sb_active s) eqn:E; cbn.
  - destruct (AppSandbox.free_slot slots) as [j|]; [|done]. intros [= <-]. by apply IH.
  - intros [= <-]. by exists s.
Qed.

Lemma free_slot_none slots :
  AppSandbox.free_slot slots = None →
  List.length (List.filter sb_active slots) = List.length slots.
Proof.
  induction slots as [|s slots IH]; cbn; [done|].
  destruct (sb_active s) eqn:E; cbn; [|done].
  destruct (AppSandbox.free_slot slots); [done|]. intros _. by rewrite IH.
Qed.

Lemma find_sandbox_in_spec slots id i :
  AppSandbox.find_sandbox_in slots id = Some i →
  ∃ s, slots !! i = Some s ∧ sb_active s = true ∧ sb_app_id s = id.
Proof.
  revert i. induction slots as [|s slots IH]; intros i; cbn; [done|].
  destruct (sb_active s) eqn:E; cbn.
  - unfold streq. destruct (String.eqb_spec (sb_app_id s) id) as [Hid|Hne].
    + intros [= <-]. by exists s.
    + destruct (AppSandbox.find_sandbox_in slots id) as [j|]; [|done].
      intros [= <-]. by apply IH.
  - destruct (AppSandbox.find_sandbox_in slots id) as [j|]; [|done].
    intros [= <-]. by apply IH.
Qed.

(** A sandbox of [id] that is active is found. *)
Lemma find_sandbox_in_some slots id i s :
  slots !! i = Some s → sb_active s = true → sb_app_id s = id →
  is_Some (AppSandbox.find_sandbox_in slots id).
Proof.
  revert i. induction slots as [|s0 slots IH]; intros i; [done|]. cbn.
  destruct i as [|i]; cbn.
  - intros [= ->] -> <-. unfold streq. rewrite String.eqb_refl. cbn. by eexists.
  - intros Hs Ha Hid. destruct (sb_active s0 && streq (sb_app_id s0) id); [cbn; by eexists|].
    destruct (IH i Hs Ha Hid) as [j ->]. cbn. by eexists.
Qed.

Lemma occupancy_insert (slots : list sandbox_t) i s s' :
  slots !! i = Some s →
  (List.length (List.filter sb_active (<[i := s']> slots)) + (if sb_active s then 1 else 0)
   = List.length (List.filter sb_active slots) + (if sb_active s' then 1 else 0))%nat.
Proof.
  revert i. induction slots as [|s0 slots IH]; intros i; [done|].
  destruct i as [|i]; simpl.
  - intros [= ->]. destruct (sb_active s), (sb_active s'); simpl; lia.
  - intros Hs. specialize (IH i Hs). destruct (sb_active s0); simpl; lia.
Qed.

Lemma alter_as_insert {A} (f : A → A) (l : list A) i x :
  l !! i = Some x → alter f i l = <[i := f x]> l.
Proof.
  revert i. induction l as [|y l IH]; intros i; [done|].
  destruct i as [|i]; simpl.
  - by intros [= ->].
  - intros H. f_equal. by apply IH.
Qed.

(** What [app_sandbox_create] does to the pool. *)
Lemma sandbox_create_spec id w :
  let r := AppSandbox.app_sandbox_create (Some id) true w in
  (fst (fst r) ≠ ESP_OK ∧ s_sandboxes (snd r) = s_sandboxes w
   ∧ s_sandbox_count (snd r) = s_sandbox_count w)
  ∨ (∃ slot a t,
       fst r = (ESP_OK, Some (Some a))
       ∧ AppSandbox.free_slot (s_sandboxes w) = Some slot
       ∧ s_sandboxes (snd r) = <[slot := Sandbox id (Some a) 65536 5000 t true]> (s_sandboxes w)
       ∧ s_sandbox_count (snd r) = s_sandbox_count w + 1).
Proof.
  intros r. subst r.
  destruct (AppSandbox.app_sandbox_create (Some id) true w) as [[ret created] w'] eqn:Hr.
  cbn [fst snd]. revert Hr. unfold AppSandbox.app_sandbox_create.
  unfold mbind at 1 2, M_bind at 1 2, esp_log at 1, modify at 1, get_world at 1. cbn.
  destruct (AppSandbox.free_slot (s_sandboxes w)) as [slot|] eqn:Hf.
  2:{ unfold mbind, M_bind, mret, M_ret, esp_log, modify. cbn. intros [= <- <- <-]. by left. }
  unfold mbind at 1, M_bind at 1.
  match goal with |- context [mjs_engine_create_context ?l ?w0] =>
    destruct (pool_kept_create l) as [K1 K1']; specialize (K1 w0); specialize (K1' w0);
    destruct (mjs_engine_create_context l w0) as [js_ctx w1]
  end.
  cbn in K1, K1'.
  destruct js_ctx as [a|].
  2:{ unfold mbind, M_bind, mret, M_ret, esp_log, modify. cbn. intros [= <- <- <-].
      left. cbn. by rewrite K1, K1'. }
  unfold mbind at 1, M_bind at 1.
  destruct (pool_kept_register (Some a)) as [K2 K2']. specialize (K2 w1). specialize (K2' w1).
  destruct (JsApi.js_api_register_all (Some a) w1) as [ret2 w2]. cbn in K2, K2'.
  destruct (Z.eqb_spec ret2 ESP_OK) as [->|Hne]; cbn [negb].
  - unfold strcpy, tick_ms.
    unfold mbind, M_bind, mret, M_ret, esp_log, modify, get_world. cbn [fst snd].
    destruct (String.length id <? 32)%nat; cbn; intros [= <- <- <-]; right.
    all: eexists slot, a, _; cbn; rewrite K2, K2', K1, K1'; done.
  - unfold mbind, M_bind, mret, M_ret.
    destruct (pool_kept_destroy (Some a)) as [K3 K3']. specialize (K3 w2). specialize (K3' w2).
    destruct (mjs_engine_destroy_context (Some a) w2) as [u w3]. cbn in *.
    intros [= <- <- <-]. left. by rewrite K3, K3', K2, K2', K1, K1'.
Qed.

(** What [app_sandbox_destroy] does to the pool when the app has a
    sandbox. *)
Lemma sandbox_destroy_spec id w slot :
  AppSandbox.find_sandbox w id = Some slot →
  let r := AppSandbox.app_sandbox_destroy (Some id) w in
  fst r = ESP_OK
  ∧ s_sandboxes (snd r) = <[slot := sandbox_zero]> (s_sandboxes w)
  ∧ s_sandbox_count (snd r) = s_sandbox_count w - 1.
Proof.
  intros Hf r. subst r.
  destruct (AppSandbox.app_sandbox_destroy (Some id) w) as [ret w'] eqn:Hr.
  cbn [fst snd]. revert Hr. unfold AppSandbox.app_sandbox_destroy.
  unfold mbind at 1 2, M_bind at 1 2, esp_log at 1, modify at 1, get_world at 1. cbn.
  unfold AppSandbox.find_sandbox in *. cbn. rewrite Hf.
  unfold mbind at 1, M_bind at 1.
  match goal with |- context [match ?x with Some a => _ | None => mret () end ?w0] =>
    destruct x as [a|]
  end.
  - destruct (pool_kept_destroy (Some a)) as [K K'].
    match goal with |- context [mjs_engine_destroy_context (Some a) ?w0] =>
      specialize (K w0); specialize (K' w0);
      destruct (mjs_engine_destroy_context (Some a) w0) as [u w1]
    end.
    cbn in K, K'. unfold mbind, M_bind, mret, M_ret, esp_log, modify. cbn.
    intros [= <- <-]. cbn. by rewrite K, K'.
  - unfold mbind, M_bind, mret, M_ret, esp_log, modify. cbn. intros [= <- <-]. done.
Qed.

(** A copy that fits its array writes nothing past it. *)
Lemma strcpy_fits size src w :
  (String.length src < size)%nat → strcpy size src w = (src, w).
Proof.
  intros H. unfold strcpy.
  by replace (String.length src <? size)%nat with true by (symmetry; by apply Nat.ltb_lt).
Qed.

Lemma no_overrun_create id :
  (String.length id < 32)%nat →
  preserves w_overrun (AppSandbox.app_sandbox_create (Some id) true).
Proof.
  intros H.
  assert (preserves w_overrun (strcpy 32 id)) by (intros w; by rewrite strcpy_fits).
  unfold AppSandbox.app_sandbox_create; unfold_engine; frame.
Qed.

Lemma no_overrun_destroy id : preserves w_overrun (AppSandbox.app_sandbox_destroy id).
Proof. unfold AppSandbox.app_sandbox_destroy; unfold_engine; frame. Qed.

Lemma no_overrun_set_limits id memory_limit time_limit :
  preserves w_overrun (AppSandbox.app_sandbox_set_limits id memory_limit time_limit).
Proof. unfold AppSandbox.app_sandbox_set_limits; frame. Qed.

(** X19.  The pool's bookkeeping stays in order: creating a sandbox for
    an app id that fits the 32-byte field of the slot (fewer than 32
    characters), destroying one and changing limits keep the eight slots
    and the counter equal to the number of active slots, and none of the
    three writes past the end of an array. *)
Theorem sandbox_pool_stays_consistent w id memory_limit time_limit :
  sandbox_consistent w → (String.length id < 32)%nat →
  let created := snd (AppSandbox.app_sandbox_create (Some id) true w) in
  let destroyed := snd (AppSandbox.app_sandbox_destroy (Some id) w) in
  let limited := snd (AppSandbox.app_sandbox_set_limits (Some id) memory_limit time_limit w) in
  (sandbox_consistent created ∧ w_overrun created = w_overrun w)
  ∧ (sandbox_consistent destroyed ∧ w_overrun destroyed = w_overrun w)
  ∧ (sandbox_consistent limited ∧ w_overrun limited = w_overrun w).
Proof.
  intros [Hl Hc] Hid created destroyed limited. subst created destroyed limited.
  split; [split; [|by apply no_overrun_create]|].
  2: split; (split; [|by first [apply no_overrun_destroy|apply no_overrun_set_limits]]).
  all: unfold sandbox_consistent, sandbox_occupancy in *.
  - destruct (sandbox_create_spec id w) as [(_ & H1 & H2)|(slot & a & t & _ & Hf & H1 & H2)];
      cbv zeta in H1, H2; rewrite H1, H2; [done|].
    apply free_slot_spec in Hf as (s & Hs & Ha).
    pose proof (occupancy_insert _ _ _ (Sandbox id (Some a) 65536 5000 t true) Hs) as Ho.
    rewrite Ha in Ho. cbn [sb_active] in Ho. rewrite length_insert. split; [done|lia].
  - destruct (AppSandbox.find_sandbox w id) as [slot|] eqn:Hf.
    + destruct (sandbox_destroy_spec id w slot Hf) as (_ & H1 & H2).
      cbv zeta in H1, H2. rewrite H1, H2.
      apply find_sandbox_in_spec in Hf as (s & Hs & Ha & _).
      pose proof (occupancy_insert _ _ _ sandbox_zero Hs) as Ho.
      rewrite Ha in Ho. cbn [sb_active sandbox_zero] in Ho. rewrite length_insert.
      split; [done|lia].
    + unfold AppSandbox.app_sandbox_destroy.
      unfold mbind, M_bind, mret, M_ret, esp_log, modify, get_world. cbn.
      unfold AppSandbox.find_sandbox in *. cbn. rewrite Hf. done.
  - unfold AppSandbox.app_sandbox_set_limits.
    unfold mbind, M_bind, mret, M_ret, esp_log, modify, get_world. cbn.
    destruct (AppSandbox.find_sandbox w id) as [slot|] eqn:Hf; cbn; [|done].
    apply find_sandbox_in_spec in Hf as (s & Hs & Ha & _).
    rewrite length_alter. split; [done|].
    pose proof (occupancy_insert _ _ _ (AppSandbox.with_limits s memory_limit time_limit) Hs)
      as Ho.
    rewrite Ha in Ho. cbn [sb_active AppSandbox.with_limits] in Ho. rewrite Ha in Ho.
    rewrite (alter_as_insert _ _ _ _ Hs). lia.
Qed.

Lemma sandbox_pool_stays_consistent_witness :
  let created := snd (AppSandbox.app_sandbox_create (Some "app_deadbeef") true running_world) in
  let destroyed := snd (AppSandbox.app_sandbox_destroy (Some "app_deadbeef") running_world) in
  let limited :=
    snd (AppSandbox.app_sandbox_set_limits (Some "app_deadbeef") 1024 100 running_world) in
  (sandbox_consistent created ∧ w_overrun created = w_overrun running_world)
  ∧ (sandbox_consistent destroyed ∧ w_overrun destroyed = w_overrun running_world)
  ∧ (sandbox_consistent limited ∧ w_overrun limited = w_overrun running_world).
Proof.
  apply (sandbox_pool_stays_consistent running_world "app_deadbeef" 1024 100).
  - split; vm_compute; reflexivity.
  - vm_compute. lia.
Defined.

(** An app id of 32 characters does not fit: creating its sandbox writes
    past the end of the slot's [app_id]. *)
Example long_id_overruns :
  w_overrun (snd (AppSandbox.app_sandbox_create (Some "app_0123456789abcdef0123456789ab")
                    true boot_world)) = true.
Proof. vm_compute. reflexivity. Qed.

(** X20.  When all eight sandboxes are active, creating one fails with
    [ESP_ERR_NO_MEM] before any context is created: apart from two log
    lines the device is as before. *)
Theorem sandbox_pool_full w id :
  List.length (s_sandboxes w) = MAX_SANDBOXES → sandbox_occupancy w = MAX_SANDBOXES →
  AppSandbox.app_sandbox_create (Some id) true w
  = ((ESP_ERR_NO_MEM, None),
     set_w_log (w_log w ++ [Log LOG_INFO AppSandbox.TAG "Creating sandbox for app: %s";
                            Log LOG_ERROR AppSandbox.TAG "No free sandbox slots"]) w).
Proof.
  intros Hl Ho. unfold AppSandbox.app_sandbox_create.
  unfold mbind, M_bind, mret, M_ret, esp_log, modify, get_world. cbn.
  destruct (AppSandbox.free_slot (s_sandboxes w)) as [slot|] eqn:Hf.
  - exfalso. apply free_slot_spec in Hf as (s & Hs & Ha).
    pose proof (occupancy_insert _ _ _ (Sandbox "" None 0 0 0 true) Hs) as H.
    rewrite Ha in H. cbn [sb_active] in H.
    pose proof (filter_length sb_active (<[slot := Sandbox "" None 0 0 0 true]> (s_sandboxes w)))
      as Hb.
    rewrite length_insert in Hb. unfold sandbox_occupancy in Ho. lia.
  - cbn. by rewrite <- app_assoc.
Qed.

Lemma sandbox_pool_full_witness :
  AppSandbox.app_sandbox_create (Some "app_deadbeef") true crowded_world
  = ((ESP_ERR_NO_MEM, None),
     set_w_log (w_log crowded_world
                ++ [Log LOG_INFO AppSandbox.TAG "Creating sandbox for app: %s";
                    Log LOG_ERROR AppSandbox.TAG "No free sandbox slots"]) crowded_world).
Proof. apply (sandbox_pool_full crowded_world "app_deadbeef"); reflexivity. Defined.

(** The result of an execution depends on the heap, the platform and the
    clock only. *)
Lemma execute_result_frame ctx w w1 :
  w_heap w1 = w_heap w → w_platform w1 = w_platform w → w_tick_reads w1 = w_tick_reads w →
  fst (mjs_engine_execute ctx w1) = fst (mjs_engine_execute ctx w).
Proof.
  intros Hh Hp Ht.
  destruct ctx as [a|]; [|done].
  destruct (w_heap w !! a) as [c|] eqn:Hc.
  - destruct (code c) as [src|] eqn:Hsrc; [destruct (mjs c) as [m|] eqn:Hm|].
    + rewrite (proj1 (execute_spec w a c src m Hc Hsrc Hm)).
      rewrite (proj1 (execute_spec w1 a c src m (eq_trans (f_equal (.!! a) Hh) Hc) Hsrc Hm)).
      unfold measured_exec_time. by rewrite Hp, Ht.
    + unfold mjs_engine_execute, deref.
      unfold mbind, M_bind, mret, M_ret, get_world. cbn. rewrite Hh, Hc. cbn.
      by rewrite Hsrc, Hm.
    + unfold mjs_engine_execute, deref.
      unfold mbind, M_bind, mret, M_ret, get_world. cbn. rewrite Hh, Hc. cbn.
      by rewrite Hsrc.
  - unfold mjs_engine_execute, deref.
    unfold mbind, M_bind, mret, M_ret, get_world. cbn. by rewrite Hh, Hc.
Qed.

(** X21.  Changing the limits of a sandbox rewrites the two limits in the
    sandbox's record and nothing else.  The context of the sandbox keeps
    the limits it was created with, so every execution returns what it would
    have returned without the change; an app without a sandbox gets
    [ESP_ERR_NOT_FOUND]. *)
Theorem set_limits_leaves_execution w id memory_limit time_limit ctx :
  let r := AppSandbox.app_sandbox_set_limits (Some id) memory_limit time_limit w in
  w_heap (snd r) = w_heap w
  ∧ fst (mjs_engine_execute ctx (snd r)) = fst (mjs_engine_execute ctx w)
  ∧ (AppSandbox.find_sandbox w id = None →
     fst r = ESP_ERR_NOT_FOUND ∧ s_sandboxes (snd r) = s_sandboxes w)
  ∧ (∀ slot s, AppSandbox.find_sandbox w id = Some slot → s_sandboxes w !! slot = Some s →
     fst r = ESP_OK
     ∧ s_sandboxes (snd r)
       = <[slot := AppSandbox.with_limits s memory_limit time_limit]> (s_sandboxes w)).
Proof.
  cbv zeta.
  assert (w_heap (snd (AppSandbox.app_sandbox_set_limits (Some id) memory_limit time_limit w))
          = w_heap w
          ∧ w_platform
              (snd (AppSandbox.app_sandbox_set_limits (Some id) memory_limit time_limit w))
            = w_platform w
          ∧ w_tick_reads
              (snd (AppSandbox.app_sandbox_set_limits (Some id) memory_limit time_limit w))
            = w_tick_reads w) as (Hh & Hp & Ht).
  { unfold AppSandbox.app_sandbox_set_limits.
    unfold mbind, M_bind, mret, M_ret, esp_log, modify, get_world. cbn.
    by destruct (AppSandbox.find_sandbox w id). }
  split; [done|]. split; [by apply execute_result_frame|].
  unfold AppSandbox.app_sandbox_set_limits.
  unfold mbind, M_bind, mret, M_ret, esp_log, modify, get_world. cbn.
  split.
  - by intros ->.
  - intros slot s -> Hs. cbn. by rewrite (alter_as_insert _ _ _ _ Hs).
Qed.

(** ** The access check *)

Lemma registry_check_spec w id flags :
  fst (AppManager.app_manager_check_permission (Some id) flags w) = true
  ↔ registry_grants w id flags.
Proof.
  unfold AppManager.app_manager_check_permission, registry_grants.
  unfold mbind, M_bind, mret, M_ret, get_world. cbn.
  destruct (AppManager.find_app (s_installed_apps w) id) as [[i app]|]; cbn.
  - destruct (Z.eqb_spec (Z.land (app_permissions app) flags) 0) as [Hz|Hz]; cbn.
    + split; [done|]. intros (? & ? & [= <- <-] & ?). done.
    + split; [|done]. intros _. by exists i, app.
  - split; [done|]. by intros (? & ? & ? & _).
Qed.

Lemma registry_check_world w id flags :
  snd (AppManager.app_manager_check_permission (Some id) flags w) = w.
Proof.
  unfold AppManager.app_manager_check_permission.
  unfold mbind, M_bind, mret, M_ret, get_world. cbn.
  by destruct (AppManager.find_app (s_installed_apps w) id) as [[i app]|].
Qed.

(** X22.  The access check grants a resource exactly when the app has an
    active sandbox that is no older than its time limit, measured from the
    creation of the sandbox, and the registry (not the Permission Store)
    holds the system bit if the resource name contains "/system/", and one
    of the two RF bits if it contains "rf." anywhere. *)
Theorem check_access_iff w id res :
  fst (SandboxAccess.app_sandbox_check_access (Some id) (Some res) w) = true
  ↔ ∃ slot s, AppSandbox.find_sandbox w id = Some slot ∧ s_sandboxes w !! slot = Some s
      ∧ sandbox_age w s ≤ sb_time_limit s
      ∧ (strstr res "/system/" = true → registry_grants w id APP_PERM_SYSTEM)
      ∧ (strstr res "rf." = true →
         registry_grants w id (Z.lor APP_PERM_RF_RECEIVE APP_PERM_RF_TRANSMIT)).
Proof.
  unfold SandboxAccess.app_sandbox_check_access, tick_ms, sandbox_age, clock_ms.
  unfold mbind, M_bind, mret, M_ret, esp_log, modify, get_world. cbn.
  destruct (AppSandbox.find_sandbox w id) as [slot|] eqn:Hf; cbn;
    [|split; [done|by intros (? & ? & [=] & _)]].
  destruct (s_sandboxes w !! slot) as [s|] eqn:Hs; cbn;
    [|split; [done|intros (? & ? & [= <-] & ? & _); congruence]].
  destruct (sb_time_limit s <? _) eqn:Eage; cbn.
  { apply Z.ltb_lt in Eage. split; [done|].
    intros (? & ? & [= <-] & ? & ? & _). simplify_eq. lia. }
  apply Z.ltb_ge in Eage.
  assert (∀ f w0, let r := AppManager.app_manager_check_permission (Some id) f w0 in
                  (fst r = true ↔ registry_grants w0 id f) ∧ snd r = w0) as Hchk.
  { intros f w0. split; [apply registry_check_spec|apply registry_check_world]. }
  cbv zeta in Hchk.
  destruct (strstr res "/system/") eqn:Esys; cbn.
  - match goal with |- context [AppManager.app_manager_check_permission (Some id) ?f ?w0] =>
      destruct (Hchk f w0) as [Hsys Hw];
      destruct (AppManager.app_manager_check_permission (Some id) f w0) as [g w1]
    end.
    cbn in Hsys, Hw. subst w1. destruct g; cbn.
    + destruct (strstr res "rf.") eqn:Erf; cbn.
      * match goal with |- context [AppManager.app_manager_check_permission (Some id) ?f ?w0] =>
          destruct (Hchk f w0) as [Hrf Hw];
          destruct (AppManager.app_manager_check_permission (Some id) f w0) as [g w1]
        end.
        cbn in Hrf, Hw. subst w1. destruct g; cbn.
        -- split; [|done]. intros _. exists slot, s. split_and!; try done.
           ++ intros _. by apply Hsys.
           ++ intros _. by apply Hrf.
        -- split; [done|]. intros (? & ? & _ & _ & _ & _ & H).
           specialize (H eq_refl). apply Hrf in H. done.
      * split; [|done]. intros _. exists slot, s. split_and!; try done.
        intros _. by apply Hsys.
    + split; [done|]. intros (? & ? & _ & _ & _ & H & _).
      specialize (H eq_refl). apply Hsys in H. done.
  - destruct (strstr res "rf.") eqn:Erf; cbn.
    + match goal with |- context [AppManager.app_manager_check_permission (Some id) ?f ?w0] =>
        destruct (Hchk f w0) as [Hrf Hw];
        destruct (AppManager.app_manager_check_permission (Some id) f w0) as [g w1]
      end.
      cbn in Hrf, Hw. subst w1. destruct g; cbn.
      * split; [|done]. intros _. exists slot, s. split_and!; try done.
        intros _. by apply Hrf.
      * split; [done|]. intros (? & ? & _ & _ & _ & _ & H).
        specialize (H eq_refl). apply Hrf in H. done.
    + split; [|done]. intros _. by exists slot, s.
Qed.

(** A log file whose name happens to contain "rf." is an RF resource: the
    running demo app, which holds rf.receive, may read it; the same app
    with only ui.create may not. *)
Example check_access_by_substring :
  strstr "/sd/perf.log" "rf." = true
  ∧ fst (SandboxAccess.app_sandbox_check_access (Some "app_deadbeef") (Some "/sd/perf.log")
           running_world) = true
  ∧ fst (SandboxAccess.app_sandbox_check_access (Some "app_deadbeef") (Some "/sd/perf.log")
           (set_s_installed_apps
              [AppInfo "app_deadbeef" "Sample App" "1.0.0" "Unknown" "index.js"
                 "/apps/app_deadbeef" APP_STATE_RUNNING (Some 0%nat) 0 0 false 0x40]
              running_world)) = false
  ∧ fst (SandboxAccess.app_sandbox_check_access (Some "app_deadbeef") (Some "/system/nvs")
           running_world) = false.
Proof. vm_compute. done. Qed.

(** ** Starting and stopping apps *)

Ltac unfold_sandbox :=
  unfold AppSandbox.app_sandbox_create, AppSandbox.app_sandbox_destroy,
    AppSandbox.app_sandbox_set_limits.

Lemma raise_all_keeps_manager h a msgs : preserves manager_state (raise_all h a msgs).
Proof. by apply preserves_raise_all. Qed.

Lemma raise_all_keeps_pool h a msgs : preserves pool_state (raise_all h a msgs).
Proof. by apply preserves_raise_all. Qed.

#[export] Hint Resolve raise_all_keeps_manager raise_all_keeps_pool : frames.

(** The sandbox pool and the engine never write the manager's state, and
    the engine never writes the pool. *)
Lemma sandbox_create_keeps_manager id context :
  preserves manager_state (AppSandbox.app_sandbox_create id context).
Proof. unfold_sandbox; unfold_engine; frame. Qed.

Lemma sandbox_destroy_keeps_manager id :
  preserves manager_state (AppSandbox.app_sandbox_destroy id).
Proof. unfold_sandbox; unfold_engine; frame. Qed.

Lemma load_file_keeps_manager ctx file :
  preserves manager_state (mjs_engine_load_file ctx file).
Proof. unfold_engine; frame. Qed.

Lemma execute_keeps_manager ctx : preserves manager_state (mjs_engine_execute ctx).
Proof. unfold_engine; frame. Qed.

Lemma stop_keeps_manager ctx : preserves manager_state (mjs_engine_stop ctx).
Proof. unfold_engine; frame. Qed.

Lemma load_file_keeps_pool ctx file : preserves pool_state (mjs_engine_load_file ctx file).
Proof. unfold_engine; frame. Qed.

Lemma execute_keeps_pool ctx : preserves pool_state (mjs_engine_execute ctx).
Proof. unfold_engine; frame. Qed.

Lemma stop_keeps_pool ctx : preserves pool_state (mjs_engine_stop ctx).
Proof. unfold_engine; frame. Qed.

(** The occupancy after a slot is taken and after one is given back. *)
Lemma occupancy_take (slots : list sandbox_t) slot s :
  AppSandbox.free_slot slots = Some slot → sb_active s = true →
  List.length (List.filter sb_active (<[slot := s]> slots))
  = S (List.length (List.filter sb_active slots)).
Proof.
  intros (s0 & Hs & Ha)%free_slot_spec Hact.
  pose proof (occupancy_insert _ _ _ s Hs) as H. rewrite Ha, Hact in H. lia.
Qed.

Lemma occupancy_give (slots : list sandbox_t) id slot :
  AppSandbox.find_sandbox_in slots id = Some slot →
  S (List.length (List.filter sb_active (<[slot := sandbox_zero]> slots)))
  = List.length (List.filter sb_active slots).
Proof.
  intros (s0 & Hs & Ha & _)%find_sandbox_in_spec.
  pose proof (occupancy_insert _ _ _ sandbox_zero Hs) as H. rewrite Ha in H. cbn in H. lia.
Qed.

(** Destroying the sandbox of an app that has an active one gives one
    slot back. *)
Lemma destroy_gives_back id w :
  is_Some (AppSandbox.find_sandbox w id) →
  let r := AppSandbox.app_sandbox_destroy (Some id) w in
  S (sandbox_occupancy (snd r)) = sandbox_occupancy w
  ∧ s_sandbox_count (snd r) = s_sandbox_count w - 1
  ∧ manager_state (snd r) = manager_state w.
Proof.
  intros [slot Hf] r. subst r.
  destruct (sandbox_destroy_spec id w slot Hf) as (_ & H1 & H2). cbv zeta in H1, H2.
  unfold sandbox_occupancy. rewrite H1, H2.
  split; [by apply (occupancy_give _ id)|]. split; [done|].
  apply sandbox_destroy_keeps_manager.
Qed.

(** What a start does when the registry knows the app and it is not
    running: either it fails and gives back whatever it took, or it
    succeeds, holds one more sandbox, and the app's record is Running with
    the new context. *)
Lemma start_spec w id i app :
  AppManager.find_app (s_installed_apps w) id = Some (i, app) →
  app_state app ≠ APP_STATE_RUNNING →
  let r := AppManager.app_manager_start_app (Some id) w in
  (fst r ≠ ESP_OK
   ∧ sandbox_occupancy (snd r) = sandbox_occupancy w
   ∧ s_sandbox_count (snd r) = s_sandbox_count w
   ∧ s_current_app_id (snd r) = s_current_app_id w
   ∧ (s_installed_apps (snd r) = s_installed_apps w
      ∨ s_installed_apps (snd r)
        = alter (λ x, AppManager.with_js_context x None) i (s_installed_apps w)))
  ∨ (fst r = ESP_OK
     ∧ (∃ a, s_installed_apps (snd r)
             = alter (λ x, AppManager.with_state (AppManager.with_js_context x (Some a))
                             APP_STATE_RUNNING) i (s_installed_apps w))
     ∧ sandbox_occupancy (snd r) = S (sandbox_occupancy w)
     ∧ s_sandbox_count (snd r) = s_sandbox_count w + 1
     ∧ is_Some (AppSandbox.find_sandbox (snd r) id)
     ∧ s_current_app_id (snd r) = id).
Proof.
  intros Hf Hst r. subst r.
  destruct (AppManager.app_manager_start_app (Some id) w) as [ret w'] eqn:Hr.
  cbn [fst snd]. revert Hr.
  unfold AppManager.app_manager_start_app, AppManager.update_app.
  unfold mbind at 1 2, M_bind at 1 2, esp_log at 1, modify at 1, get_world at 1.
  cbn [fst snd s_installed_apps set_w_log]. rewrite Hf.
  assert (∀ (X : Type) (k1 k2 : X),
            match app_state app with APP_STATE_RUNNING => k1 | _ => k2 end = k2) as Hm
    by (intros; by destruct (app_state app)).
  rewrite Hm. clear Hm.
  unfold mbind at 1, M_bind at 1.
  match goal with |- context [AppSandbox.app_sandbox_create ?x ?b ?w0] =>
    pose proof (sandbox_create_spec id w0) as Hc; cbv zeta in Hc;
    pose proof (sandbox_create_keeps_manager x b w0) as Hk1;
    destruct (AppSandbox.app_sandbox_create x b w0) as [[ret1 created] w1]
  end.
  cbn [fst snd] in Hc, Hk1. unfold manager_state in Hk1. cbn in Hk1.
  injection Hk1 as Hk1 Hk1'.
  destruct Hc as [(Hne & Hp1 & Hp1')|(slot & a & t & Hok & Hfree & Hp1 & Hp1')];
    cbn in Hp1, Hp1'.
  { (* no sandbox *)
    apply Z.eqb_neq in Hne. rewrite Hne. cbn [negb].
    unfold mbind, M_bind, mret, M_ret, esp_log, modify. cbn.
    intros [= <- <-]. left. apply Z.eqb_neq in Hne.
    unfold sandbox_occupancy. cbn. rewrite Hp1, Hp1', Hk1, Hk1'. split_and!; auto. }
  cbn in Hfree.
  injection Hok as -> ->. cbn [negb Z.eqb ESP_OK default].
  change (0 =? 0) with true. cbn [negb].
  unfold mbind at 1 2, M_bind at 1 2, modify at 1. cbn [fst snd].
  assert (sandbox_occupancy w1 = S (sandbox_occupancy w)) as Hocc.
  { unfold sandbox_occupancy. rewrite Hp1. cbn. by apply occupancy_take. }
  assert (is_Some (AppSandbox.find_sandbox_in (s_sandboxes w1) id)) as Hfound.
  { apply free_slot_spec in Hfree as (s0 & Hs0 & _). cbn in Hs0.
    apply (find_sandbox_in_some _ _ slot (Sandbox id (Some a) 65536 5000 t true)); [|done..].
    rewrite Hp1. cbn. apply list_lookup_insert_eq. by apply lookup_lt_Some in Hs0. }
  match goal with |- context [mjs_engine_load_file ?c ?f ?w2] =>
    pose proof (load_file_keeps_manager c f w2) as Hk2;
    pose proof (load_file_keeps_pool c f w2) as Hp2;
    destruct (mjs_engine_load_file c f w2) as [ret2 w3]
  end.
  unfold manager_state, pool_state in Hk2, Hp2. cbn in Hk2, Hp2.
  injection Hk2 as Hk2 Hk2'. injection Hp2 as Hp2 Hp2'.
  destruct (Z.eqb_spec ret2 ESP_OK) as [->|Hne2]; cbn [negb].
  2:{ (* the entry file cannot be loaded *)
    unfold mbind at 1, M_bind at 1.
    destruct (destroy_gives_back id w3) as (Hd1 & Hd2 & Hd3);
      [unfold AppSandbox.find_sandbox; by rewrite Hp2|].
    cbv zeta in Hd1, Hd2, Hd3.
    destruct (AppSandbox.app_sandbox_destroy (Some id) w3) as [u w4].
    cbn [fst snd] in Hd1, Hd2, Hd3. unfold manager_state in Hd3. injection Hd3 as Hd3 Hd3'.
    unfold mbind, M_bind, mret, M_ret, esp_log, modify. cbn.
    intros [= <- <-]. left. unfold sandbox_occupancy in *. cbn.
    rewrite Hd2, Hp2', Hp1', Hd3, Hd3', Hk2, Hk2', Hk1, Hk1'.
    assert (sandbox_occupancy w3 = S (sandbox_occupancy w)) as Hocc3
      by (unfold sandbox_occupancy; by rewrite Hp2).
    unfold sandbox_occupancy in Hocc3.
    split_and!; [done|lia|lia|done|].
    right. rewrite list_alter_alter_eq. apply list_alter_ext; [|done].
    by intros [] _.
  }
  unfold mbind at 1, M_bind at 1.
  match goal with |- context [mjs_engine_execute ?c ?w3'] =>
    pose proof (execute_keeps_manager c w3') as Hk3;
    pose proof (execute_keeps_pool c w3') as Hp3;
    destruct (mjs_engine_execute c w3') as [res w4]
  end.
  unfold manager_state, pool_state in Hk3, Hp3. cbn in Hk3, Hp3.
  injection Hk3 as Hk3 Hk3'. injection Hp3 as Hp3 Hp3'.
  assert (sandbox_occupancy w4 = S (sandbox_occupancy w)) as Hocc4
    by (unfold sandbox_occupancy in *; by rewrite Hp3, Hp2).
  destruct res.
  1:{ (* started *)
    unfold mbind, M_bind, mret, M_ret, esp_log, modify. cbn.
    intros [= <- <-]. right. unfold sandbox_occupancy in *. cbn.
    rewrite Hk3, Hk2, Hk1, Hp3', Hp2', Hp1'.
    split_and!; try done.
    - exists a. rewrite list_alter_alter_eq. by apply list_alter_ext.
    - unfold AppSandbox.find_sandbox. cbn. by rewrite Hp3, Hp2. }
  all: unfold mbind at 1, M_bind at 1;
    (destruct (destroy_gives_back id w4) as (Hd1 & Hd2 & Hd3);
       [unfold AppSandbox.find_sandbox; by rewrite Hp3, Hp2|]);
    cbv zeta in Hd1, Hd2, Hd3;
    destruct (AppSandbox.app_sandbox_destroy (Some id) w4) as [u w5];
    cbn [fst snd] in Hd1, Hd2, Hd3; unfold manager_state in Hd3; injection Hd3 as Hd3 Hd3';
    unfold mbind, M_bind, mret, M_ret, esp_log, modify; cbn;
    intros [= <- <-]; left; unfold sandbox_occupancy in *; cbn;
    rewrite Hd2, Hp3', Hp2', Hp1', Hd3, Hd3', Hk3, Hk3', Hk2, Hk2', Hk1, Hk1';
    (split_and!; [done|lia|lia|done|]);
    right; rewrite list_alter_alter_eq; (apply list_alter_ext; [|done]);
    by intros [] _.
Qed.

(** What a stop does to a running app that holds a context and a sandbox. *)
Lemma stop_spec w id i app a :
  AppManager.find_app (s_installed_apps w) id = Some (i, app) →
  app_state app = APP_STATE_RUNNING → app_js_context app = Some a →
  is_Some (AppSandbox.find_sandbox w id) →
  let r := AppManager.app_manager_stop_app (Some id) w in
  fst r = ESP_OK
  ∧ s_installed_apps (snd r)
    = alter (λ x, AppManager.with_state (AppManager.with_js_context x None) APP_STATE_STOPPED)
        i (s_installed_apps w)
  ∧ S (sandbox_occupancy (snd r)) = sandbox_occupancy w
  ∧ s_sandbox_count (snd r) = s_sandbox_count w - 1
  ∧ s_current_app_id (snd r) = (if streq (s_current_app_id w) id then "" else s_current_app_id w).
Proof.
  intros Hf Hst Hctx Hsb r. subst r.
  destruct (AppManager.app_manager_stop_app (Some id) w) as [ret w'] eqn:Hr.
  cbn [fst snd]. revert Hr.
  unfold AppManager.app_manager_stop_app, AppManager.update_app.
  unfold mbind, M_bind, mret, M_ret, esp_log, modify, get_world.
  cbn [fst snd s_installed_apps set_w_log]. rewrite Hf. cbv beta iota. rewrite Hst, Hctx.
  cbv beta iota.
  match goal with |- context [mjs_engine_stop ?c ?w0] =>
    pose proof (stop_keeps_manager c w0) as Hk1;
    pose proof (stop_keeps_pool c w0) as Hp1;
    destruct (mjs_engine_stop c w0) as [u1 w1]
  end.
  unfold manager_state, pool_state in Hk1, Hp1. cbn in Hk1, Hp1.
  injection Hk1 as Hk1 Hk1'. injection Hp1 as Hp1 Hp1'.
  destruct (destroy_gives_back id w1) as (Hd1 & Hd2 & Hd3).
  { unfold AppSandbox.find_sandbox in *. by rewrite Hp1. }
  cbv zeta in Hd1, Hd2, Hd3.
  destruct (AppSandbox.app_sandbox_destroy (Some id) w1) as [u2 w2].
  cbn [fst snd] in Hd1, Hd2, Hd3. unfold manager_state in Hd3. injection Hd3 as Hd3 Hd3'.
  unfold mbind, M_bind, mret, M_ret, esp_log, modify, get_world. cbn.
  rewrite Hd3'. rewrite Hk1'.
  assert (sandbox_occupancy w1 = sandbox_occupancy w) as Ho1
    by (unfold sandbox_occupancy; by rewrite Hp1).
  unfold streq.
  destruct (String.eqb (s_current_app_id w) id); cbn; intros [= <- <-];
    unfold sandbox_occupancy in *; cbn; rewrite Hd2, Hp1', Hd3, Hk1.
  all: split_and!.
  all: try done.
  all: try lia.
  all: try congruence.
  all: rewrite list_alter_alter_eq; by apply list_alter_ext.
Qed.

(** Stopping an app that the registry does not know returns
    [ESP_ERR_NOT_FOUND], stopping one that is not running returns [ESP_OK];
    in both cases only log lines are written. *)
Theorem stop_app_not_running w id :
  (∀ i app, AppManager.find_app (s_installed_apps w) id = Some (i, app) →
            app_state app ≠ APP_STATE_RUNNING) →
  fst (AppManager.app_manager_stop_app (Some id) w)
  = match AppManager.find_app (s_installed_apps w) id with
    | Some _ => ESP_OK
    | None => ESP_ERR_NOT_FOUND
    end
  ∧ ∃ lines, snd (AppManager.app_manager_stop_app (Some id) w)
             = set_w_log (w_log w ++ lines) w.
Proof.
  intros Hnot. unfold AppManager.app_manager_stop_app.
  unfold mbind, M_bind, mret, M_ret, esp_log, modify, get_world. cbn.
  destruct (AppManager.find_app (s_installed_apps w) id) as [[i app]|] eqn:Hf; cbn.
  - specialize (Hnot i app eq_refl).
    destruct (app_state app); try done; cbn;
      (split; [done|]; eexists; by rewrite <- app_assoc).
  - split; [done|]. eexists. by rewrite <- app_assoc.
Qed.

Lemma stop_app_not_running_witness :
  fst (AppManager.app_manager_stop_app (Some "app_deadbeef") installed_world)
  = match AppManager.find_app (s_installed_apps installed_world) "app_deadbeef" with
    | Some _ => ESP_OK
    | None => ESP_ERR_NOT_FOUND
    end
  ∧ ∃ lines, snd (AppManager.app_manager_stop_app (Some "app_deadbeef") installed_world)
             = set_w_log (w_log installed_world ++ lines) installed_world.
Proof.
  apply (stop_app_not_running installed_world "app_deadbeef").
  intros i app.
  assert (AppManager.find_app (s_installed_apps installed_world) "app_deadbeef"
          = Some (0%nat,
                  AppManager.with_js_context
                    (AppManager.with_state running_app APP_STATE_STOPPED) None)) as ->
    by (vm_compute; reflexivity).
  intros [= <- <-]. discriminate.
Defined.

(** X23.  A start that fails keeps nothing: the pool has as many active
    sandboxes as before and the same counter, the current app is unchanged,
    and the app's record is as before but for its context pointer, which is
    NULL if a sandbox had been created on the way. *)
Theorem failed_start_keeps_nothing w id i app :
  AppManager.find_app (s_installed_apps w) id = Some (i, app) →
  fst (AppManager.app_manager_start_app (Some id) w) ≠ ESP_OK →
  let w1 := snd (AppManager.app_manager_start_app (Some id) w) in
  sandbox_occupancy w1 = sandbox_occupancy w
  ∧ s_sandbox_count w1 = s_sandbox_count w
  ∧ s_current_app_id w1 = s_current_app_id w
  ∧ (AppManager.find_app (s_installed_apps w1) id = Some (i, app)
     ∨ AppManager.find_app (s_installed_apps w1) id
       = Some (i, AppManager.with_js_context app None)).
Proof.
  intros Hf Hfail w1. subst w1.
  assert (app_state app = APP_STATE_RUNNING ∨ app_state app ≠ APP_STATE_RUNNING)
    as [Hrun|Hst] by (destruct (app_state app); auto).
  { destruct (start_when_running w id i app Hf Hrun) as (Hok & _). congruence. }
  destruct (start_spec w id i app Hf Hst) as [(_ & H1 & H2 & H3 & H4)|(Hok & _)];
    [|cbv zeta in Hok; congruence].
  cbv zeta in H1, H2, H3, H4. split_and!; try done.
  destruct H4 as [->| ->]; [by left|right].
  by apply (find_app_alter (λ x, AppManager.with_js_context x None)); [intros []|].
Qed.

(** X24.  Starting a stopped app and stopping it again: when the start
    reports success so does the stop; afterwards the registry resolves the
    id to the same record, Stopped and without a context, the pool has as
    many active sandboxes as before the start and the same counter, and no
    app is current. *)
Theorem start_then_stop w id i app :
  AppManager.find_app (s_installed_apps w) id = Some (i, app) →
  app_state app ≠ APP_STATE_RUNNING →
  fst (AppManager.app_manager_start_app (Some id) w) = ESP_OK →
  let w1 := snd (AppManager.app_manager_start_app (Some id) w) in
  let w2 := snd (AppManager.app_manager_stop_app (Some id) w1) in
  fst (AppManager.app_manager_stop_app (Some id) w1) = ESP_OK
  ∧ AppManager.find_app (s_installed_apps w2) id
    = Some (i, AppManager.with_state (AppManager.with_js_context app None) APP_STATE_STOPPED)
  ∧ sandbox_occupancy w2 = sandbox_occupancy w
  ∧ s_sandbox_count w2 = s_sandbox_count w
  ∧ fst (AppManager.app_manager_get_current_app w2) = None.
Proof.
  intros Hf Hst Hok w1 w2.
  destruct (start_spec w id i app Hf Hst)
    as [(Hne & _)|(_ & (a & Hreg) & Hocc & Hcnt & Hsb & Hcur)];
    [cbv zeta in Hne; congruence|].
  cbv zeta in Hreg, Hocc, Hcnt, Hsb, Hcur. fold w1 in Hreg, Hocc, Hcnt, Hsb, Hcur.
  assert (AppManager.find_app (s_installed_apps w1) id
          = Some (i, AppManager.with_state (AppManager.with_js_context app (Some a))
                       APP_STATE_RUNNING)) as Hf1.
  { rewrite Hreg.
    by apply (find_app_alter
                (λ x, AppManager.with_state (AppManager.with_js_context x (Some a))
                        APP_STATE_RUNNING)); [intros []|]. }
  destruct (stop_spec w1 id i _ a Hf1 eq_refl eq_refl Hsb) as (H1 & H2 & H3 & H4 & H5).
  cbv zeta in H1, H2, H3, H4, H5. fold w2 in H2, H3, H4, H5.
  split_and!.
  - done.
  - rewrite H2.
    by rewrite (find_app_alter
                  (λ x, AppManager.with_state (AppManager.with_js_context x None)
                          APP_STATE_STOPPED) _ _ _ _ (λ b, ltac:(by destruct b)) Hf1).
  - lia.
  - lia.
  - unfold AppManager.app_manager_get_current_app.
    unfold mbind, M_bind, mret, M_ret, get_world. cbn.
    rewrite H5, Hcur. unfold streq. rewrite String.eqb_refl. done.
Qed.

Lemma failed_start_keeps_nothing_witness :
  let w1 := snd (AppManager.app_manager_start_app (Some "app_deadbeef")
                   crowded_installed_world) in
  sandbox_occupancy w1 = sandbox_occupancy crowded_installed_world
  ∧ s_sandbox_count w1 = s_sandbox_count crowded_installed_world
  ∧ s_current_app_id w1 = s_current_app_id crowded_installed_world
  ∧ (AppManager.find_app (s_installed_apps w1) "app_deadbeef" = Some (0%nat, stopped_app)
     ∨ AppManager.find_app (s_installed_apps w1) "app_deadbeef"
       = Some (0%nat, AppManager.with_js_context stopped_app None)).
Proof.
  apply (failed_start_keeps_nothing crowded_installed_world "app_deadbeef" 0%nat stopped_app).
  - vm_compute. reflexivity.
  - vm_compute. discriminate.
Defined.

Lemma start_then_stop_witness :
  let w1 := snd (AppManager.app_manager_start_app (Some "app_deadbeef") installed_world) in
  let w2 := snd (AppManager.app_manager_stop_app (Some "app_deadbeef") w1) in
  fst (AppManager.app_manager_stop_app (Some "app_deadbeef") w1) = ESP_OK
  ∧ AppManager.find_app (s_installed_apps w2) "app_deadbeef"
    = Some (0%nat,
            AppManager.with_state (AppManager.with_js_context stopped_app None)
              APP_STATE_STOPPED)
  ∧ sandbox_occupancy w2 = sandbox_occupancy installed_world
  ∧ s_sandbox_count w2 = s_sandbox_count installed_world
  ∧ fst (AppManager.app_manager_get_current_app w2) = None.
Proof.
  apply (start_then_stop installed_world "app_deadbeef" 0%nat stopped_app).
  - vm_compute. reflexivity.
  - discriminate.
  - vm_compute. reflexivity.
Defined.

(** ** Installing: failures and identifiers *)

Lemma fs_grows_refl fs : fs_grows fs fs.
Proof. by split. Qed.

Lemma fs_grows_trans fs1 fs2 fs3 : fs_grows fs1 fs2 → fs_grows fs2 fs3 → fs_grows fs1 fs3.
Proof. intros [? ?] [? ?]. split; set_solver. Qed.

Lemma path_exists_grows fs fs' p :
  fs_grows fs fs' → path_exists fs p = true → path_exists fs' p = true.
Proof.
  intros [Hd Hf]. unfold path_exists. rewrite !orb_true_iff, !bool_decide_eq_true.
  intros [H|H]; [left; set_solver|right].
  apply elem_of_dom. apply Hf. by apply elem_of_dom.
Qed.

Lemma adds_ret {A} (a : A) : only_adds_files (mret a).
Proof. intros w. apply fs_grows_refl. Qed.

Lemma adds_bind {A B} (m : M A) (k : A → M B) :
  only_adds_files m → (∀ a, only_adds_files (k a)) → only_adds_files (m ≫= k).
Proof.
  intros Hm Hk w. unfold mbind, M_bind. specialize (Hm w).
  destruct (m w) as [a w1]. eapply fs_grows_trans; [exact Hm|apply Hk].
Qed.

Lemma adds_preserves {A} (m : M A) : preserves w_fs m → only_adds_files m.
Proof. intros H w. rewrite H. apply fs_grows_refl. Qed.

Lemma adds_mkdir p : only_adds_files (mkdir p).
Proof.
  intros w. unfold mkdir. destruct (_ || _); cbn; [apply fs_grows_refl|].
  split; cbn; set_solver.
Qed.

Lemma adds_fopen_w p : only_adds_files (fopen_w p).
Proof.
  intros w. unfold fopen_w. destruct (_ || _); cbn; [apply fs_grows_refl|].
  split; cbn; [done|]. rewrite dom_insert. set_solver.
Qed.

Lemma adds_fappend p data : only_adds_files (fappend p data).
Proof.
  intros w. unfold fappend, modify. cbn. split; cbn; [done|]. rewrite dom_insert. set_solver.
Qed.

Lemma adds_log lvl tag fmt : only_adds_files (esp_log lvl tag fmt).
Proof. apply adds_preserves. by intros w. Qed.

Lemma adds_fopen_r p : only_adds_files (fopen_r p).
Proof. apply adds_preserves. by intros w. Qed.

Lemma adds_get_world : only_adds_files get_world.
Proof. apply adds_preserves. by intros w. Qed.

Create HintDb adds.
#[export] Hint Resolve adds_ret adds_mkdir adds_fopen_w adds_fappend adds_log adds_fopen_r
  adds_get_world : adds.

Ltac adds :=
  repeat first
    [ solve [eauto with adds]
    | apply adds_bind; [|intros ?]
    | match goal with
      | |- only_adds_files (match ?x with _ => _ end) => destruct x
      | |- only_adds_files (if ?x then _ else _) => destruct x
      | |- only_adds_files (let '(_, _) := ?x in _) => destruct x
      end ].

Lemma adds_extract package dir :
  only_adds_files (AppInstaller.app_installer_extract_package package dir).
Proof. unfold AppInstaller.app_installer_extract_package. adds. Qed.

Lemma adds_load_manifest path manifest :
  only_adds_files (ManifestLoader.mjs_engine_load_manifest path manifest).
Proof. unfold ManifestLoader.mjs_engine_load_manifest. adds. Qed.

Lemma adds_parse_permissions s : only_adds_files (AppManager.parse_permissions s).
Proof. unfold AppManager.parse_permissions. adds. Qed.

#[export] Hint Resolve adds_extract adds_load_manifest adds_parse_permissions : adds.

Lemma adds_install package app_id :
  only_adds_files (AppManager.app_manager_install package app_id).
Proof.
  unfold AppManager.app_manager_install.
  assert (only_adds_files esp_random) by (apply adds_preserves; by intros w).
  assert (∀ f, (∀ w, w_fs (f w) = w_fs w) → only_adds_files (modify f)) as Hmod
    by (intros f Hf; apply adds_preserves; intros w; apply Hf).
  adds.
Qed.

Lemma mkdir_spec p w :
  (fst (mkdir p w) = true →
   path_exists (w_fs w) p = false ∧ p ∈ fs_dirs (w_fs (snd (mkdir p w))))
  ∧ (fst (mkdir p w) = false →
     snd (mkdir p w) = w ∧ (fs_read_only (w_fs w) = true ∨ path_exists (w_fs w) p = true)).
Proof.
  unfold mkdir. cbv zeta.
  destruct (fs_read_only (w_fs w)); cbn [orb]; [split; [done|auto]|].
  destruct (path_exists (w_fs w) p); cbn [fst snd]; [split; [done|auto]|].
  split; [|done]. intros _. split; [done|]. cbn. set_solver.
Qed.

(** The extraction: what it needs of the target directory, and what it
    leaves when the package cannot be opened. *)
Lemma extract_needs_new_directory package dir w :
  fst (AppInstaller.app_installer_extract_package (Some package) (Some dir) w) = ESP_OK →
  path_exists (w_fs w) dir = false
  ∧ path_exists (w_fs (snd (AppInstaller.app_installer_extract_package (Some package)
                              (Some dir) w))) dir = true.
Proof.
  destruct (AppInstaller.app_installer_extract_package (Some package) (Some dir) w)
    as [ret w'] eqn:Hr.
  cbn [fst snd]. intros ->. revert Hr.
  unfold AppInstaller.app_installer_extract_package.
  unfold mbind at 1 2, M_bind at 1 2, esp_log at 1, modify at 1. cbn [fst snd].
  match goal with |- context [mkdir dir ?w0] =>
    destruct (mkdir_spec dir w0) as [Hmk _];
    destruct (mkdir dir w0) as [made w1]
  end.
  cbn [fst snd] in Hmk. destruct made; cbn [negb].
  - destruct (Hmk eq_refl) as [Hnew Hdir]. cbn in Hnew. intros Hr. split; [done|].
    unfold path_exists. apply orb_true_iff. left. apply bool_decide_eq_true.
    match type of Hr with ?rest w1 = _ =>
      assert (only_adds_files rest) as Hadds by adds
    end.
    specialize (Hadds w1). rewrite Hr in Hadds. apply (proj1 Hadds). done.
  - unfold mbind, M_bind, mret, M_ret, esp_log, modify. cbn. done.
Qed.

(** The registry is among what an extraction and a manifest load never
    write. *)
Lemma extract_keeps_registry package dir :
  preserves s_installed_apps (AppInstaller.app_installer_extract_package package dir).
Proof.
  unfold AppInstaller.app_installer_extract_package.
  assert (∀ p, preserves s_installed_apps (mkdir p)) as Hmk.
  { intros p w. unfold mkdir. by destruct (_ || _). }
  assert (∀ p, preserves s_installed_apps (fopen_w p)) as Hfw.
  { intros p w. unfold fopen_w. by destruct (_ || _). }
  assert (∀ p d, preserves s_installed_apps (fappend p d)) as Hfa by (by intros p d w).
  frame.
Qed.

Lemma load_manifest_keeps_registry path manifest :
  preserves s_installed_apps (ManifestLoader.mjs_engine_load_manifest path manifest).
Proof. unfold ManifestLoader.mjs_engine_load_manifest. frame. Qed.

Lemma parse_permissions_keeps_registry s :
  preserves s_installed_apps (AppManager.parse_permissions s).
Proof. unfold AppManager.parse_permissions. frame. Qed.

(** What an install does when the registry has room. *)
Lemma install_spec w package :
  (s_num_installed_apps w < MAX_INSTALLED_APPS)%nat →
  let r := AppManager.app_manager_install (Some package) true w in
  snd (fst r) = Some (next_app_id w)
  ∧ ((fst (fst r) ≠ ESP_OK ∧ s_installed_apps (snd r) = s_installed_apps w)
     ∨ (fst (fst r) = ESP_OK
        ∧ path_exists (w_fs w) (install_dir (next_app_id w)) = false
        ∧ path_exists (w_fs (snd r)) (install_dir (next_app_id w)) = true
        ∧ ∃ app, s_installed_apps (snd r) = (s_installed_apps w ++ [app])%list
                 ∧ app_id_of app = next_app_id w
                 ∧ app_install_path app = install_dir (next_app_id w))).
Proof.
  intros Hroom r. subst r.
  destruct (AppManager.app_manager_install (Some package) true w) as [[ret id] w'] eqn:Hr.
  cbn [fst snd] in *. revert Hr.
  unfold AppManager.app_manager_install.
  unfold mbind, M_bind, mret, M_ret, esp_log, modify, get_world, esp_random.
  unfold s_num_installed_apps in *. cbn -[Nat.leb].
  replace (Nat.leb MAX_INSTALLED_APPS (List.length (s_installed_apps w))) with false
    by (symmetry; apply Nat.leb_gt; lia).
  cbn.
  match goal with |- context [AppInstaller.app_installer_extract_package _ (Some ?d) _] =>
    change d with (install_dir (next_app_id w))
  end.
  match goal with |- context [snprintf 32 ?t] =>
    change (snprintf 32 t) with (next_app_id w)
  end.
  set (id0 := next_app_id w). set (dir := install_dir id0).
  destruct (AppInstaller.app_installer_extract_package _ _ _) as [ret1 w1] eqn:He.
  match type of He with AppInstaller.app_installer_extract_package _ _ ?w0 = _ =>
    pose proof (extract_needs_new_directory package dir w0) as Hx;
    pose proof (extract_keeps_registry (Some package) (Some dir) w0) as Hk1
  end.
  rewrite He in Hx, Hk1. cbn in Hx, Hk1.
  destruct (Z.eqb_spec ret1 ESP_OK) as [->|Hne]; cbn [negb].
  2:{ intros [= <- <- <-]. split; [done|]. by left. }
  destruct (Hx eq_refl) as [Hnew Hdir].
  destruct (ManifestLoader.mjs_engine_load_manifest _ _ w1) as [[ret2 loaded] w2] eqn:Hl.
  match type of Hl with ManifestLoader.mjs_engine_load_manifest ?p ?b _ = _ =>
    pose proof (load_manifest_keeps_registry p b w1) as Hk2;
    pose proof (adds_load_manifest p b w1) as Hg2
  end.
  rewrite Hl in Hk2, Hg2. cbn in Hk2, Hg2.
  destruct (Z.eqb_spec ret2 ESP_OK) as [->|Hne]; cbn [negb].
  2:{ intros [= <- <- <-]. split; [done|]. left. split; [done|congruence]. }
  destruct (AppManager.parse_permissions _ w2) as [permissions w3] eqn:Hp.
  match type of Hp with AppManager.parse_permissions ?p _ = _ =>
    pose proof (parse_permissions_keeps_registry p w2) as Hk3;
    pose proof (adds_parse_permissions p w2) as Hg3
  end.
  rewrite Hp in Hk3, Hg3. cbn in Hk3, Hg3.
  intros [= <- <- <-]. split; [done|]. right. cbn.
  split_and!; [done|done| |].
  - by apply (path_exists_grows _ _ _ Hg3), (path_exists_grows _ _ _ Hg2).
  - eexists. rewrite Hk3, Hk2, Hk1. split_and!; reflexivity.
Qed.



(** X26.  Two ways an install fails before anything is registered.  When
    the directory of the generated id exists already, or the medium is
    read-only, the install returns [ESP_FAIL] and leaves the file system as
    it is.  When the directory can be made but the package cannot be opened,
    it returns [ESP_ERR_NOT_FOUND] and the new, empty directory stays
    behind.  In both cases the registry is unchanged and the generated id
    has been written to the caller's buffer. *)
Theorem install_failures w package :
  (s_num_installed_apps w < MAX_INSTALLED_APPS)%nat →
  let r := AppManager.app_manager_install (Some package) true w in
  (path_exists (w_fs w) (install_dir (next_app_id w)) = true ∨ fs_read_only (w_fs w) = true →
   fst r = (ESP_FAIL, Some (next_app_id w))
   ∧ s_installed_apps (snd r) = s_installed_apps w ∧ w_fs (snd r) = w_fs w)
  ∧ (path_exists (w_fs w) (install_dir (next_app_id w)) = false →
     fs_read_only (w_fs w) = false → fst (fopen_r package w) = None →
     fst r = (ESP_ERR_NOT_FOUND, Some (next_app_id w))
     ∧ s_installed_apps (snd r) = s_installed_apps w
     ∧ w_fs (snd r)
       = Fs ({[install_dir (next_app_id w)]} ∪ fs_dirs (w_fs w)) (fs_files (w_fs w)) false).
Proof.
  intros Hroom r. subst r.
  unfold AppManager.app_manager_install, AppInstaller.app_installer_extract_package.
  unfold mbind, M_bind, mret, M_ret, esp_log, modify, get_world, esp_random.
  unfold s_num_installed_apps in *. cbn -[Nat.leb].
  replace (Nat.leb MAX_INSTALLED_APPS (List.length (s_installed_apps w))) with false
    by (symmetry; apply Nat.leb_gt; lia).
  cbn.
  match goal with |- context [mkdir ?d _] =>
    change d with (install_dir (next_app_id w))
  end.
  repeat match goal with |- context [snprintf 32 ?t] =>
    change (snprintf 32 t) with (next_app_id w)
  end.
  set (id0 := next_app_id w). set (dir := install_dir id0).
  unfold mkdir, fopen_r. cbn.
  split.
  - intros Hex.
    assert (fs_read_only (w_fs w) || path_exists (w_fs w) dir = true) as ->.
    { apply orb_true_iff. tauto. }
    cbn. done.
  - intros Hnew Hrw Hpkg. rewrite Hnew, Hrw. cbn.
    unfold fopen_r in Hpkg. cbn in Hpkg.
    assert ((if bool_decide (package ∈ {[dir]} ∪ fs_dirs (w_fs w))
             then None else fs_files (w_fs w) !! package) = None) as ->.
    { destruct (bool_decide (package ∈ {[dir]} ∪ fs_dirs (w_fs w))) eqn:E; [done|].
      apply bool_decide_eq_false in E.
      rewrite bool_decide_eq_false_2 in Hpkg by set_solver. done. }
    cbn. done.
Qed.

Lemma install_failures_witness :
  let r := AppManager.app_manager_install (Some "/sd/missing.pkg") true boot_world in
  (path_exists (w_fs boot_world) (install_dir (next_app_id boot_world)) = true
   ∨ fs_read_only (w_fs boot_world) = true →
   fst r = (ESP_FAIL, Some (next_app_id boot_world))
   ∧ s_installed_apps (snd r) = s_installed_apps boot_world
   ∧ w_fs (snd r) = w_fs boot_world)
  ∧ (path_exists (w_fs boot_world) (install_dir (next_app_id boot_world)) = false →
     fs_read_only (w_fs boot_world) = false →
     fst (fopen_r "/sd/missing.pkg" boot_world) = None →
     fst r = (ESP_ERR_NOT_FOUND, Some (next_app_id boot_world))
     ∧ s_installed_apps (snd r) = s_installed_apps boot_world
     ∧ w_fs (snd r)
       = Fs ({[install_dir (next_app_id boot_world)]} ∪ fs_dirs (w_fs boot_world))
           (fs_files (w_fs boot_world)) false).
Proof.
  apply (install_failures boot_world "/sd/missing.pkg").
  vm_compute. lia.
Defined.

(** A package that is not there: the install fails and leaves the
    directory it made; a second attempt that drew the same id would fail on
    that directory. *)
Example install_missing_package :
  fst (AppManager.app_manager_install (Some "/sd/missing.pkg") true boot_world)
  = (ESP_ERR_NOT_FOUND, Some "app_deadbeef")
  ∧ path_exists
      (w_fs (snd (AppManager.app_manager_install (Some "/sd/missing.pkg") true boot_world)))
      "/apps/app_deadbeef" = true.
Proof. vm_compute. done. Qed.

Lemma length_cstr l : String.length (cstr l) = List.length l.
Proof. unfold cstr. induction l as [|c l IH]; cbn; [done|]. by rewrite IH. Qed.

Lemma strncpy_field_length size src :
  (0 < size)%nat → (String.length (ManifestLoader.strncpy_field size src) < size)%nat.
Proof.
  intros H. unfold ManifestLoader.strncpy_field. rewrite length_cstr, length_take. lia.
Qed.

Lemma set_string_field_fits key value m :
  manifest_fits m → manifest_fits (ManifestLoader.set_string_field key value m).
Proof.
  intros (H1 & H2 & H3 & H4 & H5 & H6 & H7). unfold ManifestLoader.set_string_field.
  repeat (destruct (streq key _);
          [repeat split; cbn [m_name m_version m_author m_description m_entry_point
                              m_permissions m_memory_limit];
           try lia; apply strncpy_field_length; lia|]).
  repeat split; lia.
Qed.

Lemma parse_line_fits line m :
  manifest_fits m → manifest_fits (ManifestLoader.parse_line line m).
Proof.
  intros H. unfold ManifestLoader.parse_line.
  repeat (match goal with
          | |- manifest_fits (match ?x with _ => _ end) => destruct x
          | |- manifest_fits (if ?x then _ else _) => destruct x
          | |- manifest_fits (let _ := _ in _) => cbv zeta
          end; try done).
  all: try by apply set_string_field_fits.
  all: destruct H as (H1 & H2 & H3 & H4 & H5 & H6 & H7); repeat split; try done.
  all: cbn [m_name m_version m_author m_description m_entry_point m_permissions
            m_memory_limit ManifestLoader.set_memory_limit ManifestLoader.set_has_icon].
  all: unfold wrap32; try lia.
  all: match goal with
       | |- context [ManifestLoader.atoi ?x] =>
           pose proof (Z.mod_pos_bound (ManifestLoader.atoi x) (2 ^ 32))
       end; lia.
Qed.

Lemma fold_parse_fits lines m :
  manifest_fits m →
  manifest_fits (fold_left (λ m line, ManifestLoader.parse_line (until_nul line) m) lines m).
Proof.
  revert m. induction lines as [|line lines IH]; intros m H; cbn [fold_left]; [done|].
  apply IH. by apply parse_line_fits.
Qed.

Lemma apply_defaults_fits m :
  manifest_fits m →
  manifest_fits (ManifestLoader.apply_defaults m)
  ∧ m_name (ManifestLoader.apply_defaults m) ≠ ""
  ∧ m_version (ManifestLoader.apply_defaults m) ≠ ""
  ∧ m_memory_limit (ManifestLoader.apply_defaults m) ≠ 0.
Proof.
  intros (H1 & H2 & H3 & H4 & H5 & H6 & H7).
  unfold ManifestLoader.apply_defaults, manifest_fits.
  destruct (m_name m) as [|c1 n1] eqn:En; destruct (m_version m) as [|c2 n2] eqn:Ev;
    destruct (m_memory_limit m =? 0) eqn:Em; cbn in *.
  all: rewrite ?En, ?Ev; cbn; rewrite ?Em; cbn; rewrite ?En, ?Ev; cbn.
  all: try apply Z.eqb_neq in Em.
  all: repeat split; try done; try lia.
Qed.

(** X27.  Whatever the manifest file holds, the manifest that the reader
    returns fits the arrays of the structure it is copied to: every text
    field is shorter than its array, name and version are not empty, and
    the memory limit is a non-zero 32-bit value. *)
Theorem loaded_manifest_fits path w m :
  fst (ManifestLoader.mjs_engine_load_manifest (Some path) true w) = (ESP_OK, Some m) →
  manifest_fits m ∧ m_name m ≠ "" ∧ m_version m ≠ "" ∧ m_memory_limit m ≠ 0.
Proof.
  unfold ManifestLoader.mjs_engine_load_manifest.
  unfold mbind, M_bind, mret, M_ret, esp_log, modify, get_world, fopen_r.
  cbn. destruct (bool_decide _); cbn; [done|].
  destruct (fs_files (w_fs w) !! path) as [text|]; cbn; [|done].
  intros [= <-]. apply apply_defaults_fits, fold_parse_fits.
  repeat split; cbn; lia.
Qed.

Lemma loaded_manifest_fits_witness :
  manifest_fits tester_manifest ∧ m_name tester_manifest ≠ ""
  ∧ m_version tester_manifest ≠ "" ∧ m_memory_limit tester_manifest ≠ 0.
Proof.
  apply (loaded_manifest_fits "/sd/tester.pkg" boot_world). vm_compute. reflexivity.
Defined.

(** ** The radio bridge *)

Lemma get_string_arg_0 m :
  JsApi.js_get_string_arg (Some m) 0 true 16 = (ESP_OK, Some "arg_0")
  ∧ JsApi.js_get_string_arg (Some m) 0 true 32 = (ESP_OK, Some "arg_0").
Proof. split; vm_compute; reflexivity. Qed.

(** X28.  The radio bridge never passes a script's argument on.  Whatever
    the script hands to [rf.setModulation] or [rf.loadPreset], the call
    fails with the same error value and touches neither the driver nor
    anything else; what [rf.setFrequency] does depends only on how the
    driver answers a request for 0 Hz. *)
Theorem rf_tuning_ignores_arguments drv drv' m w :
  JsApi.cc1101_set_frequency drv 0 = JsApi.cc1101_set_frequency drv' 0 →
  JsApi.js_rf_set_modulation drv (Some m) w
  = (JsApi.js_make_error (w_platform w) (Some m) (Some "Unsupported modulation type"), w)
  ∧ JsApi.js_rf_load_preset drv (Some m) w
    = (JsApi.js_make_error (w_platform w) (Some m) (Some "Unknown preset"), w)
  ∧ JsApi.js_rf_set_frequency drv (Some m) w = JsApi.js_rf_set_frequency drv' (Some m) w.
Proof.
  intros H. split; [|split].
  - unfold JsApi.js_rf_set_modulation. unfold mbind, M_bind, get_world. cbn [fst snd].
    rewrite (proj1 (get_string_arg_0 m)). reflexivity.
  - unfold JsApi.js_rf_load_preset. unfold mbind, M_bind, get_world. cbn [fst snd].
    rewrite (proj2 (get_string_arg_0 m)). reflexivity.
  - unfold JsApi.js_rf_set_frequency, JsApi.js_get_number_arg.
    unfold mbind, M_bind, get_world. cbn [fst snd negb]. cbv beta iota.
    change (wrap32 0) with 0. by rewrite H.
Qed.

Lemma rf_tuning_ignores_arguments_witness :
  JsApi.js_rf_set_modulation band_driver (Some Mjs.mjs_create) boot_world
  = (JsApi.js_make_error (w_platform boot_world) (Some Mjs.mjs_create)
       (Some "Unsupported modulation type"), boot_world)
  ∧ JsApi.js_rf_load_preset band_driver (Some Mjs.mjs_create) boot_world
    = (JsApi.js_make_error (w_platform boot_world) (Some Mjs.mjs_create)
         (Some "Unknown preset"), boot_world)
  ∧ JsApi.js_rf_set_frequency band_driver (Some Mjs.mjs_create) boot_world
    = JsApi.js_rf_set_frequency
        (JsApi.Cc1101Driver (λ _, mret ESP_ERR_INVALID_ARG) (λ _, mret ESP_OK)
           (λ _, mret ESP_OK) (λ _, mret ESP_OK) (λ _, mret ESP_OK))
        (Some Mjs.mjs_create) boot_world.
Proof.
  apply (rf_tuning_ignores_arguments band_driver
           (JsApi.Cc1101Driver (λ _, mret ESP_ERR_INVALID_ARG) (λ _, mret ESP_OK)
              (λ _, mret ESP_OK) (λ _, mret ESP_OK) (λ _, mret ESP_OK))
           Mjs.mjs_create boot_world).
  reflexivity.
Defined.

(** With a driver that accepts the bands of the radio only, the script's
    [rf.setFrequency(433920000)] fails. *)
Example set_frequency_on_band_driver :
  fst (JsApi.js_rf_set_frequency band_driver (Some Mjs.mjs_create) boot_world)
  = JsApi.js_make_error demo_platform (Some Mjs.mjs_create) (Some "Failed to set frequency").
Proof. reflexivity. Qed.

(** ** Validating a manifest *)

Lemma synthesized_manifest_validates :
  let read := take 1023 (chars synthesized_manifest_text) in
  (List.length read =? 0)%nat = false
  ∧ negb (strstr_in (until_nul read) (chars (AppInstaller.dq ++ "name" ++ AppInstaller.dq)))
    || negb (strstr_in (until_nul read)
               (chars (AppInstaller.dq ++ "version" ++ AppInstaller.dq)))
    || negb (strstr_in (until_nul read)
               (chars (AppInstaller.dq ++ "entry_point" ++ AppInstaller.dq))) = false.
Proof. split; vm_compute; reflexivity. Qed.

(** X29.  The manifest that the extraction writes passes the installer's
    own validation: after a successful extraction, validating the manifest
    of the new directory never answers [ESP_FAIL]; it answers [ESP_OK]
    whenever the manifest can be opened. *)
Theorem extracted_manifest_validates package dir w :
  let w' := snd (AppInstaller.app_installer_extract_package (Some package) (Some dir) w) in
  let path := snprintf 256 (dir ++ "/manifest.json") in
  fst (AppInstaller.app_installer_extract_package (Some package) (Some dir) w) = ESP_OK →
  (fst (AppInstaller.app_installer_validate_manifest (Some path) w') = ESP_OK
   ∨ fst (AppInstaller.app_installer_validate_manifest (Some path) w') = ESP_ERR_NOT_FOUND)
  ∧ (is_Some (fst (fopen_r path w')) →
     fst (AppInstaller.app_installer_validate_manifest (Some path) w') = ESP_OK).
Proof.
  intros w' path Hok.
  destruct (AppInstaller.app_installer_extract_package (Some package) (Some dir) w)
    as [r w1] eqn:He. cbn [fst snd] in *. subst r w'.
  apply extract_ok in He as (_ & _ & _ & Hm). fold path in Hm.
  unfold AppInstaller.app_installer_validate_manifest.
  unfold mbind, M_bind, mret, M_ret, esp_log, modify.
  destruct (fopen_r path w1) as [file w2] eqn:Hf. cbn [fst snd] in *.
  destruct Hm as [-> | ->].
  - cbn. split; [by right|]. by intros [? ?].
  - destruct synthesized_manifest_validates as [H1 H2]. cbv zeta in H1, H2.
    cbv zeta. rewrite H1, H2. cbn. split; [by left|done].
Qed.

Lemma extracted_manifest_validates_witness :
  let w' := snd (AppInstaller.app_installer_extract_package (Some "/sd/tester.pkg")
                   (Some "/apps/t") boot_world) in
  let path := snprintf 256 ("/apps/t" ++ "/manifest.json") in
  (fst (AppInstaller.app_installer_validate_manifest (Some path) w') = ESP_OK
   ∨ fst (AppInstaller.app_installer_validate_manifest (Some path) w') = ESP_ERR_NOT_FOUND)
  ∧ (is_Some (fst (fopen_r path w')) →
     fst (AppInstaller.app_installer_validate_manifest (Some path) w') = ESP_OK).
Proof.
  apply (extracted_manifest_validates "/sd/tester.pkg" "/apps/t" boot_world).
  vm_compute. reflexivity.
Defined.

(** ** The frequency registers of the radio *)

Lemma bytes_of_word w :
  0 ≤ w < 2 ^ 24 →
  Z.land (Z.shiftr w 16) 0xFF * 65536 + Z.land (Z.shiftr w 8) 0xFF * 256 + Z.land w 0xFF = w.
Proof.
  intros H. change 0xFF with (Z.ones 8). rewrite !Z.land_ones, !Z.shiftr_div_pow2 by lia.
  change (2 ^ 16) with 65536. change (2 ^ 8) with 256. change (2 ^ 24) with 16777216 in H.
  Z.to_euclidean_division_equations. lia.
Qed.

(** X30.  For every 32-bit frequency the three register bytes are the
    24-bit word [frequency * 2^16 / 26 MHz], most significant byte first,
    with nothing lost; the carrier this word stands for lies at most one
    register step (26 MHz / 2^16, under 397 Hz) below the frequency asked
    for and never above it. *)
Theorem freq_regs_reassemble frequency :
  0 ≤ frequency < 2 ^ 32 →
  let '(freq2, freq1, freq0) := CC1101.cc1101_calc_freq_regs frequency in
  let word := freq2 * 65536 + freq1 * 256 + freq0 in
  (0 ≤ freq2 < 256 ∧ 0 ≤ freq1 < 256 ∧ 0 ≤ freq0 < 256)
  ∧ word = frequency * 65536 / 26000000
  ∧ word * 26000000 ≤ frequency * 65536 < (word + 1) * 26000000.
Proof.
  intros H. unfold CC1101.cc1101_calc_freq_regs, CC1101.wrap64, wrap32.
  change (2 ^ 32) with 4294967296 in *. change (2 ^ 64) with 18446744073709551616.
  rewrite (Z.mod_small (frequency * 65536)) by lia.
  assert (0 ≤ frequency * 65536 / 26000000 < 2 ^ 24) as Hw.
  { change (2 ^ 24) with 16777216. split; [apply Z.div_pos; lia|].
    apply Z.div_lt_upper_bound; lia. }
  rewrite (Z.mod_small (frequency * 65536 / 26000000))
    by (change (2 ^ 24) with 16777216 in Hw; lia).
  set (w := frequency * 65536 / 26000000) in *.
  cbv zeta. rewrite (bytes_of_word w Hw).
  split; [|split; [done|]].
  - change 0xFF with (Z.ones 8). rewrite !Z.land_ones by lia.
    change (2 ^ 8) with 256. repeat split; apply Z.mod_pos_bound; lia.
  - subst w. Z.to_euclidean_division_equations. lia.
Qed.

Lemma freq_regs_reassemble_witness :
  let '(freq2, freq1, freq0) := CC1101.cc1101_calc_freq_regs 433920000 in
  let word := freq2 * 65536 + freq1 * 256 + freq0 in
  (0 ≤ freq2 < 256 ∧ 0 ≤ freq1 < 256 ∧ 0 ≤ freq0 < 256)
  ∧ word = 433920000 * 65536 / 26000000
  ∧ word * 26000000 ≤ 433920000 * 65536 < (word + 1) * 26000000.
Proof. apply (freq_regs_reassemble 433920000). lia. Defined.

(** The registers for 433.92 MHz. *)
Example freq_regs_433 : CC1101.cc1101_calc_freq_regs 433920000 = (0x10, 0xB0, 0x71).
Proof. reflexivity. Qed.
